(** * react-virtual-infinite-list: pagination controller and windowing engine

  A shallow embedding of the two hooks of the library, [useInfiniteList]
  and [useVirtualList] (hooks/useInfiniteList.ts and hooks/useVirtualList.ts
  of the package), of the parts of the [InfiniteList] component that wire
  them together, and the properties their specification states about them.

  Conventions of the embedding.
  - A JavaScript [number] that measures pixels (heights, offsets, extents)
    is a value of a type [number] that comes with the operations the hooks
    apply to it ([Number.Arithmetic]).  The hooks are written once, over any
    such arithmetic; two are given: [Number.double], IEEE 754 binary64 as
    the engine computes it, and [Number.exact], the rationals [Q], without
    rounding, [NaN] or infinities.  What holds whatever the arithmetic is
    stated for every arithmetic; what depends on order and on sums is stated
    for the exact one, and where rounding breaks it the doubles show it.
    A number that counts or indexes (page, limit, total, indices, attempts)
    is a [Z].
  - A function supplied by the caller (the fetcher, [getData], [getTotal],
    [getNextCursor], [hasMore], and the callbacks [onSuccess] and [onError])
    may throw: it returns a [completion], [Normal v] or [Throw e].  The
    invocations of the two callbacks are recorded.
  - React state and refs of one hook instance are the fields of one record;
    a [setX] call writes its field at once (every handler is taken to run
    on the latest render, except where a closure's captured flags are made
    explicit arguments).
  - An [await] splits a function in two: the part that runs up to the
    request, and the part that runs when the request settles. *)

From Stdlib Require Import String ZArith QArith Qminmax Lqa Lia Bool List.
From Stdlib Require Import Floats.PrimFloat.
From Equations Require Import Equations.
From Equations.Prop Require Import Logic.
Import ListNotations.

Set Implicit Arguments.
Set Default Proof Using "Type".
Set Warnings "-inexact-float".

(* ===================================================================== *)
(** ** JavaScript values the hooks handle *)
(* ===================================================================== *)

Module JS.

(** [Error] objects, by their message. *)
Record Error := { message : string }.

(** What a [throw] can carry: an [Error] instance or any other value. *)
Inductive Thrown :=
| ThrownError (e : Error)
| ThrownValue (v : string).

(** The outcome of calling a caller-supplied function, or of a promise. *)
Inductive completion (A : Type) :=
| Normal (a : A)
| Throw (t : Thrown).
Arguments Normal {A} a.
Arguments Throw {A} t.

(** [string | null | undefined], the run-time range of a cursor. *)
Inductive Cursor :=
| Null
| Undefined
| Str (s : string).

(** [c ?? null] *)
Definition orNull (c : Cursor) : Cursor :=
  match c with
  | Undefined => Null
  | _ => c
  end.

(** [c !== null && c !== undefined] *)
Definition notNullish (c : Cursor) : bool :=
  match c with
  | Str _ => true
  | _ => false
  end.

(** [err instanceof Error ? err : new Error('Unknown error')] *)
Definition normalizeError (t : Thrown) : Error :=
  match t with
  | ThrownError e => e
  | ThrownValue _ => {| message := "Unknown error" |}
  end.

(** [arr[i]] for an integer [i]: [undefined] out of range. *)
Definition at_index {A : Type} (arr : list A) (i : Z) : option A :=
  if (i <? 0)%Z then None else nth_error arr (Z.to_nat i).

End JS.
Import JS.

(* ===================================================================== *)
(** ** JavaScript numbers that measure pixels *)
(* ===================================================================== *)

Module Number.

(** The operations the hooks apply to heights, offsets and extents. *)
Class Arithmetic (number : Type) := {
  zero : number;                          (* 0 *)
  two : number;                           (* 2 *)
  add : number -> number -> number;       (* x + y *)
  sub : number -> number -> number;       (* x - y *)
  div : number -> number -> number;       (* x / y *)
  max : number -> number -> number;       (* Math.max(x, y) *)
  ltb : number -> number -> bool;         (* x < y *)
  eqb : number -> number -> bool          (* x === y *)
}.

(** [x < y] on rationals. *)
Definition Qltb (x y : Q) : bool := negb (Qle_bool y x).

(** The operations without rounding, on rationals: what the hooks compute
    as long as every intermediate value is representable. *)
#[export] Instance exact : Arithmetic Q := {|
  zero := 0%Q;
  two := 2%Q;
  add := Qplus;
  sub := Qminus;
  div := Qdiv;
  max := Qmax;
  ltb := Qltb;
  eqb := Qeq_bool
|}.

(** [Math.max(x, y)] on doubles: [NaN] if either is [NaN], and [+0] rather
    than [-0]. *)
Definition Math_max (x y : PrimFloat.float) : PrimFloat.float :=
  if PrimFloat.is_nan x || PrimFloat.is_nan y then PrimFloat.nan
  else if PrimFloat.ltb x y then y
  else if PrimFloat.ltb y x then x
  else if PrimFloat.get_sign x then y else x.

(** The operations of the engine: IEEE 754 binary64, rounding to nearest. *)
#[export] Instance double : Arithmetic PrimFloat.float := {|
  zero := PrimFloat.zero;
  two := PrimFloat.two;
  add := PrimFloat.add;
  sub := PrimFloat.sub;
  div := PrimFloat.div;
  max := Math_max;
  ltb := PrimFloat.ltb;
  eqb := PrimFloat.eqb
|}.

End Number.
Import Number.

(* ===================================================================== *)
(** ** useInfiniteList: the pagination fetch controller *)
(* ===================================================================== *)

Module LoadResult.
Record t := { itemsCount : nat; hasMore : bool }.
End LoadResult.

Module InfiniteList.

Section Controller.

Context {TData TItem : Type}.

(** [PaginationType]; an absent optional field is [None]
    ([initialCursor] absent is [Undefined]). *)
Inductive PaginationType :=
| PagePagination (initialPage : option Z) (limit : option Z)
| CursorPagination (initialCursor : Cursor) (limit : option Z).

Inductive FetcherParams :=
| PageFetcherParams (page : Z) (limit : Z)
| CursorFetcherParams (cursor : Cursor) (limit : Z).

(** The options of the hook.  [fetcher] is asynchronous and lives in the
    environment (see [fetchData_start] and [fetchData_settle]); [onSuccess]
    and [onError] are absent or functions that return or throw, and their
    invocations are recorded in [calls]. *)
Record UseInfiniteListOptions := {
  pagination : PaginationType;
  getData : TData -> completion (list TItem);
  getTotal : option (TData -> completion Z);
  getNextCursor : option (TData -> completion Cursor);
  hasMoreFn : option (TData -> list TItem -> completion bool);
  onSuccess : option (TData -> list TItem -> completion unit);
  onError : option (Error -> completion unit)
}.

Inductive Call :=
| OnSuccess (response : TData) (allItems : list TItem)
| OnError (e : Error).

(** React state ([items] .. [hasMore]), refs ([pageRef] .. [hasMoreRef])
    and the callback invocations made so far, oldest first. *)
Record State := {
  items : list TItem;
  isLoading : bool;
  isLoadingMore : bool;
  error : option Error;
  hasMore : bool;
  pageRef : Z;
  cursorRef : Cursor;
  totalRef : option Z;
  isFetchingRef : bool;
  isInitializedRef : bool;
  itemsRef : list TItem;
  hasMoreRef : bool;
  calls : list Call
}.

Definition setItems v (s : State) : State :=
  {| items := v; isLoading := isLoading s; isLoadingMore := isLoadingMore s;
     error := error s; hasMore := hasMore s; pageRef := pageRef s;
     cursorRef := cursorRef s; totalRef := totalRef s;
     isFetchingRef := isFetchingRef s; isInitializedRef := isInitializedRef s;
     itemsRef := itemsRef s; hasMoreRef := hasMoreRef s; calls := calls s |}.

Definition setIsLoading v (s : State) : State :=
  {| items := items s; isLoading := v; isLoadingMore := isLoadingMore s;
     error := error s; hasMore := hasMore s; pageRef := pageRef s;
     cursorRef := cursorRef s; totalRef := totalRef s;
     isFetchingRef := isFetchingRef s; isInitializedRef := isInitializedRef s;
     itemsRef := itemsRef s; hasMoreRef := hasMoreRef s; calls := calls s |}.

Definition setIsLoadingMore v (s : State) : State :=
  {| items := items s; isLoading := isLoading s; isLoadingMore := v;
     error := error s; hasMore := hasMore s; pageRef := pageRef s;
     cursorRef := cursorRef s; totalRef := totalRef s;
     isFetchingRef := isFetchingRef s; isInitializedRef := isInitializedRef s;
     itemsRef := itemsRef s; hasMoreRef := hasMoreRef s; calls := calls s |}.

Definition setError v (s : State) : State :=
  {| items := items s; isLoading := isLoading s; isLoadingMore := isLoadingMore s;
     error := v; hasMore := hasMore s; pageRef := pageRef s;
     cursorRef := cursorRef s; totalRef := totalRef s;
     isFetchingRef := isFetchingRef s; isInitializedRef := isInitializedRef s;
     itemsRef := itemsRef s; hasMoreRef := hasMoreRef s; calls := calls s |}.

Definition setHasMore v (s : State) : State :=
  {| items := items s; isLoading := isLoading s; isLoadingMore := isLoadingMore s;
     error := error s; hasMore := v; pageRef := pageRef s;
     cursorRef := cursorRef s; totalRef := totalRef s;
     isFetchingRef := isFetchingRef s; isInitializedRef := isInitializedRef s;
     itemsRef := itemsRef s; hasMoreRef := hasMoreRef s; calls := calls s |}.

Definition set_pageRef v (s : State) : State :=
  {| items := items s; isLoading := isLoading s; isLoadingMore := isLoadingMore s;
     error := error s; hasMore := hasMore s; pageRef := v;
     cursorRef := cursorRef s; totalRef := totalRef s;
     isFetchingRef := isFetchingRef s; isInitializedRef := isInitializedRef s;
     itemsRef := itemsRef s; hasMoreRef := hasMoreRef s; calls := calls s |}.

Definition set_cursorRef v (s : State) : State :=
  {| items := items s; isLoading := isLoading s; isLoadingMore := isLoadingMore s;
     error := error s; hasMore := hasMore s; pageRef := pageRef s;
     cursorRef := v; totalRef := totalRef s;
     isFetchingRef := isFetchingRef s; isInitializedRef := isInitializedRef s;
     itemsRef := itemsRef s; hasMoreRef := hasMoreRef s; calls := calls s |}.

Definition set_totalRef v (s : State) : State :=
  {| items := items s; isLoading := isLoading s; isLoadingMore := isLoadingMore s;
     error := error s; hasMore := hasMore s; pageRef := pageRef s;
     cursorRef := cursorRef s; totalRef := v;
     isFetchingRef := isFetchingRef s; isInitializedRef := isInitializedRef s;
     itemsRef := itemsRef s; hasMoreRef := hasMoreRef s; calls := calls s |}.

Definition set_isFetchingRef v (s : State) : State :=
  {| items := items s; isLoading := isLoading s; isLoadingMore := isLoadingMore s;
     error := error s; hasMore := hasMore s; pageRef := pageRef s;
     cursorRef := cursorRef s; totalRef := totalRef s;
     isFetchingRef := v; isInitializedRef := isInitializedRef s;
     itemsRef := itemsRef s; hasMoreRef := hasMoreRef s; calls := calls s |}.

Definition set_isInitializedRef v (s : State) : State :=
  {| items := items s; isLoading := isLoading s; isLoadingMore := isLoadingMore s;
     error := error s; hasMore := hasMore s; pageRef := pageRef s;
     cursorRef := cursorRef s; totalRef := totalRef s;
     isFetchingRef := isFetchingRef s; isInitializedRef := v;
     itemsRef := itemsRef s; hasMoreRef := hasMoreRef s; calls := calls s |}.

Definition set_itemsRef v (s : State) : State :=
  {| items := items s; isLoading := isLoading s; isLoadingMore := isLoadingMore s;
     error := error s; hasMore := hasMore s; pageRef := pageRef s;
     cursorRef := cursorRef s; totalRef := totalRef s;
     isFetchingRef := isFetchingRef s; isInitializedRef := isInitializedRef s;
     itemsRef := v; hasMoreRef := hasMoreRef s; calls := calls s |}.

Definition set_hasMoreRef v (s : State) : State :=
  {| items := items s; isLoading := isLoading s; isLoadingMore := isLoadingMore s;
     error := error s; hasMore := hasMore s; pageRef := pageRef s;
     cursorRef := cursorRef s; totalRef := totalRef s;
     isFetchingRef := isFetchingRef s; isInitializedRef := isInitializedRef s;
     itemsRef := itemsRef s; hasMoreRef := v; calls := calls s |}.

Definition record_call (c : Call) (s : State) : State :=
  {| items := items s; isLoading := isLoading s; isLoadingMore := isLoadingMore s;
     error := error s; hasMore := hasMore s; pageRef := pageRef s;
     cursorRef := cursorRef s; totalRef := totalRef s;
     isFetchingRef := isFetchingRef s; isInitializedRef := isInitializedRef s;
     itemsRef := itemsRef s; hasMoreRef := hasMoreRef s;
     calls := calls s ++ [c] |}.

(** *** Statements that read and write the instance and may throw *)

Definition M (A : Type) : Type := State -> State * completion A.

Definition ret {A} (a : A) : M A := fun s => (s, Normal a).

Definition bind {A B} (m : M A) (k : A -> M B) : M B :=
  fun s =>
    match m s with
    | (s', Normal a) => k a s'
    | (s', Throw t) => (s', Throw t)
    end.

(** Calling a caller-supplied function. *)
Definition call {A} (c : completion A) : M A := fun s => (s, c).

Definition get : M State := fun s => (s, Normal s).

Definition modify (f : State -> State) : M unit := fun s => (f s, Normal tt).

Notation "x <- m ;; k" := (bind m (fun x => k))
  (at level 61, m at next level, right associativity).
Notation "m ;; k" := (bind m (fun _ => k))
  (at level 61, right associativity).

(** *** The hook body *)

Variable options : UseInfiniteListOptions.

Definition isPagePagination : bool :=
  match pagination options with
  | PagePagination _ _ => true
  | CursorPagination _ _ => false
  end.

(** [pagination.limit ?? 20] *)
Definition limit : Z :=
  match pagination options with
  | PagePagination _ (Some l) | CursorPagination _ (Some l) => l
  | _ => 20
  end.

(** [isPagePagination ? (pagination.initialPage ?? 1) : 1] *)
Definition initialPageRef : Z :=
  match pagination options with
  | PagePagination (Some p) _ => p
  | _ => 1
  end.

(** [!isPagePagination ? (pagination.initialCursor ?? null) : null] *)
Definition initialCursorRef : Cursor :=
  match pagination options with
  | CursorPagination c _ => orNull c
  | PagePagination _ _ => Null
  end.

(** The instance as the first render creates it. *)
Definition initialState : State :=
  {| items := []; isLoading := false; isLoadingMore := false; error := None;
     hasMore := true; pageRef := initialPageRef; cursorRef := initialCursorRef;
     totalRef := None; isFetchingRef := false; isInitializedRef := false;
     itemsRef := []; hasMoreRef := true; calls := [] |}.

Definition checkHasMore (response : TData) (allItems : list TItem) : M bool :=
  match hasMoreFn options with
  | Some hasMoreFn => call (hasMoreFn response allItems)
  | None =>
    match isPagePagination, getNextCursor options with
    | false, Some getNextCursor =>
      nextCursor <- call (getNextCursor response) ;;
      ret (notNullish nextCursor)
    | _, _ =>
      match isPagePagination, getTotal options with
      | true, Some getTotal =>
        total <- call (getTotal response) ;;
        modify (set_totalRef (Some total)) ;;
        ret (Z.of_nat (length allItems) <? total)%Z
      | _, _ =>
        newItems <- call (getData options response) ;;
        ret (limit <=? Z.of_nat (length newItems))%Z
      end
    end
  end.

(** [{ itemsCount: itemsRef.current.length, hasMore: hasMoreRef.current }] *)
Definition snapshot (s : State) : LoadResult.t :=
  {| LoadResult.itemsCount := length (itemsRef s);
     LoadResult.hasMore := hasMoreRef s |}.

(** [fetchData] up to [await fetcher(params)]: it returns early, or it has
    sent [params] to the fetcher and waits. *)
Inductive Started :=
| Returned (r : LoadResult.t)
| Awaiting (params : FetcherParams) (s : State).

Definition fetchData_start (isLoadMore : bool) (s : State) : Started :=
  if isFetchingRef s then Returned (snapshot s)
  else if isLoadMore && negb (hasMoreRef s) then
    Returned {| LoadResult.itemsCount := length (itemsRef s);
                LoadResult.hasMore := false |}
  else
    let s := set_isFetchingRef true s in
    let s := if isLoadMore then setIsLoadingMore true s else setIsLoading true s in
    let s := setError None s in
    let params :=
      if isPagePagination then PageFetcherParams (pageRef s) limit
      else CursorFetcherParams (cursorRef s) limit in
    Awaiting params s.

(** The rest of the [try] block, once the fetcher's promise has settled. *)
Definition fetchData_try (isLoadMore : bool) (settled : completion TData)
  : M LoadResult.t :=
  response <- call settled ;;
  newItems <- call (getData options response) ;;
  s <- get ;;
  let allItems := if isLoadMore then itemsRef s ++ newItems else newItems in
  modify (setItems allItems) ;;
  modify (set_itemsRef allItems) ;;
  (if isPagePagination then modify (fun s => set_pageRef (pageRef s + 1)%Z s)
   else match getNextCursor options with
        | Some getNextCursor =>
          nextCursor <- call (getNextCursor response) ;;
          modify (set_cursorRef nextCursor)
        | None => ret tt
        end) ;;
  moreAvailable <- checkHasMore response allItems ;;
  modify (setHasMore moreAvailable) ;;
  modify (set_hasMoreRef moreAvailable) ;;
  match onSuccess options with
  | Some onSuccess =>
    modify (record_call (OnSuccess response allItems)) ;;
    call (onSuccess response allItems)
  | None => ret tt
  end ;;
  ret {| LoadResult.itemsCount := length allItems;
         LoadResult.hasMore := moreAvailable |}.

(** The [catch] block; what [onError] throws leaves it. *)
Definition fetchData_catch (err : Thrown) : M LoadResult.t :=
  let error := normalizeError err in
  modify (setError (Some error)) ;;
  match onError options with
  | Some onError =>
    modify (record_call (OnError error)) ;;
    call (onError error)
  | None => ret tt
  end ;;
  s <- get ;;
  ret (snapshot s).

(** The [finally] block. *)
Definition fetchData_finally (s : State) : State :=
  set_isFetchingRef false (setIsLoadingMore false (setIsLoading false s)).

(** [fetchData] from the moment the fetcher's promise settles: the state it
    leaves, and the snapshot its promise resolves with or what it rejects
    with. *)
Definition fetchData_settle (isLoadMore : bool) (settled : completion TData)
  (s : State) : State * completion LoadResult.t :=
  let (s, outcome) :=
    match fetchData_try isLoadMore settled s with
    | (s, Normal result) => (s, Normal result)
    | (s, Throw err) => fetchData_catch err s
    end in
  (fetchData_finally s, outcome).

(** [loadMore]; [isLoadingMore] and [isLoading] are the flags of the render
    whose closure is being called. *)
Definition loadMore (isLoadingMore isLoading : bool) (s : State) : Started :=
  if negb (hasMoreRef s) || isLoadingMore || isLoading then Returned (snapshot s)
  else fetchData_start true s.

Definition reset (s : State) : State :=
  {| items := []; isLoading := false; isLoadingMore := false; error := None;
     hasMore := true; pageRef := initialPageRef; cursorRef := initialCursorRef;
     totalRef := None; isFetchingRef := false; isInitializedRef := false;
     itemsRef := []; hasMoreRef := true; calls := calls s |}.

(** The initial-fetch effect, run with the current [enabled]: the state it
    leaves and the request it sent, if any. *)
Definition initialFetchEffect (enabled : bool) (s : State)
  : State * option FetcherParams :=
  if enabled && negb (isInitializedRef s) then
    let s := set_isInitializedRef true s in
    match fetchData_start false s with
    | Returned _ => (s, None)
    | Awaiting params s => (s, Some params)
    end
  else (s, None).

(** *** A caller that waits: every request is answered before anything else
    touches the instance

    [fetcher k params] is the outcome of the request made with [params] after
    [k] earlier requests (a fetcher need not answer equal requests equally). *)

Variable fetcher : nat -> FetcherParams -> completion TData.

(** The instance, and the requests the fetcher has received, oldest first. *)
Record Run := { state : State; requests : list FetcherParams }.

(** [await fetchData(isLoadMore)] *)
Definition fetchData (isLoadMore : bool) (r : Run) : Run * completion LoadResult.t :=
  match fetchData_start isLoadMore (state r) with
  | Returned result => (r, Normal result)
  | Awaiting params s =>
    let (s, outcome) :=
      fetchData_settle isLoadMore (fetcher (length (requests r)) params) s in
    ({| state := s; requests := requests r ++ [params] |}, outcome)
  end.

(** One pass through the body of the loop of [loadUntilCount]: the value of
    [attempts] and the run when the loop condition was found true, and what
    [await fetchData(true)] gave.  The list of passes is a record of the
    execution; nothing reads it. *)
Record Iteration := {
  attempts : Z;
  entered : Run;
  returned : completion LoadResult.t
}.

(** [itemsRef.current.length < targetCount && hasMoreRef.current
     && attempts < maxAttempts] *)
Definition loop_condition (targetCount maxAttempts attempts : Z) (s : State) : bool :=
  (Z.of_nat (length (itemsRef s)) <? targetCount)%Z
  && hasMoreRef s
  && (attempts <? maxAttempts)%Z.

(** The loop of [loadUntilCount]: the run it leaves, its passes, and whether
    it ran to its end or was left by what an [await] threw. *)
Equations? loadUntilCount_loop (targetCount maxAttempts attempts : Z) (r : Run)
  : Run * list Iteration * completion unit
  by wf (Z.to_nat (maxAttempts - attempts)) lt :=
  loadUntilCount_loop targetCount maxAttempts attempts r
    with inspect (loop_condition targetCount maxAttempts attempts (state r)) => {
    | exist _ false _ => (r, [], Normal tt)
    | exist _ true Hcond with fetchData true r => {
      | (r', Throw thrown) =>
        (r', [{| attempts := attempts; entered := r; returned := Throw thrown |}],
         Throw thrown)
      | (r', Normal result) with LoadResult.hasMore result => {
        | false =>
          (r', [{| attempts := attempts; entered := r; returned := Normal result |}],
           Normal tt)
        | true =>
          let rest := loadUntilCount_loop targetCount maxAttempts (attempts + 1) r' in
          (fst (fst rest),
           {| attempts := attempts; entered := r; returned := Normal result |}
           :: snd (fst rest),
           snd rest)
        } } }.
Proof.
  unfold loop_condition in Hcond.
  apply andb_true_iff in Hcond as [_ Hlt]. apply Z.ltb_lt in Hlt. lia.
Qed.

(** [loadUntilCount(targetCount, maxAttempts)]: the run it leaves, the passes
    through its loop, and the snapshot it returns or what it rejects with. *)
Definition loadUntilCount (targetCount maxAttempts : Z) (r : Run)
  : Run * list Iteration * completion LoadResult.t :=
  let '(r', passes, completed) := loadUntilCount_loop targetCount maxAttempts 0 r in
  (r', passes,
   match completed with
   | Normal _ => Normal (snapshot (state r'))
   | Throw thrown => Throw thrown
   end).

(** *** Callers that do not wait: requests outstanding while other calls run

    A request is identified by its position in [sent]; [inFlight] lists the
    requests whose promise has not settled. *)

Inductive Origin :=
| FromEffect
| FromLoadMore
| FromLoadUntilCount
| FromRefresh.

Record Request := {
  origin : Origin;
  isLoadMore : bool;
  params : FetcherParams
}.

Record World := {
  instance : State;
  sent : list Request;
  inFlight : list nat
}.

Definition initialWorld : World :=
  {| instance := initialState; sent := []; inFlight := [] |}.

Definition with_instance (s : State) (w : World) : World :=
  {| instance := s; sent := sent w; inFlight := inFlight w |}.

Definition send (o : Origin) (isLoadMore : bool) (params : FetcherParams)
  (s : State) (w : World) : World :=
  {| instance := s;
     sent := sent w ++ [{| origin := o; isLoadMore := isLoadMore; params := params |}];
     inFlight := inFlight w ++ [length (sent w)] |}.

Definition started (o : Origin) (isLoadMore : bool) (st : Started) (w : World)
  : World :=
  match st with
  | Returned _ => w
  | Awaiting params s => send o isLoadMore params s w
  end.

(** What can happen to an instance:
    - the initial-fetch effect runs (on mount, or because [enabled] or
      [fetchData] changed identity);
    - [loadMore()] is called through the closure of some render;
    - the loop of a [loadUntilCount] call reaches [fetchData(true)];
    - [reset()] is called, on its own or as the first statement of [refresh];
    - the timer of a [refresh] fires and it reaches [fetchData(false)];
    - the promise of request [id] settles. *)
Inductive Event :=
| EvEffect (enabled : bool)
| EvLoadMore (isLoadingMore isLoading : bool)
| EvLoadUntilCountFetch
| EvReset
| EvRefreshFetch
| EvSettle (id : nat) (settled : completion TData).

Definition step (w : World) (e : Event) : World :=
  match e with
  | EvEffect enabled =>
    match initialFetchEffect enabled (instance w) with
    | (s, Some params) => send FromEffect false params s w
    | (s, None) => with_instance s w
    end
  | EvLoadMore isLoadingMore isLoading =>
    started FromLoadMore true (loadMore isLoadingMore isLoading (instance w)) w
  | EvLoadUntilCountFetch =>
    started FromLoadUntilCount true (fetchData_start true (instance w)) w
  | EvReset => with_instance (reset (instance w)) w
  | EvRefreshFetch =>
    started FromRefresh false (fetchData_start false (instance w)) w
  | EvSettle id settled =>
    if existsb (Nat.eqb id) (inFlight w) then
      match nth_error (sent w) id with
      | Some request =>
        {| instance :=
             fst (fetchData_settle (isLoadMore request) settled (instance w));
           sent := sent w;
           inFlight := remove Nat.eq_dec id (inFlight w) |}
      | None => w
      end
    else w
  end.

Definition run (w : World) (trace : list Event) : World :=
  fold_left step trace w.

(** [reset] (hence [refresh]) is only ever called while no request is
    outstanding. *)
Fixpoint resets_when_idle (w : World) (trace : list Event) : Prop :=
  match trace with
  | [] => True
  | e :: trace =>
    (e = EvReset -> inFlight w = []) /\ resets_when_idle (step w e) trace
  end.

(** The requests the initial-fetch effect has sent. *)
Definition automatic (w : World) : list Request :=
  filter (fun request =>
            match origin request with FromEffect => true | _ => false end)
         (sent w).

End Controller.

Arguments UseInfiniteListOptions : clear implicits.
Arguments State : clear implicits.
Arguments Call : clear implicits.
Arguments M : clear implicits.
Arguments Run : clear implicits.
Arguments Iteration : clear implicits.
Arguments World : clear implicits.
Arguments Event : clear implicits.

End InfiniteList.

(* ===================================================================== *)
(** ** useVirtualList: the position index and the render window *)
(* ===================================================================== *)

Module PositionEntry.
Record t (number : Type) := { start : number; end_ : number; size : number }.
Arguments start {number} t.
Arguments end_ {number} t.
Arguments size {number} t.
End PositionEntry.

Module VirtualItem.
Record t (number : Type) :=
  { index : Z; start : number; end_ : number; size : number }.
Arguments index {number} t.
Arguments start {number} t.
Arguments end_ {number} t.
Arguments size {number} t.
End VirtualItem.

Module VirtualList.

(** [itemHeight: number | ((index: number) => number)] *)
Inductive ItemHeight (number : Type) :=
| Fixed (height : number)
| PerIndex (height : nat -> number).

Inductive Align :=
| AlignStart
| AlignCenter
| AlignEnd.

(** The element behind [containerRef], by the one measurement
    [scrollToIndex] takes of it: [getBoundingClientRect().top]. *)
Record Container (number : Type) := { rect_top : number }.

(** What [scrollToIndex] does when it does anything. *)
Inductive Scroll (number : Type) :=
| SetScrollTop (value : number)   (* container.scrollTop = value *)
| WindowScrollTo (top : number).  (* window.scrollTo({ top, behavior: 'smooth' }) *)

(** How a binary search leaves its loop: by [return mid], or by falling out
    of it ([low > high], or [break]) with the current [low]. *)
Inductive Search :=
| Found (mid : Z)
| Exhausted (low : Z).

Section Hook.

Context {TItem : Type}.

(** The numbers of the hook and their arithmetic. *)
Context {number : Type} {arithmetic : Arithmetic number}.

(** Options of the hook. *)
Variable items : list TItem.
Variable itemHeight : ItemHeight number.
Variable overscan : Z.
Variable useWindowScroll : bool.

(** React state of the hook. *)
Variable scrollTop : number.
Variable containerHeight : number.

Definition getItemHeight (index : nat) : number :=
  match itemHeight with
  | Fixed height => height
  | PerIndex height => height index
  end.

(** The loop that builds the positions: [todo] passes are left, the next
    one is for index [i]. *)
Fixpoint positions_loop (todo i : nat) (currentOffset : number)
  (positions : list (PositionEntry.t number))
  : number * list (PositionEntry.t number) :=
  match todo with
  | O => (currentOffset, positions)
  | S todo =>
    let height := getItemHeight i in
    positions_loop todo (S i) (add currentOffset height)
      (positions ++ [{| PositionEntry.start := currentOffset;
                        PositionEntry.end_ := add currentOffset height;
                        PositionEntry.size := height |}])
  end.

Definition totalHeight : number :=
  fst (positions_loop (length items) 0 zero []).

Definition itemPositions : list (PositionEntry.t number) :=
  snd (positions_loop (length items) 0 zero []).

Equations? findStartIndex_loop (positions : list (PositionEntry.t number))
  (scrollTop : number) (low high : Z) : Search by wf (Z.to_nat (high - low + 1)) lt :=
  findStartIndex_loop positions scrollTop low high with Z_le_dec low high => {
    | right _ => Exhausted low
    | left _ with at_index positions ((low + high) / 2) => {
      | None => Exhausted low
      | Some pos with ltb (PositionEntry.end_ pos) scrollTop => {
        | true =>
          findStartIndex_loop positions scrollTop ((low + high) / 2 + 1) high
        | false with ltb scrollTop (PositionEntry.start pos) => {
          | true =>
            findStartIndex_loop positions scrollTop low ((low + high) / 2 - 1)
          | false => Found ((low + high) / 2) } } } }.
Proof.
  all: assert (low <= (low + high) / 2 <= high)%Z
    by (split; [apply Z.div_le_lower_bound | apply Z.div_le_upper_bound]; lia);
    lia.
Qed.

Definition findStartIndex (scrollTop : number) : Z :=
  match findStartIndex_loop itemPositions scrollTop 0
          (Z.of_nat (length itemPositions) - 1) with
  | Found mid => mid
  | Exhausted low => Z.max 0 low
  end.

Equations? findEndIndex_loop (positions : list (PositionEntry.t number))
  (targetEnd : number) (low high : Z) : Search by wf (Z.to_nat (high - low + 1)) lt :=
  findEndIndex_loop positions targetEnd low high with Z_le_dec low high => {
    | right _ => Exhausted low
    | left _ with at_index positions ((low + high) / 2) => {
      | None => Exhausted low
      | Some pos with ltb targetEnd (PositionEntry.start pos) => {
        | true =>
          findEndIndex_loop positions targetEnd low ((low + high) / 2 - 1)
        | false with ltb (PositionEntry.end_ pos) targetEnd => {
          | true =>
            findEndIndex_loop positions targetEnd ((low + high) / 2 + 1) high
          | false => Found ((low + high) / 2) } } } }.
Proof.
  all: assert (low <= (low + high) / 2 <= high)%Z
    by (split; [apply Z.div_le_lower_bound | apply Z.div_le_upper_bound]; lia);
    lia.
Qed.

Definition findEndIndex (scrollTop containerHeight : number) : Z :=
  let targetEnd := add scrollTop containerHeight in
  match findEndIndex_loop itemPositions targetEnd 0
          (Z.of_nat (length itemPositions) - 1) with
  | Found mid => mid
  | Exhausted low => Z.min (Z.of_nat (length itemPositions) - 1) low
  end.

(** [for (let i = ...; i <= endIndex; i++)] with [todo] passes left. *)
Fixpoint window_loop (todo : nat) (i : Z) (result : list (VirtualItem.t number))
  : list (VirtualItem.t number) :=
  match todo with
  | O => result
  | S todo =>
    window_loop todo (i + 1)
      match at_index itemPositions i with
      | Some pos =>
        result ++ [{| VirtualItem.index := i;
                      VirtualItem.start := PositionEntry.start pos;
                      VirtualItem.end_ := PositionEntry.end_ pos;
                      VirtualItem.size := PositionEntry.size pos |}]
      | None => result
      end
  end.

Definition virtualItems : list (VirtualItem.t number) :=
  if (length items =? 0)%nat || eqb containerHeight zero then []
  else
    let startIndex := Z.max 0 (findStartIndex scrollTop - overscan) in
    let endIndex :=
      Z.min (Z.of_nat (length items) - 1)
            (findEndIndex scrollTop containerHeight + overscan) in
    window_loop (Z.to_nat (endIndex - startIndex + 1)) startIndex [].

(** [scrollToIndex(index, align)] with [containerRef.current] and
    [window.scrollY] as they are at the call; [None] when it returns without
    scrolling. *)
Definition scrollToIndex (container : option (Container number))
  (scrollY : number) (index : Z) (align : Align) : option (Scroll number) :=
  match container with
  | None => None
  | Some container =>
    if (index <? 0)%Z || (Z.of_nat (length items) <=? index)%Z then None
    else
      match at_index itemPositions index with
      | None => None
      | Some pos =>
        let targetScrollTop :=
          match align with
          | AlignStart => PositionEntry.start pos
          | AlignCenter =>
            add (sub (PositionEntry.start pos) (div containerHeight two))
                (div (PositionEntry.size pos) two)
          | AlignEnd => sub (PositionEntry.end_ pos) containerHeight
          end in
        if useWindowScroll then
          let containerTop := add scrollY (rect_top container) in
          Some (WindowScrollTo (add containerTop (max zero targetScrollTop)))
        else Some (SetScrollTop (max zero targetScrollTop))
      end
  end.

End Hook.

End VirtualList.

(* ===================================================================== *)
(** ** Vocabulary for the pagination fetch controller *)
(* ===================================================================== *)

Module InfiniteListSpec.
Import InfiniteList.

(** The four ways [hasMore] is decided, in the order of the specification. *)
Inductive Rule :=
| CustomPredicate
| NextCursor
| TotalCount
| FullPage.

Definition is_some {A} (o : option A) : bool :=
  match o with Some _ => true | None => false end.

(** [f] applied to the value of a call that returned. *)
Definition on_value {A B} (f : A -> B) (c : completion A) : completion B :=
  match c with
  | Normal a => Normal (f a)
  | Throw t => Throw t
  end.

Section Rules.

Context {TData TItem : Type}.
Variable options : UseInfiniteListOptions TData TItem.

(** When a rule applies, in the words of the specification. *)
Definition applicable (r : Rule) : bool :=
  match r with
  | CustomPredicate => is_some (hasMoreFn options)
  | NextCursor => negb (isPagePagination options) && is_some (getNextCursor options)
  | TotalCount => isPagePagination options && is_some (getTotal options)
  | FullPage => true
  end.

(** The place of a rule in the order of priority. *)
Definition rank (r : Rule) : nat :=
  match r with
  | CustomPredicate => 1
  | NextCursor => 2
  | TotalCount => 3
  | FullPage => 4
  end.

(** [r] is the first rule that applies. *)
Definition decides (r : Rule) : Prop :=
  applicable r = true
  /\ forall r', (rank r' < rank r)%nat -> applicable r' = false.

(** What a rule makes of a response, in the words of the specification. *)
Inductive verdict (response : TData) (allItems : list TItem)
  : Rule -> completion bool -> Prop :=
| by_predicate predicate :
    hasMoreFn options = Some predicate ->
    verdict response allItems CustomPredicate (predicate response allItems)
| by_next_cursor extractor :
    getNextCursor options = Some extractor ->
    verdict response allItems NextCursor
            (on_value (fun nextCursor =>
                         match nextCursor with
                         | Null | Undefined => false
                         | Str _ => true
                         end)
                      (extractor response))
| by_total extractor :
    getTotal options = Some extractor ->
    verdict response allItems TotalCount
            (on_value (fun total => (Z.of_nat (length allItems) <? total)%Z)
                      (extractor response))
| by_full_page :
    verdict response allItems FullPage
            (on_value (fun newItems =>
                         (Z.of_nat (length newItems) >=? limit options)%Z)
                      (getData options response)).

(** [checkHasMore] writes nothing but [totalRef]. *)
Definition same_but_totalRef (s s' : State TData TItem) : Prop :=
  s' = set_totalRef (totalRef s') s.

End Rules.

Section Waiting.

Context {TData TItem : Type}.
Variable options : UseInfiniteListOptions TData TItem.
Variable fetcher : nat -> FetcherParams -> completion TData.

(** The request a pass through the loop sent, if it sent one. *)
Definition pass_request (p : Iteration TData TItem) : list FetcherParams :=
  match fetchData_start options true (state (entered p)) with
  | Awaiting request _ => [request]
  | Returned _ => []
  end.

(** The loop is left after a pass whose fetch reports [hasMore = false], or
    throws. *)
Definition ends_loop (outcome : completion LoadResult.t) : bool :=
  match outcome with
  | Normal result => negb (LoadResult.hasMore result)
  | Throw _ => true
  end.

(** The passes are the successive [fetchData(true)] calls made from [r],
    and leave [r']. *)
Fixpoint chained (r : Run TData TItem) (passes : list (Iteration TData TItem))
  (r' : Run TData TItem) : Prop :=
  match passes with
  | [] => r' = r
  | p :: passes =>
    entered p = r
    /\ returned p = snd (fetchData options fetcher true r)
    /\ chained (fst (fetchData options fetcher true r)) passes r'
  end.

End Waiting.

Section Interleaving.

Context {TData TItem : Type}.

(** No request is outstanding and the guard is down, or one is, the guard is
    up and the error slot is empty. *)
Definition single_flight (w : World TData TItem) : Prop :=
  (inFlight w = [] /\ isFetchingRef (instance w) = false)
  \/ (exists id,
         inFlight w = [id]
         /\ (id < length (sent w))%nat
         /\ isFetchingRef (instance w) = true
         /\ error (instance w) = None).

(** The effect has not fired and sent nothing, or it has fired and sent at
    most one request. *)
Definition initial_fetch_once (w : World TData TItem) : Prop :=
  (isInitializedRef (instance w) = false /\ automatic w = [])
  \/ (isInitializedRef (instance w) = true /\ (length (automatic w) <= 1)%nat).

End Interleaving.

(** *** Sample instances *)

(** Page mode with every default, responses that are their own item list. *)
Definition sample_pages : UseInfiniteListOptions (list nat) nat :=
  {| pagination := PagePagination None None;
     getData := fun response => Normal response;
     getTotal := None; getNextCursor := None; hasMoreFn := None;
     onSuccess := None; onError := None |}.

(** The same, with a custom predicate that always answers [true]. *)
Definition sample_always_more : UseInfiniteListOptions (list nat) nat :=
  {| pagination := PagePagination None None;
     getData := fun response => Normal response;
     getTotal := None; getNextCursor := None;
     hasMoreFn := Some (fun _ _ => Normal true);
     onSuccess := None; onError := None |}.

(** Cursor mode with a next-cursor extractor that throws. *)
Definition sample_cursor_throwing : UseInfiniteListOptions (list nat) nat :=
  {| pagination := CursorPagination Undefined None;
     getData := fun response => Normal response;
     getTotal := None;
     getNextCursor := Some (fun _ => Throw (ThrownError {| message := "no cursor" |}));
     hasMoreFn := None;
     onSuccess := None; onError := Some (fun _ => Normal tt) |}.

(** Page mode with a total extractor that throws. *)
Definition sample_total_throwing : UseInfiniteListOptions (list nat) nat :=
  {| pagination := PagePagination None None;
     getData := fun response => Normal response;
     getTotal := Some (fun _ => Throw (ThrownError {| message := "no total" |}));
     getNextCursor := None;
     hasMoreFn := None;
     onSuccess := None; onError := Some (fun _ => Normal tt) |}.

(** Cursor mode with a next-cursor extractor that gives the cursor
    ["next"], and an error callback. *)
Definition sample_cursors : UseInfiniteListOptions (list nat) nat :=
  {| pagination := CursorPagination Undefined None;
     getData := fun response => Normal response;
     getTotal := None;
     getNextCursor := Some (fun _ => Normal (Str "next"));
     hasMoreFn := None;
     onSuccess := None; onError := Some (fun _ => Normal tt) |}.

(** Page mode with a success callback that throws. *)
Definition sample_success_throwing : UseInfiniteListOptions (list nat) nat :=
  {| pagination := PagePagination None None;
     getData := fun response => Normal response;
     getTotal := None; getNextCursor := None; hasMoreFn := None;
     onSuccess := Some (fun _ _ => Throw (ThrownValue "render failed"));
     onError := Some (fun _ => Normal tt) |}.

(** A fetcher that answers the first two requests with twenty items and
    every later one with five. *)
Definition two_pages_and_five (k : nat) (request : FetcherParams)
  : completion (list nat) :=
  Normal (repeat k (if (k <? 2)%nat then 20 else 5)%nat).

(** A fetcher that answers every request with twenty items. *)
Definition twenty_each (k : nat) (request : FetcherParams) : completion (list nat) :=
  Normal (repeat k 20).

End InfiniteListSpec.

(* ===================================================================== *)
(** ** Vocabulary for the position index and the render window *)
(* ===================================================================== *)

Module VirtualListSpec.
Import VirtualList.
Local Open Scope Q_scope.

Section Offsets.

Context {number : Type} {arithmetic : Arithmetic number}.
Variable itemHeight : ItemHeight number.

(** The value of [currentOffset] after [n] passes of the loop. *)
Definition offset (n : nat) : number :=
  fst (positions_loop itemHeight n 0 zero []).

Definition entry (i : nat) : PositionEntry.t number :=
  {| PositionEntry.start := offset i;
     PositionEntry.end_ := add (offset i) (getItemHeight itemHeight i);
     PositionEntry.size := getItemHeight itemHeight i |}.

(** The first [n] heights added up from the left, starting from 0, one
    addition of the arithmetic per height. *)
Definition running_sum (n : nat) : number :=
  fold_left add (map (getItemHeight itemHeight) (seq 0 n)) zero.

(** The item of the window made of index [i] and its entry. *)
Definition virtualItem (i : Z) (pos : PositionEntry.t number)
  : VirtualItem.t number :=
  {| VirtualItem.index := i;
     VirtualItem.start := PositionEntry.start pos;
     VirtualItem.end_ := PositionEntry.end_ pos;
     VirtualItem.size := PositionEntry.size pos |}.

End Offsets.

(** From here on the arithmetic is exact. *)

Section Heights.

Variable itemHeight : ItemHeight Q.

(** The sum of the heights of the first [n] items. *)
Definition sum_heights (n : nat) : Q :=
  fold_right Qplus 0 (map (getItemHeight itemHeight) (seq 0 n)).

(** None of the first [count] heights is negative. *)
Definition nonnegative_heights (count : nat) : Prop :=
  forall i, (i < count)%nat -> 0 <= getItemHeight itemHeight i.

End Heights.

(** The starts and the ends of a table do not decrease. *)
Definition sorted_table (t : list (PositionEntry.t Q)) : Prop :=
  forall i j pi pj,
    (i <= j)%Z -> at_index t i = Some pi -> at_index t j = Some pj ->
    PositionEntry.start pi <= PositionEntry.start pj
    /\ PositionEntry.end_ pi <= PositionEntry.end_ pj.

(** [x] lies in the closed interval of an entry. *)
Definition contains (pos : PositionEntry.t Q) (x : Q) : Prop :=
  PositionEntry.start pos <= x /\ x <= PositionEntry.end_ pos.

(** What a search loop started on [low .. high] can end with. *)
Definition search_outcome (t : list (PositionEntry.t Q)) (x : Q) (low high : Z)
  (r : Search) : Prop :=
  match r with
  | Found mid =>
    (low <= mid <= high)%Z /\ exists pos, at_index t mid = Some pos /\ contains pos x
  | Exhausted l =>
    (low <= l <= high + 1)%Z
    /\ (forall i pos, (low <= i < l)%Z -> at_index t i = Some pos ->
                      PositionEntry.end_ pos < x)
    /\ (forall i pos, (l <= i <= high)%Z -> at_index t i = Some pos ->
                      x < PositionEntry.start pos)
  end.

(** The closed intervals [[start, end]] of an entry and [[a, b]] meet. *)
Definition overlaps (pos : PositionEntry.t Q) (a b : Q) : Prop :=
  PositionEntry.start pos <= b /\ a <= PositionEntry.end_ pos.

End VirtualListSpec.

(* ===================================================================== *)
(** ** useVirtualList: the scroll handlers *)
(* ===================================================================== *)

Module ScrollHandlers.
Import VirtualList.


(** What [handleScroll] reads of the container: [scrollTop], [scrollHeight],
    [clientHeight]. *)
Record ScrollBox (number : Type) :=
  { box_scrollTop : number; box_scrollHeight : number; box_clientHeight : number }.

(** What a handler does: the value it passes to [setScrollTop], the value it
    passes to [setContainerOffset] if it calls it, and whether it calls
    [onNearEnd]. *)
Record Handled (number : Type) := {
  scrollTop_set : number;
  containerOffset_set : option number;
  onNearEnd_called : bool
}.

Section Handlers.

Context {number : Type} {arithmetic : Arithmetic number}.

(** Whether [onNearEnd] is supplied, and [nearEndThreshold]. *)
Variable onNearEnd : bool.
Variable nearEndThreshold : number.


Definition handleScroll (box : ScrollBox number) : Handled number :=
  let newScrollTop := box_scrollTop box in
  {| scrollTop_set := newScrollTop;
     containerOffset_set := None;
     onNearEnd_called :=
       onNearEnd
       && ltb (sub (sub (box_scrollHeight box) newScrollTop) (box_clientHeight box))
              nearEndThreshold |}.

End Handlers.

End ScrollHandlers.

(* ===================================================================== *)
(** ** InfiniteList: the component that wires the two hooks together *)
(* ===================================================================== *)

Module Component.
Import InfiniteList VirtualList.

(** [arr.map((x, idx) => f(x, idx))], counting from [idx]. *)
Fixpoint map_indexed {A B : Type} (f : A -> nat -> B) (arr : list A) (idx : nat)
  : list B :=
  match arr with
  | [] => []
  | x :: arr => f x idx :: map_indexed f arr (S idx)
  end.

(** How a call of [scrollToIndexWithAutoLoad] ends: it scrolled at once (what
    [scrollToIndex] did), it was left by what [await loadUntilCount] threw,
    it warned that only [itemsCount] items are available, or it set a timer
    (what [scrollToIndex] does when the timer fires). *)
Inductive AutoLoad (number : Type) :=
| ScrolledAtOnce (scroll : option (Scroll number))
| Rejected (thrown : Thrown)
| Warned (itemsCount : nat)
| ScrollDeferred (scroll : option (Scroll number)).
Arguments Rejected {number} thrown.
Arguments Warned {number} itemsCount.

Section InfiniteListInner.

Context {TData TItem : Type}.
Context {number : Type} {arithmetic : Arithmetic number}.
Variable options : UseInfiniteListOptions TData TItem.
Variable fetcher : nat -> FetcherParams -> completion TData.

(** What the closures of one render see: the state of [useInfiniteList] as
    rendered, and the options and state of [useVirtualList]. *)
Variable items : list TItem.
Variable isLoading isLoadingMore hasMore : bool.
Variable itemHeight : ItemHeight number.
Variable useWindowScroll : bool.
Variable containerHeight : number.

(** [handleLoadMore]: what [loadMore()] did, if it was called, and whether
    [onLoadMore] was called; [onLoadMore] says whether the prop is
    supplied. *)
Definition handleLoadMore (onLoadMore : bool) (s : State TData TItem)
  : option (Started (TData := TData) (TItem := TItem)) * bool :=
  if negb isLoading && negb isLoadingMore && hasMore
  then (Some (loadMore options isLoadingMore isLoading s), onLoadMore)
  else (None, false).

(** [scrollToIndexWithAutoLoad(index, align)], with the caller of
    [loadUntilCount] waiting.  [container] and [scrollY] are
    [containerRef.current] and [window.scrollY] at the call, [container']
    and [scrollY'] when the timer fires. *)
Definition scrollToIndexWithAutoLoad (container : option (Container number))
  (scrollY : number) (container' : option (Container number)) (scrollY' : number)
  (index : Z) (align : Align) (r : Run TData TItem)
  : Run TData TItem * AutoLoad number :=
  if (index <? Z.of_nat (length items))%Z then
    (r, ScrolledAtOnce
          (scrollToIndex items itemHeight useWindowScroll containerHeight
                         container scrollY index align))
  else
    let targetCount := (index + 1)%Z in
    match loadUntilCount options fetcher targetCount 100 r with
    | (r', _, Throw thrown) => (r', Rejected thrown)
    | (r', _, Normal result) =>
      if (Z.of_nat (LoadResult.itemsCount result) <=? index)%Z then
        (r', Warned (LoadResult.itemsCount result))
      else
        (r', ScrollDeferred
               (scrollToIndex items itemHeight useWindowScroll containerHeight
                              container' scrollY' index align))
    end.

(** The calls [children(item, originalIndex)] of the render without
    virtualization, in the order of the rendered list. *)
Definition rendered (reverse : bool) : list (TItem * Z) :=
  let orderedItems := if reverse then rev items else items in
  map_indexed
    (fun item idx =>
       let originalIndex :=
         if reverse then (Z.of_nat (length items) - 1 - Z.of_nat idx)%Z
         else Z.of_nat idx in
       (item, originalIndex))
    orderedItems 0.

End InfiniteListInner.

End Component.

(* ===================================================================== *)
(** ** More vocabulary for the pagination fetch controller *)
(* ===================================================================== *)

Module ControllerSpec.
Import InfiniteList InfiniteListSpec.

Section Instance.
Context {TData TItem : Type}.

(** What is rendered agrees with the refs the async code reads. *)
Definition coherent (s : State TData TItem) : Prop :=
  items s = itemsRef s /\ hasMore s = hasMoreRef s.

(** The loading flags are down whenever the guard is, and never both up. *)
Definition flags_guarded (s : State TData TItem) : Prop :=
  (isFetchingRef s = false -> isLoading s = false /\ isLoadingMore s = false)
  /\ isLoading s && isLoadingMore s = false.

(** The guard is up exactly when one of the loading flags is. *)
Definition guard_mirrors_flags (s : State TData TItem) : Prop :=
  isFetchingRef s = isLoading s || isLoadingMore s.

(** Both, for the instance of a world. *)
Definition sound (w : World TData TItem) : Prop :=
  coherent (instance w) /\ flags_guarded (instance w).

(** The worlds some sequence of events leads to. *)
Definition reachable (options : UseInfiniteListOptions TData TItem)
  (w : World TData TItem) : Prop :=
  exists trace, w = run options (initialWorld options) trace.

(** Two instances agree on everything but the record of callback calls. *)
Definition agree_but_calls (s t : State TData TItem) : Prop :=
  items s = items t /\ isLoading s = isLoading t
  /\ isLoadingMore s = isLoadingMore t /\ error s = error t
  /\ hasMore s = hasMore t /\ pageRef s = pageRef t
  /\ cursorRef s = cursorRef t /\ totalRef s = totalRef t
  /\ isFetchingRef s = isFetchingRef t
  /\ isInitializedRef s = isInitializedRef t
  /\ itemsRef s = itemsRef t /\ hasMoreRef s = hasMoreRef t.

(** While one request is outstanding the loading flags say of which kind
    it is. *)
Definition flags_name_request (w : World TData TItem) : Prop :=
  forall id, inFlight w = [id] ->
             exists request,
               nth_error (sent w) id = Some request
               /\ isLoadingMore (instance w) = isLoadMore request
               /\ isLoading (instance w) = negb (isLoadMore request).

(** The request [fetchData] would send from a state. *)
Definition params_of (options : UseInfiniteListOptions TData TItem)
  (s : State TData TItem) : FetcherParams :=
  if isPagePagination options then PageFetcherParams (pageRef s) (limit options)
  else CursorFetcherParams (cursorRef s) (limit options).

(** The fetcher rejects every request. *)
Definition always_rejects (fetcher : nat -> FetcherParams -> completion TData)
  : Prop :=
  forall k request, exists thrown, fetcher k request = Throw thrown.

(** [onError], if there is one, returns whatever the error. *)
Definition onError_returns (options : UseInfiniteListOptions TData TItem)
  : Prop :=
  forall handler error, onError options = Some handler -> handler error = Normal tt.

(** The fetcher answers every request, and [getData] returns on every
    answer. *)
Definition always_answers (options : UseInfiniteListOptions TData TItem)
  (fetcher : nat -> FetcherParams -> completion TData) : Prop :=
  forall k request,
    exists response newItems,
      fetcher k request = Normal response
      /\ getData options response = Normal newItems.

End Instance.
End ControllerSpec.

(* ===================================================================== *)
(** ** More vocabulary for the render window *)
(* ===================================================================== *)

Module WindowSpec.
Import VirtualList VirtualListSpec.
Local Open Scope Q_scope.

(** The item of the window for index [i] of a list with heights
    [itemHeight]. *)
Definition item_at (itemHeight : ItemHeight Q) (i : nat) : VirtualItem.t Q :=
  virtualItem (Z.of_nat i) (entry itemHeight i).

(** Item [i] and the viewport [[s, s + c]] share more than a boundary
    point. *)
Definition in_view (itemHeight : ItemHeight Q) (i : nat) (s c : Q) : Prop :=
  offset itemHeight i < s + c /\ s < offset itemHeight (S i).

(** [targetScrollTop] of [scrollToIndex] for item [i], before
    [Math.max(0, _)]. *)
Definition target (itemHeight : ItemHeight Q) (containerHeight : Q) (i : nat)
  (align : Align) : Q :=
  match align with
  | AlignStart => offset itemHeight i
  | AlignCenter =>
    offset itemHeight i - containerHeight / 2 + getItemHeight itemHeight i / 2
  | AlignEnd =>
    offset itemHeight i + getItemHeight itemHeight i - containerHeight
  end.

(** As the hook compares them, [x] lies on the first entry of the table and
    above none: no entry ends before [x], and every entry but the first
    starts after it. *)
Definition lies_on_first {number : Type} {arithmetic : Arithmetic number}
  (positions : list (PositionEntry.t number)) (x : number) : Prop :=
  forall i pos,
    at_index positions i = Some pos ->
    ltb (PositionEntry.end_ pos) x = false
    /\ ltb x (PositionEntry.start pos) = negb (i =? 0)%Z.

(** As the hook compares them, [x] lies on the last entry of the table and
    below none: no entry starts after [x], and every entry but the last
    ends before it. *)
Definition lies_on_last {number : Type} {arithmetic : Arithmetic number}
  (positions : list (PositionEntry.t number)) (x : number) : Prop :=
  forall i pos,
    at_index positions i = Some pos ->
    ltb x (PositionEntry.start pos) = false
    /\ ltb (PositionEntry.end_ pos) x
       = negb (i =? Z.of_nat (length positions) - 1)%Z.


End WindowSpec.

(* ===================================================================== *)
(** ** Properties of the pagination fetch controller *)
(* ===================================================================== *)

Module InfiniteListFacts.
Import InfiniteList InfiniteListSpec.

Section Controller.

Context {TData TItem : Type}.
Variable options : UseInfiniteListOptions TData TItem.

Lemma decides_exists : exists r, decides options r.
Proof.
  unfold decides.
  destruct (applicable options CustomPredicate) eqn:E1.
  { exists CustomPredicate. split; [exact E1 |]. intros []; simpl; lia. }
  destruct (applicable options NextCursor) eqn:E2.
  { exists NextCursor. split; [exact E2 |]. intros []; simpl; auto; lia. }
  destruct (applicable options TotalCount) eqn:E3.
  { exists TotalCount. split; [exact E3 |]. intros []; simpl; auto; lia. }
  exists FullPage. split; [reflexivity |]. intros []; simpl; auto; lia.
Qed.

Lemma decides_unique (r1 r2 : Rule) :
  decides options r1 -> decides options r2 -> r1 = r2.
Proof.
  intros [A1 F1] [A2 F2].
  destruct (Nat.lt_trichotomy (rank r1) (rank r2)) as [H | [H | H]].
  - rewrite (F2 r1 H) in A1. discriminate.
  - destruct r1, r2; simpl in H; congruence.
  - rewrite (F1 r2 H) in A2. discriminate.
Qed.

Ltac run_M :=
  unfold fetchData_try, checkHasMore, bind, call, ret, get, modify in *.

Lemma checkHasMore_verdict (r : Rule) (response : TData) (allItems : list TItem)
  (s : State TData TItem) :
  decides options r ->
  verdict options response allItems r
          (snd (checkHasMore options response allItems s)).
Proof.
  intros [Ha Hfirst].
  pose proof (Hfirst CustomPredicate) as H1.
  pose proof (Hfirst NextCursor) as H2.
  pose proof (Hfirst TotalCount) as H3.
  run_M.
  destruct r; simpl in *;
    [ clear H1 H2 H3 | specialize (H1 ltac:(lia)); clear H2 H3
    | specialize (H1 ltac:(lia)); specialize (H2 ltac:(lia)); clear H3
    | specialize (H1 ltac:(lia)); specialize (H2 ltac:(lia));
      specialize (H3 ltac:(lia)) ].
  - destruct (hasMoreFn options) as [predicate |] eqn:Ep; [| discriminate].
    simpl. now constructor.
  - destruct (hasMoreFn options); [discriminate |].
    destruct (isPagePagination options); [discriminate |].
    destruct (getNextCursor options) as [extractor |] eqn:Ec; [| discriminate].
    pose proof (@by_next_cursor _ _ options response allItems _ Ec) as V.
    destruct (extractor response) as [[| |] |]; exact V.
  - destruct (hasMoreFn options); [discriminate |].
    destruct (isPagePagination options); [| discriminate].
    destruct (getTotal options) as [extractor |] eqn:Et; [| discriminate].
    pose proof (@by_total _ _ options response allItems _ Et) as V.
    destruct (getNextCursor options); destruct (extractor response); exact V.
  - destruct (hasMoreFn options); [discriminate |].
    pose proof (@by_full_page _ _ options response allItems) as V.
    destruct (isPagePagination options); simpl in *.
    + destruct (getTotal options); [discriminate |].
      destruct (getNextCursor options); destruct (getData options response);
        simpl in *; rewrite ?Z.geb_leb in V; exact V.
    + destruct (getNextCursor options); [discriminate |].
      destruct (getTotal options); destruct (getData options response);
        simpl in *; rewrite ?Z.geb_leb in V; exact V.
Qed.

Lemma checkHasMore_state (response : TData) (allItems : list TItem)
  (s : State TData TItem) :
  same_but_totalRef s (fst (checkHasMore options response allItems s)).
Proof.
  unfold same_but_totalRef. run_M.
  destruct (hasMoreFn options); simpl; [now destruct s |].
  destruct (isPagePagination options); simpl.
  - destruct (getTotal options) as [extractor |].
    + destruct (getNextCursor options); destruct (extractor response);
        simpl; now destruct s.
    + destruct (getNextCursor options); destruct (getData options response);
        simpl; now destruct s.
  - destruct (getNextCursor options) as [extractor |].
    + destruct (extractor response); simpl; now destruct s.
    + destruct (getTotal options); destruct (getData options response);
        simpl; now destruct s.
Qed.

Lemma checkHasMore_value (response : TData) (allItems : list TItem)
  (s1 s2 : State TData TItem) :
  snd (checkHasMore options response allItems s1)
  = snd (checkHasMore options response allItems s2).
Proof.
  run_M.
  repeat match goal with
         | |- context [match ?x with _ => _ end] => destruct x; simpl
         end; reflexivity.
Qed.

Ltac split_cases :=
  repeat match goal with
         | |- context [match ?x with _ => _ end] =>
           lazymatch x with
           | context [match _ with _ => _ end] => fail
           | _ => destruct x eqn:?; simpl
           end
         end.

(** The [try] block writes neither the error slot, nor the flags, nor the
    guards, whether it throws or not. *)
Lemma fetchData_try_frame (isLoadMore : bool) (settled : completion TData)
  (s : State TData TItem) :
  let s' := fst (fetchData_try options isLoadMore settled s) in
  error s' = error s
  /\ isLoading s' = isLoading s
  /\ isLoadingMore s' = isLoadingMore s
  /\ isFetchingRef s' = isFetchingRef s
  /\ isInitializedRef s' = isInitializedRef s.
Proof.
  run_M. split_cases; repeat split; reflexivity.
Qed.

(** A [try] block that runs to its [return]. *)
Lemma fetchData_try_returns (isLoadMore : bool) (settled : completion TData)
  (s s' : State TData TItem) (result : LoadResult.t) :
  fetchData_try options isLoadMore settled s = (s', Normal result) ->
  exists response newItems,
    settled = Normal response
    /\ getData options response = Normal newItems
    /\ let allItems := if isLoadMore then itemsRef s ++ newItems else newItems in
       snd (checkHasMore options response allItems s)
       = Normal (LoadResult.hasMore result)
       /\ LoadResult.itemsCount result = length allItems
       /\ items s' = allItems
       /\ itemsRef s' = allItems
       /\ hasMore s' = LoadResult.hasMore result
       /\ hasMoreRef s' = LoadResult.hasMore result.
Proof.
  unfold fetchData_try, bind, call, ret, get, modify.
  destruct settled as [response | t]; [| discriminate].
  destruct (getData options response) as [newItems | t] eqn:Eg; [| discriminate].
  intros E. exists response, newItems. split; [reflexivity |]. split; [exact Eg |].
  cbv zeta.
  remember (if isLoadMore then itemsRef s ++ newItems else newItems) as allItems.
  repeat match type of E with
         | context [match ?x with _ => _ end] =>
           lazymatch x with
           | context [match _ with _ => _ end] => fail
           | _ => destruct x eqn:?; cbv beta iota in E
           end
         end; try discriminate;
    injection E as <- <-;
    match goal with
    | Ec : checkHasMore options response allItems ?s1 = (?s2, Normal ?more) |- _ =>
      pose proof (checkHasMore_state response allItems s1) as Hst;
        pose proof (checkHasMore_value response allItems s s1) as Hv;
        rewrite Ec in Hst, Hv; simpl in Hst, Hv; rewrite Hst
    end;
    repeat split; try assumption; reflexivity.
Qed.

(** [fetchData] after the request: what the three blocks leave together. *)
Lemma fetchData_settle_returns (isLoadMore : bool) (settled : completion TData)
  (s s1 : State TData TItem) (result : LoadResult.t) :
  fetchData_try options isLoadMore settled s = (s1, Normal result) ->
  fetchData_settle options isLoadMore settled s
  = (fetchData_finally s1, Normal result).
Proof. intros E. unfold fetchData_settle. now rewrite E. Qed.

Lemma fetchData_settle_throws (isLoadMore : bool) (settled : completion TData)
  (s s1 : State TData TItem) (thrown : Thrown) :
  fetchData_try options isLoadMore settled s = (s1, Throw thrown) ->
  fetchData_settle options isLoadMore settled s
  = (fetchData_finally (fst (fetchData_catch options thrown s1)),
     snd (fetchData_catch options thrown s1)).
Proof.
  intros E. unfold fetchData_settle. rewrite E.
  now destruct (fetchData_catch options thrown s1).
Qed.

(** The [catch] block: it stores the error, calls [onError] if there is one,
    and writes nothing else; it returns the snapshot unless [onError]
    throws. *)
Lemma fetchData_catch_spec (thrown : Thrown) (s : State TData TItem) :
  let s' := fst (fetchData_catch options thrown s) in
  s' = match onError options with
       | Some _ =>
         record_call (OnError (normalizeError thrown))
                     (setError (Some (normalizeError thrown)) s)
       | None => setError (Some (normalizeError thrown)) s
       end
  /\ snd (fetchData_catch options thrown s)
     = match onError options with
       | Some handler =>
         match handler (normalizeError thrown) with
         | Normal _ => Normal (snapshot s)
         | Throw rethrown => Throw rethrown
         end
       | None => Normal (snapshot s)
       end.
Proof.
  unfold fetchData_catch, bind, call, ret, get, modify.
  destruct (onError options) as [handler |]; simpl; [| auto].
  destruct (handler (normalizeError thrown)); simpl; auto.
Qed.

Lemma fetchData_settle_flags (isLoadMore : bool) (settled : completion TData)
  (s : State TData TItem) :
  let s' := fst (fetchData_settle options isLoadMore settled s) in
  isLoading s' = false
  /\ isLoadingMore s' = false
  /\ isFetchingRef s' = false
  /\ isInitializedRef s' = isInitializedRef s.
Proof.
  pose proof (fetchData_try_frame isLoadMore settled s) as (_ & _ & _ & _ & Hi).
  destruct (fetchData_try options isLoadMore settled s) as [s1 [result | thrown]]
    eqn:E; simpl in Hi.
  - rewrite (fetchData_settle_returns _ _ _ E). simpl. auto.
  - rewrite (fetchData_settle_throws _ _ _ E). simpl.
    destruct (fetchData_catch_spec thrown s1) as [-> _].
    destruct (onError options); simpl; auto.
Qed.

(** What [fetchData] resolves with, once its request has settled, is the
    snapshot of the state it leaves. *)
Lemma fetchData_settle_resolves (isLoadMore : bool) (settled : completion TData)
  (s : State TData TItem) (result : LoadResult.t) :
  let s' := fst (fetchData_settle options isLoadMore settled s) in
  snd (fetchData_settle options isLoadMore settled s) = Normal result ->
  result = {| LoadResult.itemsCount := length (itemsRef s');
              LoadResult.hasMore := hasMoreRef s' |}.
Proof.
  destruct (fetchData_try options isLoadMore settled s) as [s1 [res | thrown]]
    eqn:E.
  - rewrite (fetchData_settle_returns _ _ _ E). simpl. intros Er.
    injection Er as <-.
    apply fetchData_try_returns in E
      as (response & newItems & _ & _ & _ & Ec & _ & Eir & _ & Ehr).
    rewrite Eir, Ehr, <- Ec. now destruct res.
  - rewrite (fetchData_settle_throws _ _ _ E). simpl.
    destruct (fetchData_catch_spec thrown s1) as [-> ->].
    destruct (onError options) as [handler |]; simpl.
    + destruct (handler (normalizeError thrown)); [| discriminate].
      intros Er. now injection Er as <-.
    + intros Er. now injection Er as <-.
Qed.

(** How a [try] block can throw, and what it has written by then. *)
Lemma fetchData_try_throws (isLoadMore : bool) (settled : completion TData)
  (s s1 : State TData TItem) (thrown : Thrown) :
  fetchData_try options isLoadMore settled s = (s1, Throw thrown) ->
  (settled = Throw thrown /\ s1 = s)
  \/ exists response,
      settled = Normal response
      /\ ((getData options response = Throw thrown /\ s1 = s)
          \/ exists newItems,
              getData options response = Normal newItems
              /\ let allItems :=
                   if isLoadMore then itemsRef s ++ newItems else newItems in
                 items s1 = allItems /\ itemsRef s1 = allItems
                 /\ ((exists extractor,
                         isPagePagination options = false
                         /\ getNextCursor options = Some extractor
                         /\ extractor response = Throw thrown)
                     \/ (exists s2,
                            snd (checkHasMore options response allItems s2)
                            = Throw thrown)
                     \/ (exists handler,
                            onSuccess options = Some handler
                            /\ handler response allItems = Throw thrown))).
Proof.
  unfold fetchData_try, bind, call, ret, get, modify. intros E.
  destruct settled as [response | t]; [| injection E as <- <-; now left].
  right. exists response. split; [reflexivity |].
  destruct (getData options response) as [newItems | t] eqn:Eg;
    [| injection E as <- <-; now left].
  right. exists newItems. split; [reflexivity |]. cbv zeta. cbv zeta in E.
  remember (if isLoadMore then itemsRef s ++ newItems else newItems) as allItems.
  assert (forall s2 s3 outcome,
             checkHasMore options response allItems s2 = (s3, outcome) ->
             items s2 = allItems -> itemsRef s2 = allItems ->
             (let (s4, c) :=
                match outcome with
                | Normal more =>
                  let (s5, c) :=
                    match onSuccess options with
                    | Some handler =>
                      (record_call (OnSuccess response allItems)
                                   (set_hasMoreRef more (setHasMore more s3)),
                       handler response allItems)
                    | None =>
                      (set_hasMoreRef more (setHasMore more s3), Normal tt)
                    end in
                  match c with
                  | Normal _ =>
                    (s5, Normal {| LoadResult.itemsCount := length allItems;
                                   LoadResult.hasMore := more |})
                  | Throw t => (s5, Throw t)
                  end
                | Throw t => (s3, Throw t)
                end in (s4, c)) = (s1, Throw thrown) ->
             items s1 = allItems /\ itemsRef s1 = allItems
             /\ ((exists s2,
                     snd (checkHasMore options response allItems s2) = Throw thrown)
                 \/ (exists handler,
                        onSuccess options = Some handler
                        /\ handler response allItems = Throw thrown))) as Hrest.
  { intros s2 s3 outcome Ec Hi Hir.
    pose proof (checkHasMore_state response allItems s2) as Hst.
    rewrite Ec in Hst. simpl in Hst.
    destruct outcome as [more | t].
    - destruct (onSuccess options) as [handler |] eqn:Eh; [| discriminate].
      destruct (handler response allItems) eqn:Eo; [discriminate |].
      intros E'. injection E' as <- <-. rewrite Hst. simpl.
      split; [exact Hi |]. split; [exact Hir |]. right. eauto.
    - intros E'. injection E' as <- <-. rewrite Hst. simpl.
      split; [exact Hi |]. split; [exact Hir |]. left.
      exists s2. now rewrite Ec. }
  destruct (isPagePagination options) eqn:Ep; simpl in E.
  - match type of E with
    | context [checkHasMore options response allItems ?s2] =>
      destruct (checkHasMore options response allItems s2) as [s3 outcome] eqn:Ec;
        destruct (Hrest s2 s3 outcome Ec eq_refl eq_refl) as (Hi & Hir & Hc)
    end.
    + destruct outcome; [destruct (onSuccess options); simpl in E |]; simpl in E;
        try destruct (_ response allItems); exact E.
    + split; [exact Hi |]. split; [exact Hir |]. now right.
  - destruct (getNextCursor options) as [extractor |] eqn:En; simpl in E.
    + destruct (extractor response) as [nextCursor | t] eqn:Ex; simpl in E.
      * match type of E with
        | context [checkHasMore options response allItems ?s2] =>
          destruct (checkHasMore options response allItems s2)
            as [s3 outcome] eqn:Ec;
            destruct (Hrest s2 s3 outcome Ec eq_refl eq_refl) as (Hi & Hir & Hc)
        end.
        -- destruct outcome; [destruct (onSuccess options); simpl in E |];
             simpl in E; try destruct (_ response allItems); exact E.
        -- split; [exact Hi |]. split; [exact Hir |]. now right.
      * injection E as <- <-. simpl.
        split; [reflexivity |]. split; [reflexivity |]. left. eauto.
    + match type of E with
      | context [checkHasMore options response allItems ?s2] =>
        destruct (checkHasMore options response allItems s2)
          as [s3 outcome] eqn:Ec;
          destruct (Hrest s2 s3 outcome Ec eq_refl eq_refl) as (Hi & Hir & Hc)
      end.
      * destruct outcome; [destruct (onSuccess options); simpl in E |];
          simpl in E; try destruct (_ response allItems); exact E.
      * split; [exact Hi |]. split; [exact Hir |]. now right.
Qed.

(** [fetchData] before the request writes only the guard, the two flags and
    the error slot. *)
Lemma fetchData_start_awaiting (isLoadMore : bool) (s0 s : State TData TItem)
  (request : FetcherParams) :
  fetchData_start options isLoadMore s0 = Awaiting request s ->
  isFetchingRef s0 = false
  /\ isFetchingRef s = true
  /\ error s = None
  /\ items s = items s0 /\ itemsRef s = itemsRef s0
  /\ pageRef s = pageRef s0 /\ cursorRef s = cursorRef s0
  /\ hasMore s = hasMore s0 /\ hasMoreRef s = hasMoreRef s0
  /\ calls s = calls s0
  /\ isInitializedRef s = isInitializedRef s0.
Proof.
  unfold fetchData_start.
  destruct (isFetchingRef s0); [discriminate |].
  destruct (isLoadMore && negb (hasMoreRef s0)); [discriminate |].
  intros E. injection E as _ <-. destruct isLoadMore; simpl; repeat split.
Qed.

End Controller.

(** C1.  Exactly one rule is the first that applies; whatever the options,
    the response and the items so far, [checkHasMore] returns (or throws)
    what that rule makes of them; and after a [try] block that ran to its
    end, the [hasMore] it returns, the [hasMore] state and the [hasMore] ref
    all hold that rule's verdict on the response and on all items so far. *)
Theorem hasMore_first_applicable_rule {TData TItem : Type}
  (options : UseInfiniteListOptions TData TItem) :
  (exists r, decides options r)
  /\ (forall r1 r2, decides options r1 -> decides options r2 -> r1 = r2)
  /\ (forall r response allItems s,
         decides options r ->
         verdict options response allItems r
                 (snd (checkHasMore options response allItems s)))
  /\ (forall r isLoadMore settled s s' result,
         decides options r ->
         fetchData_try options isLoadMore settled s = (s', Normal result) ->
         exists response newItems,
           settled = Normal response
           /\ getData options response = Normal newItems
           /\ verdict options response
                      (if isLoadMore then itemsRef s ++ newItems else newItems)
                      r (Normal (LoadResult.hasMore result))
           /\ hasMore s' = LoadResult.hasMore result
           /\ hasMoreRef s' = LoadResult.hasMore result).
Proof.
  split; [apply decides_exists |]. split; [apply decides_unique |].
  split; [intros; now apply checkHasMore_verdict |].
  intros r isLoadMore settled s s' result Hr E.
  apply fetchData_try_returns in E
    as (response & newItems & Es & Eg & Ev & _ & _ & _ & Eh & Ehr).
  exists response, newItems. repeat split; auto.
  rewrite <- Ev. now apply checkHasMore_verdict.
Qed.

Lemma hasMore_first_applicable_rule_witness :
  verdict {| pagination := PagePagination None None;
             getData := fun response : list nat => Normal response;
             getTotal := Some (fun _ => Normal 45%Z);
             getNextCursor := Some (fun _ => Normal Null);
             hasMoreFn := None; onSuccess := None; onError := None |}
          [1; 2; 3]%nat [1; 2; 3]%nat TotalCount
          (Normal true).
Proof.
  set (options := {| pagination := PagePagination None None;
                     getData := fun response : list nat => Normal response;
                     getTotal := Some (fun _ => Normal 45%Z);
                     getNextCursor := Some (fun _ => Normal Null);
                     hasMoreFn := None; onSuccess := None; onError := None |}).
  destruct (hasMore_first_applicable_rule options) as (_ & _ & H & _).
  apply (H TotalCount [1; 2; 3]%nat [1; 2; 3]%nat (initialState options)).
  split; [reflexivity |]. intros [| | |]; simpl; try reflexivity; lia.
Defined.

(** C5, as the code has it.  A fetch fails when the fetcher's promise is
    rejected or when [getData], [getNextCursor], [getTotal], the custom
    predicate or [onSuccess] throws, and in no other way: the hook does not
    look at the response itself.  After every failure the normalized error
    is stored, [onError] has been called with it if there is one, and both
    loading flags and the guard are cleared; the [catch] and [finally]
    blocks write neither items, nor cursor, nor page, nor [hasMore]; and the
    fetch resolves with the snapshot of the refs, unless [onError] throws,
    in which case it rejects with what [onError] threw.  When it is the
    fetcher that rejected or [getData] that threw, nothing had been written:
    items, cursor, page and [hasMore] are as they were before the fetch
    began, and the snapshot is the one of that moment. *)
Theorem failed_fetch_keeps_items {TData TItem : Type}
  (options : UseInfiniteListOptions TData TItem)
  (isLoadMore : bool) (settled : completion TData) (thrown : Thrown)
  (s s1 : State TData TItem) :
  fetchData_try options isLoadMore settled s = (s1, Throw thrown) ->
  let s' := fst (fetchData_settle options isLoadMore settled s) in
  let outcome := snd (fetchData_settle options isLoadMore settled s) in
  ((settled = Throw thrown /\ s1 = s)
   \/ exists response,
       settled = Normal response
       /\ ((getData options response = Throw thrown /\ s1 = s)
           \/ exists newItems,
               getData options response = Normal newItems
               /\ let allItems :=
                    if isLoadMore then itemsRef s ++ newItems else newItems in
                  items s1 = allItems /\ itemsRef s1 = allItems
                  /\ ((exists extractor,
                          isPagePagination options = false
                          /\ getNextCursor options = Some extractor
                          /\ extractor response = Throw thrown)
                      \/ (exists s2,
                             snd (checkHasMore options response allItems s2)
                             = Throw thrown)
                      \/ (exists handler,
                             onSuccess options = Some handler
                             /\ handler response allItems = Throw thrown))))
  /\ error s' = Some (normalizeError thrown)
  /\ calls s'
     = calls s1 ++ match onError options with
                   | Some _ => [OnError (normalizeError thrown)]
                   | None => []
                   end
  /\ isLoading s' = false /\ isLoadingMore s' = false /\ isFetchingRef s' = false
  /\ items s' = items s1 /\ itemsRef s' = itemsRef s1
  /\ cursorRef s' = cursorRef s1 /\ pageRef s' = pageRef s1
  /\ hasMore s' = hasMore s1 /\ hasMoreRef s' = hasMoreRef s1
  /\ outcome
     = match match onError options with
             | Some handler => handler (normalizeError thrown)
             | None => Normal tt
             end with
       | Normal _ => Normal {| LoadResult.itemsCount := length (itemsRef s');
                               LoadResult.hasMore := hasMoreRef s' |}
       | Throw rethrown => Throw rethrown
       end
  /\ (settled = Throw thrown
      \/ (exists response,
             settled = Normal response
             /\ getData options response = Throw thrown) ->
      s1 = s
      /\ calls s'
         = calls s ++ match onError options with
                      | Some _ => [OnError (normalizeError thrown)]
                      | None => []
                      end
      /\ forall s0 request,
          fetchData_start options isLoadMore s0 = Awaiting request s ->
          items s' = items s0 /\ itemsRef s' = itemsRef s0
          /\ cursorRef s' = cursorRef s0 /\ pageRef s' = pageRef s0
          /\ hasMore s' = hasMore s0 /\ hasMoreRef s' = hasMoreRef s0
          /\ forall result,
              outcome = Normal result ->
              result = {| LoadResult.itemsCount := length (itemsRef s0);
                          LoadResult.hasMore := hasMoreRef s0 |}).
Proof.
  intros E s' outcome.
  split; [exact (fetchData_try_throws _ _ _ _ E) |].
  subst s' outcome. rewrite (fetchData_settle_throws _ _ _ _ E).
  destruct (fetchData_catch_spec options thrown s1) as [Es Eo].
  cbv zeta in Es. rewrite Es, Eo. clear Es Eo. simpl fst. simpl snd.
  assert (settled = Throw thrown
          \/ (exists response,
                 settled = Normal response
                 /\ getData options response = Throw thrown) -> s1 = s) as Hearly.
  { intros Hfail.
    assert (fetchData_try options isLoadMore settled s = (s, Throw thrown)) as E'.
    { unfold fetchData_try, bind, call.
      destruct Hfail as [-> | (response & -> & Eg)]; [reflexivity |].
      now rewrite Eg. }
    congruence. }
  destruct (onError options) as [handler |]; simpl;
    rewrite ?app_nil_r; repeat (split; [reflexivity |]).
  - intros Hfail. specialize (Hearly Hfail). subst s1.
    split; [reflexivity |]. split; [reflexivity |].
    intros s0 request Es.
    apply fetchData_start_awaiting in Es
      as (_ & _ & _ & Hi & Hir & Hp & Hc & Hh & Hhr & _).
    repeat (split; [assumption |]).
    intros result Er. unfold snapshot in Er. rewrite <- Hir, <- Hhr.
    destruct (handler (normalizeError thrown)); congruence.
  - intros Hfail. specialize (Hearly Hfail). subst s1.
    split; [reflexivity |]. split; [reflexivity |].
    intros s0 request Es.
    apply fetchData_start_awaiting in Es
      as (_ & _ & _ & Hi & Hir & Hp & Hc & Hh & Hhr & _).
    repeat (split; [assumption |]).
    intros result Er. unfold snapshot in Er. rewrite <- Hir, <- Hhr. congruence.
Qed.

Section Waiting.

Context {TData TItem : Type}.
Variable options : UseInfiniteListOptions TData TItem.
Variable fetcher : nat -> FetcherParams -> completion TData.

Lemma fetchData_requests (isLoadMore : bool) (r : Run TData TItem) :
  requests (fst (fetchData options fetcher isLoadMore r))
  = requests r
    ++ match fetchData_start options isLoadMore (state r) with
       | Awaiting request _ => [request]
       | Returned _ => []
       end.
Proof.
  unfold fetchData.
  destruct (fetchData_start options isLoadMore (state r)) as [res | request s].
  - simpl. now rewrite app_nil_r.
  - destruct (fetchData_settle options isLoadMore _ s). reflexivity.
Qed.

Lemma fetchData_resolves (isLoadMore : bool) (r : Run TData TItem)
  (result : LoadResult.t) :
  let r' := fst (fetchData options fetcher isLoadMore r) in
  snd (fetchData options fetcher isLoadMore r) = Normal result ->
  result = {| LoadResult.itemsCount := length (itemsRef (state r'));
              LoadResult.hasMore := hasMoreRef (state r') |}.
Proof.
  unfold fetchData, fetchData_start.
  destruct (isFetchingRef (state r)); [simpl; intros E; now injection E as <- |].
  destruct (isLoadMore && negb (hasMoreRef (state r))) eqn:Eg.
  - simpl. intros E. injection E as <-.
    apply andb_true_iff in Eg as [_ Eg]. apply negb_true_iff in Eg.
    now rewrite Eg.
  - match goal with
    | |- context [fetchData_settle options isLoadMore ?settled ?s] =>
      pose proof (fetchData_settle_resolves options isLoadMore settled s) as H;
        destruct (fetchData_settle options isLoadMore settled s) as [s' outcome]
    end.
    simpl in *. intros E. now apply H.
Qed.

Lemma chained_last (r r' : Run TData TItem)
  (before : list (Iteration TData TItem)) (p : Iteration TData TItem) :
  chained options fetcher r (before ++ [p]) r' ->
  returned p = snd (fetchData options fetcher true (entered p))
  /\ r' = fst (fetchData options fetcher true (entered p)).
Proof.
  revert r. induction before as [| b before IH]; intros r; simpl.
  - intros (<- & E & ->). auto.
  - intros (_ & _ & H). now apply IH in H.
Qed.

Lemma loadUntilCount_loop_passes (targetCount maxAttempts attempts0 : Z)
  (r : Run TData TItem) :
  let out := loadUntilCount_loop options fetcher targetCount maxAttempts attempts0 r in
  let r' := fst (fst out) in
  let passes := snd (fst out) in
  Forall (fun p => loop_condition targetCount maxAttempts (attempts p)
                                  (state (entered p)) = true) passes
  /\ chained options fetcher r passes r'
  /\ requests r' = requests r ++ flat_map (pass_request options) passes
  /\ (Z.of_nat (length passes) <= Z.max 0 (maxAttempts - attempts0))%Z
  /\ (forall before p after,
         passes = before ++ p :: after ->
         ends_loop (returned p) = true -> after = [])
  /\ (passes = [] -> snd out = Normal tt)
  /\ (forall before p,
         passes = before ++ [p] ->
         match snd out with
         | Normal _ => exists result, returned p = Normal result
         | Throw thrown => returned p = Throw thrown
         end).
Proof.
  funelim (loadUntilCount_loop options fetcher targetCount maxAttempts attempts0 r);
    cbv zeta; simpl fst; simpl snd;
    try match goal with
        | Ef : fetchData options fetcher true r = (?r', ?outcome) |- _ =>
          pose proof (fetchData_requests true r) as Hr; rewrite Ef in Hr;
            simpl in Hr;
            pose proof (f_equal fst Ef) as Ef1; pose proof (f_equal snd Ef) as Ef2;
            simpl in Ef1, Ef2;
            assert (attempts0 < maxAttempts)%Z as Hlt
                by (pose proof Hcond as Hc; unfold loop_condition in Hc;
                    apply andb_true_iff in Hc as [_ Hc]; now apply Z.ltb_lt)
        end.
  - (* the loop condition fails *)
    split; [constructor |]. split; [reflexivity |].
    split; [simpl; now rewrite app_nil_r |]. split; [simpl; lia |].
    split; [intros [| b before] p after E; discriminate |].
    split; [reflexivity |].
    intros [| b before] p E; discriminate.
  - (* a pass whose fetch throws *)
    split; [constructor; [assumption | constructor] |].
    split; [simpl; rewrite Ef1, Ef2; auto |].
    split; [rewrite Hr; simpl; unfold pass_request; simpl;
            now rewrite app_nil_r |].
    split; [simpl length; lia |].
    split; [intros [| b before] p after E Hp; simpl in E; injection E as <- E;
            [now subst | destruct before; discriminate] |].
    split; [discriminate |].
    intros [| b before] p E; simpl in E;
      [now injection E as <- | injection E as _ E; destruct before; discriminate].
  - (* a pass that goes round again *)
    match goal with
    | IH : Forall _ _ /\ _ |- _ =>
      destruct IH as (Hall & Hchain & Hreq & Hlen & Hlast & Hnone & Hend)
    end.
    split; [constructor; assumption |].
    split; [simpl; rewrite Ef1, Ef2; auto |].
    split; [rewrite Hreq, Hr; simpl; unfold pass_request at 2; simpl;
            now rewrite <- app_assoc |].
    split; [simpl length; lia |].
    split.
    { intros [| b before] p after E Hp; simpl in E; injection E as <- E.
      - simpl in Hp. rewrite negb_true_iff in Hp. congruence.
      - now apply (Hlast before p after). }
    split; [discriminate |].
    intros [| b before] p E; simpl in E; injection E as <- E.
    + rewrite (Hnone E). simpl. eauto.
    + now apply (Hend before p).
  - (* a pass after which the loop is left *)
    split; [constructor; [assumption | constructor] |].
    split; [simpl; rewrite Ef1, Ef2; auto |].
    split; [rewrite Hr; simpl; unfold pass_request; simpl;
            now rewrite app_nil_r |].
    split; [simpl length; lia |].
    split; [intros [| b before] p after E Hp; simpl in E; injection E as <- E;
            [now subst | destruct before; discriminate] |].
    split; [discriminate |].
    intros [| b before] p E; simpl in E;
      [injection E as <-; simpl; eauto
      | injection E as _ E; destruct before; discriminate].
Qed.

(** The loop is left only because its condition fails or because the last
    fetch reported [hasMore = false] or threw. *)
Lemma loadUntilCount_loop_exit (targetCount maxAttempts attempts0 : Z)
  (r : Run TData TItem) :
  let out := loadUntilCount_loop options fetcher targetCount maxAttempts attempts0 r in
  loop_condition targetCount maxAttempts
                 (attempts0 + Z.of_nat (length (snd (fst out))))
                 (state (fst (fst out)))
  = false
  \/ exists before p,
      snd (fst out) = before ++ [p] /\ ends_loop (returned p) = true.
Proof.
  funelim (loadUntilCount_loop options fetcher targetCount maxAttempts attempts0 r);
    cbv zeta; simpl fst; simpl snd.
  - left. simpl. now rewrite Z.add_0_r.
  - right. eexists [], _. split; reflexivity.
  - match goal with
    | IH : _ \/ _ |- _ => destruct IH as [Hc | (before & p & E & Hp)]
    end.
    + left. simpl length.
      match goal with
      | |- context [(?a + Z.of_nat (S ?n))%Z] =>
        replace (a + Z.of_nat (S n))%Z with (a + 1 + Z.of_nat n)%Z by lia
      end.
      exact Hc.
    + right. eexists (_ :: before), p. rewrite E. split; [reflexivity | exact Hp].
  - right. eexists [], _. split; [reflexivity |]. simpl.
    now apply negb_true_iff.
Qed.

End Waiting.

Section Interleaving.

Context {TData TItem : Type}.
Variable options : UseInfiniteListOptions TData TItem.

Lemma fetchData_start_busy (isLoadMore : bool) (s : State TData TItem) :
  isFetchingRef s = true ->
  fetchData_start options isLoadMore s = Returned (snapshot s).
Proof. intros E. unfold fetchData_start. now rewrite E. Qed.

Lemma loadMore_busy (isLoadingMore isLoading : bool) (s : State TData TItem) :
  isFetchingRef s = true ->
  loadMore options isLoadingMore isLoading s = Returned (snapshot s).
Proof.
  intros E. unfold loadMore.
  destruct (negb (hasMoreRef s) || isLoadingMore || isLoading);
    [reflexivity | now apply fetchData_start_busy].
Qed.

Lemma loadMore_cases (isLoadingMore isLoading : bool) (s : State TData TItem) :
  loadMore options isLoadingMore isLoading s = Returned (snapshot s)
  \/ loadMore options isLoadingMore isLoading s = fetchData_start options true s.
Proof.
  unfold loadMore.
  destruct (negb (hasMoreRef s) || isLoadingMore || isLoading); auto.
Qed.

Lemma started_single_flight (o : Origin) (isLoadMore : bool)
  (w : World TData TItem) :
  single_flight w ->
  single_flight
    (started o isLoadMore (fetchData_start options isLoadMore (instance w)) w).
Proof.
  intros Hw.
  destruct (fetchData_start options isLoadMore (instance w)) as [res | request s] eqn:E;
    [exact Hw |].
  apply fetchData_start_awaiting in E as (Hidle & Hbusy & Herr & _).
  right. exists (length (sent w)). simpl.
  destruct Hw as [[Hin _] | (id & _ & _ & Hb & _)]; [| congruence].
  rewrite Hin, length_app. simpl. repeat split; auto. lia.
Qed.

Lemma with_instance_single_flight (s : State TData TItem) (w : World TData TItem) :
  isFetchingRef s = isFetchingRef (instance w) ->
  error s = error (instance w) ->
  single_flight w -> single_flight (with_instance s w).
Proof.
  intros Hf He [[Hin Hidle] | (id & Hin & Hid & Hb & Herr)]; [left | right].
  - simpl. split; congruence.
  - exists id. simpl. repeat split; congruence.
Qed.

Lemma step_single_flight (w : World TData TItem) (e : Event TData) :
  (e = EvReset -> inFlight w = []) ->
  single_flight w -> single_flight (step options w e).
Proof.
  intros Hreset Hw. destruct e as [enabled | a b | | | | id settled]; simpl.
  - (* the effect *)
    unfold initialFetchEffect.
    destruct (enabled && negb (isInitializedRef (instance w)));
      [| now apply with_instance_single_flight].
    pose proof (@started_single_flight FromEffect false
                  (with_instance (set_isInitializedRef true (instance w)) w)
                  (with_instance_single_flight _ eq_refl eq_refl Hw)) as H.
    simpl in H.
    destruct (fetchData_start options false
                (set_isInitializedRef true (instance w))); exact H.
  - (* loadMore *)
    destruct (loadMore_cases a b (instance w)) as [-> | ->];
      [exact Hw | now apply started_single_flight].
  - now apply started_single_flight.
  - (* reset *)
    left. simpl. split; [now apply Hreset | reflexivity].
  - now apply started_single_flight.
  - (* a promise settles *)
    destruct (existsb (Nat.eqb id) (inFlight w)) eqn:Ein; [| exact Hw].
    destruct Hw as [[Hin _] | (id' & Hin & Hid & _)];
      [rewrite Hin in Ein; discriminate |].
    rewrite Hin in Ein. simpl in Ein. rewrite orb_false_r in Ein.
    apply Nat.eqb_eq in Ein as ->.
    destruct (nth_error (sent w) id') as [request |] eqn:En;
      [| apply nth_error_None in En; lia].
    left. simpl. rewrite Hin. simpl.
    destruct (Nat.eq_dec id' id'); [| congruence].
    split; [reflexivity |]. apply fetchData_settle_flags.
Qed.

Lemma run_single_flight (trace : list (Event TData)) (w : World TData TItem) :
  resets_when_idle options w trace ->
  single_flight w -> single_flight (run options w trace).
Proof.
  revert w. induction trace as [| e trace IH]; intros w Hr Hw; [exact Hw |].
  destruct Hr as [Hreset Hr]. simpl. apply IH; [exact Hr |].
  now apply step_single_flight.
Qed.

Lemma initialWorld_single_flight : single_flight (initialWorld options).
Proof. left. split; reflexivity. Qed.

Lemma no_reset_resets_when_idle (trace : list (Event TData))
  (w : World TData TItem) :
  ~ In EvReset trace -> resets_when_idle options w trace.
Proof.
  revert w. induction trace as [| e trace IH]; intros w Hn; simpl; [exact I |].
  split.
  - intros ->. exfalso. apply Hn. now left.
  - apply IH. intros Hin. apply Hn. now right.
Qed.

Lemma run_app (before after : list (Event TData)) (w : World TData TItem) :
  run options w (before ++ after) = run options (run options w before) after.
Proof. apply fold_left_app. Qed.

(** *** The requests of the initial-fetch effect *)

Lemma started_automatic (o : Origin) (isLoadMore : bool) (st : Started)
  (w : World TData TItem) :
  o <> FromEffect -> automatic (started o isLoadMore st w) = automatic w.
Proof.
  intros Ho. destruct st as [res | request s]; [reflexivity |].
  unfold automatic. simpl. rewrite filter_app. simpl.
  destruct o; [congruence | | |]; now rewrite app_nil_r.
Qed.

Lemma started_initialized (o : Origin) (isLoadMore : bool)
  (w : World TData TItem) :
  isInitializedRef
    (instance (started o isLoadMore
                 (fetchData_start options isLoadMore (instance w)) w))
  = isInitializedRef (instance w).
Proof.
  destruct (fetchData_start options isLoadMore (instance w)) as [res | request s] eqn:E;
    [reflexivity |].
  now apply fetchData_start_awaiting in E
    as (_ & _ & _ & _ & _ & _ & _ & _ & _ & _ & E).
Qed.

Lemma step_quiet (w : World TData TItem) (e : Event TData) :
  e <> EvReset -> e <> EvEffect true \/ isInitializedRef (instance w) = true ->
  isInitializedRef (instance (step options w e)) = isInitializedRef (instance w)
  /\ automatic (step options w e) = automatic w.
Proof.
  intros Hr He. destruct e as [enabled | a b | | | | id settled]; simpl.
  - unfold initialFetchEffect.
    destruct enabled; simpl.
    + destruct He as [He | He]; [congruence |]. rewrite He. simpl. auto.
    + auto.
  - destruct (loadMore_cases a b (instance w)) as [-> | ->]; [auto |].
    split; [apply started_initialized | now apply started_automatic].
  - split; [apply started_initialized | now apply started_automatic].
  - congruence.
  - split; [apply started_initialized | now apply started_automatic].
  - destruct (existsb (Nat.eqb id) (inFlight w)); [| auto].
    destruct (nth_error (sent w) id); [| auto].
    split; [apply fetchData_settle_flags | reflexivity].
Qed.

Lemma step_first_effect (w : World TData TItem) :
  isInitializedRef (instance w) = false ->
  isInitializedRef (instance (step options w (EvEffect true))) = true
  /\ (isFetchingRef (instance w) = true ->
      automatic (step options w (EvEffect true)) = automatic w)
  /\ (isFetchingRef (instance w) = false ->
      exists request,
        automatic (step options w (EvEffect true)) = automatic w ++ [request]).
Proof.
  intros Hi. simpl. unfold initialFetchEffect. rewrite Hi. simpl.
  unfold fetchData_start. simpl.
  destruct (isFetchingRef (instance w)); simpl.
  - repeat split; auto. discriminate.
  - repeat split; [discriminate |]. intros _.
    unfold automatic. simpl. rewrite filter_app. simpl. eauto.
Qed.

Lemma step_initial_fetch_once (w : World TData TItem) (e : Event TData) :
  e <> EvReset -> initial_fetch_once w -> initial_fetch_once (step options w e).
Proof.
  intros Hr [[Hi Ha] | [Hi Ha]].
  - assert (e = EvEffect true \/ e <> EvEffect true) as [-> | He].
    { destruct e as [[|] | | | | |]; auto; right; discriminate. }
    + right. destruct (step_first_effect w Hi) as (Hi' & Hbusy & Hidle).
      split; [exact Hi' |].
      destruct (isFetchingRef (instance w)).
      * rewrite Hbusy, Ha by reflexivity. simpl. lia.
      * destruct Hidle as [request ->]; [reflexivity |]. rewrite Ha. simpl. lia.
    + left. destruct (step_quiet w Hr (or_introl He)) as [-> ->]. auto.
  - right. destruct (step_quiet w Hr (or_intror Hi)) as [-> ->]. auto.
Qed.

Lemma run_initial_fetch_once (trace : list (Event TData)) (w : World TData TItem) :
  ~ In EvReset trace -> initial_fetch_once w ->
  initial_fetch_once (run options w trace).
Proof.
  revert w. induction trace as [| e trace IH]; intros w Hn Hw; [exact Hw |].
  simpl. apply IH; [intros Hin; apply Hn; now right |].
  apply step_initial_fetch_once; [| exact Hw]. intros ->. apply Hn. now left.
Qed.

Lemma run_quiet (trace : list (Event TData)) (w : World TData TItem) :
  ~ In EvReset trace ->
  ~ In (EvEffect true) trace \/ isInitializedRef (instance w) = true ->
  isInitializedRef (instance (run options w trace)) = isInitializedRef (instance w)
  /\ automatic (run options w trace) = automatic w.
Proof.
  revert w. induction trace as [| e trace IH]; intros w Hn He; [auto |].
  simpl.
  assert (e <> EvReset) as Hr by (intros ->; apply Hn; now left).
  assert (e <> EvEffect true \/ isInitializedRef (instance w) = true) as He'.
  { destruct He as [He | He]; [left | now right]. intros ->. apply He. now left. }
  destruct (step_quiet w Hr He') as [Hi Ha].
  destruct (IH (step options w e)) as [Hi' Ha'].
  - intros Hin. apply Hn. now right.
  - destruct He as [He | He]; [left | right; congruence].
    intros Hin. apply He. now right.
  - split; congruence.
Qed.

End Interleaving.

(** C3, as the code has it.  As long as [reset] (alone or inside [refresh])
    is not called while a request is outstanding, at most one request is
    outstanding at any moment, whatever the order of effect runs,
    [loadMore], [loadUntilCount] and [refresh] fetches and settlements; and
    while one is outstanding, [loadMore] and the [fetchData(true)] of
    [loadUntilCount] send nothing, change nothing and return the current
    snapshot. *)
Theorem single_fetch_in_flight {TData TItem : Type}
  (options : UseInfiniteListOptions TData TItem) (trace : list (Event TData)) :
  resets_when_idle options (initialWorld options) trace ->
  let w := run options (initialWorld options) trace in
  (length (inFlight w) <= 1)%nat
  /\ (inFlight w <> [] ->
      forall isLoadingMore isLoading,
        loadMore options isLoadingMore isLoading (instance w)
        = Returned (snapshot (instance w))
        /\ step options w (EvLoadMore isLoadingMore isLoading) = w
        /\ fetchData_start options true (instance w)
           = Returned (snapshot (instance w))
        /\ step options w EvLoadUntilCountFetch = w).
Proof.
  intros Hr w.
  pose proof (@run_single_flight _ _ options trace _ Hr
                (initialWorld_single_flight options)) as Hw.
  fold w in Hw. destruct Hw as [[Hin _] | (id & Hin & _ & Hbusy & _)].
  - rewrite Hin. split; [simpl; lia | congruence].
  - rewrite Hin. split; [simpl; lia |]. intros _ a b.
    pose proof (@loadMore_busy _ _ options a b (instance w) Hbusy) as El.
    pose proof (@fetchData_start_busy _ _ options true (instance w) Hbusy) as Ef.
    simpl. rewrite El, Ef. auto.
Qed.

Lemma single_fetch_in_flight_witness :
  let w := run sample_pages (initialWorld sample_pages)
               [EvEffect true; EvLoadMore false false;
                EvSettle 0 (Normal [1; 2; 3]%nat); EvReset; EvRefreshFetch;
                EvLoadUntilCountFetch] in
  (length (inFlight w) <= 1)%nat.
Proof.
  apply (@single_fetch_in_flight (list nat) nat sample_pages
           [EvEffect true; EvLoadMore false false;
            EvSettle 0 (Normal [1; 2; 3]%nat); EvReset; EvRefreshFetch;
            EvLoadUntilCountFetch]).
  vm_compute. repeat split; intros E; try discriminate E; reflexivity.
Defined.

(** C3, as the specification has it, fails: [refresh] called while the
    initial fetch is outstanding resets the guard and sends a second request
    before the first has settled. *)
Lemma refresh_during_fetch_two_in_flight :
  let w := run sample_pages (initialWorld sample_pages)
               [EvEffect true; EvReset; EvRefreshFetch] in
  inFlight w = [0; 1]%nat /\ ~ (length (inFlight w) <= 1)%nat.
Proof. split; [reflexivity | simpl; lia]. Qed.

(** C4.  [loadUntilCount] calls [fetchData(true)] only in passes entered
    with fewer than [targetCount] items, [hasMore] up and fewer than
    [maxAttempts] attempts made; every request it sends is sent in such a
    pass; it makes at most [maxAttempts] passes, hence sends at most
    [maxAttempts] requests; a pass whose fetch reports [hasMore = false] (or
    throws) is the last, and the loop is left only after such a pass or when
    its condition fails.  What it gives is what its last fetch gave: the
    snapshot that fetch resolved with, whose [itemsCount] is the number of
    items in [itemsRef] and whose [hasMore] is [hasMoreRef] as the loop
    leaves them, or the rejection of that fetch; with no pass at all it is
    the snapshot of the refs on entry.  Asked for 500 items with 10 attempts
    of a fetcher that gives 20 items each time and a predicate that always
    says there is more, a fresh instance makes exactly 10 requests and
    returns 200 items. *)
Theorem loadUntilCount_bounded {TData TItem : Type}
  (options : UseInfiniteListOptions TData TItem)
  (fetcher : nat -> FetcherParams -> completion TData)
  (targetCount maxAttempts : Z) (r : Run TData TItem) :
  let out := loadUntilCount options fetcher targetCount maxAttempts r in
  let r' := fst (fst out) in
  let passes := snd (fst out) in
  let result := snd out in
  (forall p, In p passes ->
             (Z.of_nat (length (itemsRef (state (entered p)))) < targetCount)%Z
             /\ hasMoreRef (state (entered p)) = true
             /\ (attempts p < maxAttempts)%Z)
  /\ chained options fetcher r passes r'
  /\ requests r' = requests r ++ flat_map (pass_request options) passes
  /\ (Z.of_nat (length passes) <= Z.max 0 maxAttempts)%Z
  /\ (Z.of_nat (length (requests r') - length (requests r)) <= Z.max 0 maxAttempts)%Z
  /\ (forall before p after,
         passes = before ++ p :: after ->
         (exists last, returned p = Normal last /\ LoadResult.hasMore last = false)
         \/ (exists thrown, returned p = Throw thrown) ->
         after = [])
  /\ (loop_condition targetCount maxAttempts (Z.of_nat (length passes)) (state r')
      = false
      \/ exists before p,
          passes = before ++ [p]
          /\ ((exists last,
                  returned p = Normal last /\ LoadResult.hasMore last = false)
              \/ exists thrown, returned p = Throw thrown))
  /\ (forall before p, passes = before ++ [p] -> result = returned p)
  /\ (passes = [] ->
      result = Normal {| LoadResult.itemsCount := length (itemsRef (state r));
                         LoadResult.hasMore := hasMoreRef (state r) |})
  /\ (forall final,
         result = Normal final ->
         LoadResult.itemsCount final = length (itemsRef (state r'))
         /\ LoadResult.hasMore final = hasMoreRef (state r'))
  /\ (let fresh := {| state := initialState sample_always_more; requests := [] |} in
      let out := loadUntilCount sample_always_more twenty_each 500 10 fresh in
      length (requests (fst (fst out))) = 10%nat
      /\ snd out
         = Normal {| LoadResult.itemsCount := 200; LoadResult.hasMore := true |}).
Proof.
  intros out r' passes result.
  pose proof (loadUntilCount_loop_passes options fetcher targetCount maxAttempts 0 r)
    as (Hall & Hchain & Hreq & Hlen & Hlast & Hnone & Hend).
  pose proof (loadUntilCount_loop_exit options fetcher targetCount maxAttempts 0 r)
    as Hexit.
  assert (forall outcome,
             ends_loop outcome = true
             <-> (exists last, outcome = Normal last
                               /\ LoadResult.hasMore last = false)
                 \/ (exists thrown, outcome = Throw thrown)) as Hends.
  { intros [last | thrown]; simpl; rewrite ?negb_true_iff; split.
    - intros E. left. eauto.
    - intros [(last' & E & Hl) | (thrown & E)]; congruence.
    - intros _. right. eauto.
    - reflexivity. }
  cbv zeta in *.
  destruct (loadUntilCount_loop options fetcher targetCount maxAttempts 0 r)
    as [[r1 passes1] completed] eqn:Eloop.
  assert (out = (r1, passes1,
                 match completed with
                 | Normal _ => Normal (snapshot (state r1))
                 | Throw thrown => Throw thrown
                 end)) as Eout.
  { unfold out, loadUntilCount. now rewrite Eloop. }
  subst r' passes result. rewrite Eout. simpl fst in *. simpl snd in *.
  rewrite Z.sub_0_r in Hlen.
  assert (forall before p,
             passes1 = before ++ [p] ->
             match completed with
             | Normal _ => Normal (snapshot (state r1))
             | Throw thrown => Throw thrown
             end = returned p) as Hresult.
  { intros before p E. specialize (Hend before p E).
    rewrite E in Hchain. apply chained_last in Hchain as [Er Er1].
    destruct completed as [[] | thrown]; [| congruence].
    destruct Hend as [last El]. rewrite El. f_equal.
    rewrite El in Er. symmetry in Er.
    apply fetchData_resolves in Er. rewrite <- Er1 in Er. now rewrite Er. }
  split.
  { intros p Hp. rewrite Forall_forall in Hall. specialize (Hall p Hp).
    unfold loop_condition in Hall.
    apply andb_true_iff in Hall as [Hall Hlt].
    apply andb_true_iff in Hall as [Hcount Hmore].
    apply Z.ltb_lt in Hcount, Hlt. auto. }
  split; [exact Hchain |]. split; [exact Hreq |]. split; [exact Hlen |].
  split.
  { rewrite Hreq, length_app.
    assert (length (flat_map (pass_request options) passes1) <= length passes1)%nat
      as Hle.
    { clear. induction passes1 as [| p l IH]; [simpl; lia |].
      simpl. rewrite length_app. unfold pass_request at 1.
      destruct (fetchData_start options true (state (entered p))); simpl; lia. }
    lia. }
  split.
  { intros before p after E Hp. apply (Hlast before p after E). now apply Hends. }
  split.
  { destruct Hexit as [Hc | (before & p & E & Hp)]; [now left | right].
    exists before, p. split; [exact E | now apply Hends]. }
  split; [exact Hresult |].
  split.
  { intros ->. simpl in Hchain. subst r1. now rewrite (Hnone eq_refl). }
  split.
  { intros final Er. destruct completed; [| discriminate].
    injection Er as <-. split; reflexivity. }
  vm_compute. split; reflexivity.
Qed.

Lemma loadUntilCount_bounded_witness :
  let out := loadUntilCount sample_pages two_pages_and_five 100 100
               {| state := initialState sample_pages; requests := [] |} in
  length (requests (fst (fst out))) = 3%nat
  /\ (Z.of_nat (length (snd (fst out))) <= Z.max 0 100)%Z
  /\ snd out
     = Normal {| LoadResult.itemsCount := 45; LoadResult.hasMore := false |}
  /\ hasMoreRef (state (fst (fst out))) = false.
Proof.
  intros out.
  destruct (loadUntilCount_bounded sample_pages two_pages_and_five 100 100
              {| state := initialState sample_pages; requests := [] |})
    as (_ & _ & _ & Hlen & _ & _ & _ & Hlast & _ & Hfinal & _).
  fold out in Hlen, Hlast, Hfinal.
  split; [vm_compute; reflexivity |]. split; [exact Hlen |].
  assert (exists final, snd out = Normal final) as [final Ef].
  { rewrite (Hlast (removelast (snd (fst out)))
                   (last (snd (fst out))
                         {| attempts := 0; entered := fst (fst out);
                            returned := snd out |})).
    - vm_compute. eauto.
    - apply app_removelast_last. vm_compute. discriminate. }
  destruct (Hfinal final Ef) as [Hcount Hmore].
  split; [| vm_compute; reflexivity].
  rewrite Ef. f_equal. destruct final as [count more]. simpl in *.
  rewrite Hcount, Hmore. vm_compute. reflexivity.
Defined.

Lemma failed_fetch_keeps_items_witness :
  let loaded :=
    fst (fetchData sample_cursors twenty_each false
           {| state := initialState sample_cursors; requests := [] |}) in
  exists request s,
    fetchData_start sample_cursors true (state loaded) = Awaiting request s
    /\ request = CursorFetcherParams (Str "next") 20
    /\ let s' := fst (fetchData_settle sample_cursors true
                        (Throw (ThrownValue "offline")) s) in
       error s' = Some {| message := "Unknown error" |}
       /\ calls s' = [OnError {| message := "Unknown error" |}]
       /\ items s' = repeat 0%nat 20
       /\ cursorRef s' = Str "next"
       /\ isLoadingMore s' = false
       /\ snd (fetchData_settle sample_cursors true
                 (Throw (ThrownValue "offline")) s)
          = Normal {| LoadResult.itemsCount := 20; LoadResult.hasMore := true |}.
Proof.
  intros loaded.
  destruct (fetchData_start sample_cursors true (state loaded))
    as [result | request s] eqn:Es; [vm_compute in Es; discriminate |].
  exists request, s. split; [reflexivity |].
  split; [vm_compute in Es; now injection Es as <- _ |].
  destruct (@failed_fetch_keeps_items (list nat) nat sample_cursors true
              (Throw (ThrownValue "offline")) (ThrownValue "offline") s s)
    as (_ & He & _ & _ & Hl & _ & _ & _ & _ & _ & _ & _ & Ho & Hearly);
    [reflexivity |].
  destruct Hearly as (_ & Hc & Hprior); [now left |].
  destruct (Hprior (state loaded) request Es) as (Hi & _ & Hcur & _ & _ & _ & Hr).
  cbv zeta. split; [exact He |].
  split; [rewrite Hc; vm_compute in Es; injection Es as _ <-; reflexivity |].
  split; [rewrite Hi; reflexivity |]. split; [rewrite Hcur; reflexivity |].
  split; [exact Hl |].
  set (outcome := snd (fetchData_settle sample_cursors true
                         (Throw (ThrownValue "offline")) s)) in *.
  change (outcome
          = Normal {| LoadResult.itemsCount :=
                        length (itemsRef (fst (fetchData_settle sample_cursors true
                                  (Throw (ThrownValue "offline")) s)));
                      LoadResult.hasMore :=
                        hasMoreRef (fst (fetchData_settle sample_cursors true
                                  (Throw (ThrownValue "offline")) s)) |}) in Ho.
  rewrite (Hr _ Ho) in Ho. exact Ho.
Defined.

(** C5, as the specification has it, fails.  When the next-cursor extractor
    throws, the items of the response are already stored, and the snapshot
    returned counts them; when the total extractor throws, the page has
    moved on as well; and so it is when [onSuccess] throws, after it has
    been called. *)
Lemma throwing_extractor_keeps_new_items :
  let before := {| state := initialState sample_cursor_throwing; requests := [] |} in
  let after := fetchData sample_cursor_throwing twenty_each false before in
  let before' := {| state := initialState sample_total_throwing; requests := [] |} in
  let after' := fetchData sample_total_throwing twenty_each false before' in
  let before'' :=
    {| state := initialState sample_success_throwing; requests := [] |} in
  let after'' := fetchData sample_success_throwing twenty_each false before'' in
  error (state (fst after)) = Some {| message := "no cursor" |}
  /\ items (state before) = []
  /\ items (state (fst after)) = repeat 0%nat 20
  /\ snd after
     = Normal {| LoadResult.itemsCount := 20; LoadResult.hasMore := true |}
  /\ snd after <> Normal (snapshot (state before))
  /\ error (state (fst after')) = Some {| message := "no total" |}
  /\ items (state (fst after')) = repeat 0%nat 20
  /\ pageRef (state before') = 1%Z
  /\ pageRef (state (fst after')) = 2%Z
  /\ error (state (fst after'')) = Some {| message := "Unknown error" |}
  /\ items (state (fst after'')) = repeat 0%nat 20
  /\ pageRef (state (fst after'')) = 2%Z
  /\ calls (state (fst after''))
     = [OnSuccess (repeat 0%nat 20) (repeat 0%nat 20);
        OnError {| message := "Unknown error" |}].
Proof.
  repeat split; try reflexivity. vm_compute. discriminate.
Qed.

(** C9, as the code has it.  As long as [reset] is not called (alone or
    inside [refresh]), the effect sends at most one request, however often it
    runs and whatever else is called in between: the first run with
    [enabled] true marks the instance initialized and sends the initial
    request, unless another request is outstanding at that moment, and no
    later run sends anything. *)
Theorem initial_fetch_at_most_once {TData TItem : Type}
  (options : UseInfiniteListOptions TData TItem) (trace : list (Event TData)) :
  ~ In EvReset trace ->
  let w := run options (initialWorld options) trace in
  (length (automatic w) <= 1)%nat
  /\ forall before after,
      trace = before ++ EvEffect true :: after ->
      ~ In (EvEffect true) before ->
      isInitializedRef (instance w) = true
      /\ automatic w
         = automatic (run options (initialWorld options) (before ++ [EvEffect true]))
      /\ (inFlight (run options (initialWorld options) before) = [] ->
          length (automatic w) = 1%nat).
Proof.
  intros Hn w. split.
  - assert (initial_fetch_once w) as [[_ ->] | [_ H]]; [| simpl; lia | exact H].
    apply (@run_initial_fetch_once _ _ options); [exact Hn |]. left. split; reflexivity.
  - intros before after -> Hb.
    assert (~ In EvReset before) as Hnb
        by (intros Hin; apply Hn; apply in_or_app; now left).
    assert (~ In EvReset after) as Hna
        by (intros Hin; apply Hn; apply in_or_app; right; now right).
    set (w0 := run options (initialWorld options) before).
    destruct (@run_quiet _ _ options before (initialWorld options) Hnb (or_introl Hb))
      as [Hi0 Ha0].
    fold w0 in Hi0, Ha0. simpl in Hi0. unfold automatic in Ha0 at 2. simpl in Ha0.
    destruct (@step_first_effect _ _ options w0 Hi0) as (Hi1 & Hbusy & Hidle).
    assert (run options (initialWorld options) (before ++ [EvEffect true])
            = step options w0 (EvEffect true)) as E1
        by (rewrite run_app; reflexivity).
    assert (w = run options (step options w0 (EvEffect true)) after) as Ew
        by (unfold w; rewrite run_app; reflexivity).
    destruct (@run_quiet _ _ options after (step options w0 (EvEffect true))
                Hna (or_intror Hi1)) as [Hi2 Ha2].
    rewrite <- Ew in Hi2, Ha2. rewrite E1.
    split; [congruence |]. split; [exact Ha2 |].
    intros Hin.
    pose proof (@run_single_flight _ _ options before _
                  (@no_reset_resets_when_idle _ _ options _ _ Hnb)
                  (initialWorld_single_flight options)) as Hs.
    fold w0 in Hs, Hin.
    destruct Hs as [[_ Hidle0] | (id & Hin' & _)]; [| congruence].
    destruct (Hidle Hidle0) as [request Er].
    rewrite Ha2, Er, Ha0. reflexivity.
Qed.

Lemma initial_fetch_at_most_once_witness :
  length (automatic (run sample_pages (initialWorld sample_pages)
                         [EvEffect false; EvEffect true;
                          EvSettle 0 (Normal [1; 2; 3]%nat);
                          EvEffect true; EvLoadMore false false; EvEffect true]))
  = 1%nat.
Proof.
  destruct (@initial_fetch_at_most_once (list nat) nat sample_pages
              [EvEffect false; EvEffect true; EvSettle 0 (Normal [1; 2; 3]%nat);
               EvEffect true; EvLoadMore false false; EvEffect true])
    as [_ H].
  - simpl. intros [H | [H | [H | [H | [H | [H | []]]]]]]; discriminate.
  - destruct (H [EvEffect false]
                [EvSettle 0 (Normal [1; 2; 3]%nat);
                 EvEffect true; EvLoadMore false false; EvEffect true])
      as (_ & _ & H1).
    + reflexivity.
    + simpl. intros [H0 | []]. discriminate.
    + apply H1. reflexivity.
Defined.

(** C9, as the specification has it, fails.  [reset] lowers the flag that
    marks the initial fetch as done, and the next run of the effect sends a
    second automatic request; and an effect that first runs enabled while a
    [loadMore] request is outstanding marks the initial fetch as done without
    sending it, so that none is ever sent. *)
Lemma reset_rearms_initial_fetch :
  let w := run sample_pages (initialWorld sample_pages)
               [EvEffect true; EvSettle 0 (Normal [1; 2; 3]%nat);
                EvReset; EvEffect true] in
  let w' := run sample_pages (initialWorld sample_pages)
                [EvEffect false; EvLoadMore false false; EvEffect true;
                 EvSettle 0 (Normal [1; 2; 3]%nat); EvEffect true] in
  length (automatic w) = 2%nat
  /\ map params (automatic w) = [PageFetcherParams 1 20; PageFetcherParams 1 20]
  /\ automatic w' = []
  /\ isInitializedRef (instance w') = true.
Proof. repeat split; reflexivity. Qed.

(** C10, as the code has it.  A [fetchData] that sends a request leaves the
    error slot empty when it starts to wait; a [try] block that runs to its
    end leaves the slot as it finds it; so, as long as [reset] is not called
    while a request is outstanding, the slot is empty after every fetch that
    completes without throwing, whatever failed before that fetch began. *)
Theorem successful_fetch_clears_error {TData TItem : Type}
  (options : UseInfiniteListOptions TData TItem) :
  (forall isLoadMore s request s',
      fetchData_start options isLoadMore s = Awaiting request s' ->
      error s' = None)
  /\ (forall isLoadMore settled s s1 result,
         fetchData_try options isLoadMore settled s = (s1, Normal result) ->
         error (fst (fetchData_settle options isLoadMore settled s)) = error s)
  /\ (forall trace id request settled s1 result,
         resets_when_idle options (initialWorld options) trace ->
         let w := run options (initialWorld options) trace in
         In id (inFlight w) ->
         nth_error (sent w) id = Some request ->
         fetchData_try options (isLoadMore request) settled (instance w)
         = (s1, Normal result) ->
         error (instance (step options w (EvSettle id settled))) = None).
Proof.
  split; [| split].
  - intros isLoadMore s request s' E.
    now apply fetchData_start_awaiting in E as (_ & _ & E & _).
  - intros isLoadMore settled s s1 result E.
    rewrite (@fetchData_settle_returns _ _ options _ _ _ _ _ E). simpl.
    pose proof (@fetchData_try_frame _ _ options isLoadMore settled s) as [He _].
    now rewrite E in He.
  - intros trace id request settled s1 result Hr w Hin En E.
    pose proof (@run_single_flight _ _ options trace _ Hr
                  (initialWorld_single_flight options)) as Hw.
    fold w in Hw. destruct Hw as [[Hidle _] | (id' & Hin' & _ & _ & Herr)].
    + rewrite Hidle in Hin. destruct Hin.
    + assert (existsb (Nat.eqb id) (inFlight w) = true) as Ex.
      { apply existsb_exists. exists id. split; [exact Hin | apply Nat.eqb_refl]. }
      simpl. rewrite Ex, En. simpl.
      rewrite (@fetchData_settle_returns _ _ options _ _ _ _ _ E). simpl.
      pose proof (@fetchData_try_frame _ _ options (isLoadMore request) settled
                    (instance w)) as [He _].
      rewrite E in He. simpl in He. congruence.
Qed.

Lemma successful_fetch_clears_error_witness :
  error (instance
           (step sample_pages
                 (run sample_pages (initialWorld sample_pages)
                      [EvEffect true; EvSettle 0 (Throw (ThrownValue "offline"));
                       EvLoadMore false false])
                 (EvSettle 1 (Normal [1; 2; 3]%nat))))
  = None.
Proof.
  destruct (@successful_fetch_clears_error (list nat) nat sample_pages)
    as (_ & _ & H).
  refine (H [EvEffect true; EvSettle 0 (Throw (ThrownValue "offline"));
             EvLoadMore false false]
            1%nat
            {| origin := FromLoadMore; isLoadMore := true;
               params := PageFetcherParams 1 20 |}
            (Normal [1; 2; 3]%nat)
            (fst (fetchData_try sample_pages true (Normal [1; 2; 3]%nat)
                    (instance (run sample_pages (initialWorld sample_pages)
                                 [EvEffect true;
                                  EvSettle 0 (Throw (ThrownValue "offline"));
                                  EvLoadMore false false]))))
            {| LoadResult.itemsCount := 3; LoadResult.hasMore := false |}
            _ _ _ _).
  - vm_compute. repeat split; discriminate.
  - vm_compute. now left.
  - vm_compute. reflexivity.
  - vm_compute. reflexivity.
Defined.

(** C10, as the specification has it, fails: a request sent after a [reset]
    that interrupted an earlier one can fail first; the earlier one then
    completes without throwing and leaves the later one's error in the
    slot. *)
Lemma late_success_keeps_later_error :
  let w := run sample_pages (initialWorld sample_pages)
               [EvEffect true; EvReset; EvRefreshFetch;
                EvSettle 1 (Throw (ThrownValue "offline"))] in
  In 0%nat (inFlight w)
  /\ (exists s1 result,
         fetchData_try sample_pages false (Normal [1; 2; 3]%nat) (instance w)
         = (s1, Normal result))
  /\ error (instance (step sample_pages w (EvSettle 0 (Normal [1; 2; 3]%nat))))
     = Some {| message := "Unknown error" |}.
Proof.
  split; [vm_compute; now left |]. split; [| vm_compute; reflexivity].
  exists (fst (fetchData_try sample_pages false (Normal [1; 2; 3]%nat)
                 (instance (run sample_pages (initialWorld sample_pages)
                              [EvEffect true; EvReset; EvRefreshFetch;
                               EvSettle 1 (Throw (ThrownValue "offline"))])))).
  exists {| LoadResult.itemsCount := 3; LoadResult.hasMore := false |}.
  vm_compute. reflexivity.
Qed.

End InfiniteListFacts.

(* ===================================================================== *)
(** ** Properties of the position index and the render window *)
(* ===================================================================== *)

Module VirtualListFacts.
Import VirtualList VirtualListSpec WindowSpec.
Open Scope Q_scope.

(** *** Comparisons and indexing *)

(** The operations of the exact arithmetic, by their names on [Q]. *)
Ltac exact_arithmetic :=
  change (@zero Q exact) with 0 in *;
  change (@two Q exact) with 2 in *;
  change (@add Q exact) with Qplus in *;
  change (@sub Q exact) with Qminus in *;
  change (@div Q exact) with Qdiv in *;
  change (@max Q exact) with Qmax in *;
  change (@ltb Q exact) with Qltb in *;
  change (@eqb Q exact) with Qeq_bool in *.

Lemma Qltb_true (x y : Q) : Qltb x y = true <-> x < y.
Proof.
  unfold Qltb. rewrite negb_true_iff, <- not_true_iff_false, Qle_bool_iff.
  split; [apply Qnot_le_lt | apply Qlt_not_le].
Qed.

Lemma Qltb_false (x y : Q) : Qltb x y = false <-> y <= x.
Proof.
  unfold Qltb. rewrite negb_false_iff. apply Qle_bool_iff.
Qed.

Lemma at_index_nat {A} (l : list A) (i : nat) :
  at_index l (Z.of_nat i) = nth_error l i.
Proof.
  unfold at_index. destruct (Z.ltb_spec (Z.of_nat i) 0); [lia |].
  now rewrite Nat2Z.id.
Qed.

Lemma at_index_Some {A} (l : list A) (i : Z) (x : A) :
  at_index l i = Some x -> (0 <= i < Z.of_nat (length l))%Z.
Proof.
  unfold at_index. destruct (Z.ltb_spec i 0); [discriminate |].
  intros E. assert (Z.to_nat i < length l)%nat
    by (apply nth_error_Some; congruence). lia.
Qed.

Lemma at_index_in_range {A} (l : list A) (i : Z) :
  (0 <= i < Z.of_nat (length l))%Z -> exists x, at_index l i = Some x.
Proof.
  intros Hi. unfold at_index. destruct (Z.ltb_spec i 0); [lia |].
  destruct (nth_error l (Z.to_nat i)) eqn:E; [eauto |].
  apply nth_error_None in E. lia.
Qed.

(** *** The table and the window loop, whatever the arithmetic *)

Section Table.

Context {TItem : Type} {number : Type} {arithmetic : Arithmetic number}.
Variable itemHeight : ItemHeight number.

Lemma positions_loop_step (todo i : nat) (off : number)
  (ps : list (PositionEntry.t number)) :
  positions_loop itemHeight (S todo) i off ps =
  (add (fst (positions_loop itemHeight todo i off ps))
       (getItemHeight itemHeight (i + todo)%nat),
   snd (positions_loop itemHeight todo i off ps)
   ++ [{| PositionEntry.start := fst (positions_loop itemHeight todo i off ps);
          PositionEntry.end_ :=
            add (fst (positions_loop itemHeight todo i off ps))
                (getItemHeight itemHeight (i + todo)%nat);
          PositionEntry.size := getItemHeight itemHeight (i + todo)%nat |}]).
Proof.
  revert i off ps. induction todo as [| todo IH]; intros i off ps.
  - simpl. now rewrite Nat.add_0_r.
  - change (positions_loop itemHeight (S (S todo)) i off ps)
      with (positions_loop itemHeight (S todo) (S i)
              (add off (getItemHeight itemHeight i))
              (ps ++ [{| PositionEntry.start := off;
                         PositionEntry.end_ := add off (getItemHeight itemHeight i);
                         PositionEntry.size := getItemHeight itemHeight i |}])).
    rewrite IH. simpl positions_loop at 3 6.
    now replace (S i + todo)%nat with (i + S todo)%nat by lia.
Qed.

Lemma offset_step (n : nat) :
  offset itemHeight (S n)
  = add (offset itemHeight n) (getItemHeight itemHeight n).
Proof. unfold offset. now rewrite positions_loop_step. Qed.

Lemma positions_S (n : nat) :
  snd (positions_loop itemHeight (S n) 0 zero []) =
  snd (positions_loop itemHeight n 0 zero []) ++ [entry itemHeight n].
Proof. now rewrite positions_loop_step. Qed.

Lemma positions_length (n : nat) :
  length (snd (positions_loop itemHeight n 0 zero [])) = n.
Proof.
  induction n as [| n IH]; [reflexivity |].
  rewrite positions_S, length_app, IH. simpl. lia.
Qed.

Lemma positions_nth (n i : nat) :
  (i < n)%nat ->
  nth_error (snd (positions_loop itemHeight n 0 zero [])) i
  = Some (entry itemHeight i).
Proof.
  induction n as [| n IH]; [lia |]. intros Hi. rewrite positions_S.
  destruct (Nat.eq_dec i n) as [-> | Hne].
  - rewrite nth_error_app2; rewrite positions_length; [| lia].
    now rewrite Nat.sub_diag.
  - rewrite nth_error_app1; [apply IH; lia | rewrite positions_length; lia].
Qed.

Lemma entry_end (i : nat) :
  PositionEntry.end_ (entry itemHeight i) = offset itemHeight (S i).
Proof. simpl. now rewrite offset_step. Qed.

Lemma positions_map (n : nat) :
  snd (positions_loop itemHeight n 0 zero []) = map (entry itemHeight) (seq 0 n).
Proof.
  induction n as [| n IH]; [reflexivity |].
  now rewrite positions_S, IH, seq_S, map_app.
Qed.

Variable items : list TItem.

Lemma itemPositions_length : length (itemPositions items itemHeight) = length items.
Proof. apply positions_length. Qed.

Lemma totalHeight_offset :
  totalHeight items itemHeight = offset itemHeight (length items).
Proof. reflexivity. Qed.

Lemma itemPositions_at (i : nat) :
  (i < length items)%nat ->
  at_index (itemPositions items itemHeight) (Z.of_nat i) = Some (entry itemHeight i).
Proof. intros Hi. rewrite at_index_nat. now apply positions_nth. Qed.

Lemma itemPositions_at_Z (i : Z) (pos : PositionEntry.t number) :
  at_index (itemPositions items itemHeight) i = Some pos ->
  (0 <= i < Z.of_nat (length items))%Z /\ pos = entry itemHeight (Z.to_nat i).
Proof.
  intros E. pose proof (at_index_Some _ _ E) as Hi.
  rewrite itemPositions_length in Hi. split; [exact Hi |].
  rewrite <- (Z2Nat.id i) in E by lia.
  rewrite itemPositions_at in E by lia. congruence.
Qed.

(** The loop that collects the window. *)

Lemma window_loop_acc (todo : nat) (i : Z) (result : list (VirtualItem.t number)) :
  window_loop items itemHeight todo i result
  = result ++ window_loop items itemHeight todo i [].
Proof.
  revert i result. induction todo as [| todo IH]; intros i result; simpl.
  - now rewrite app_nil_r.
  - rewrite IH. symmetry. rewrite IH.
    destruct (at_index (itemPositions items itemHeight) i);
      simpl; now rewrite <- ?app_assoc.
Qed.

Lemma window_loop_In (todo : nat) (i : Z) (v : VirtualItem.t number) :
  In v (window_loop items itemHeight todo i []) ->
  (i <= VirtualItem.index v < i + Z.of_nat todo)%Z
  /\ exists pos,
      at_index (itemPositions items itemHeight) (VirtualItem.index v) = Some pos
      /\ v = virtualItem (VirtualItem.index v) pos.
Proof.
  revert i. induction todo as [| todo IH]; intros i; simpl; [tauto |].
  rewrite window_loop_acc. intros Hin. apply in_app_or in Hin as [Hin | Hin].
  - destruct (at_index (itemPositions items itemHeight) i) as [pos |] eqn:E;
      simpl in Hin; [| tauto].
    destruct Hin as [<- | []]. simpl. split; [lia | eauto].
  - apply IH in Hin as [Hr Hp]. split; [lia | exact Hp].
Qed.

Lemma window_loop_indices (todo k : nat) :
  (k + todo <= length items)%nat ->
  map VirtualItem.index (window_loop items itemHeight todo (Z.of_nat k) [])
  = map Z.of_nat (seq k todo).
Proof.
  revert k. induction todo as [| todo IH]; intros k Hk; [reflexivity |].
  simpl. rewrite window_loop_acc, itemPositions_at by lia.
  rewrite map_app. simpl. f_equal.
  replace (Z.of_nat k + 1)%Z with (Z.of_nat (S k)) by lia. apply IH. lia.
Qed.

End Table.

(** *** The position index in exact arithmetic *)

Section PositionIndex.

Context {TItem : Type}.
Variable itemHeight : ItemHeight Q.

Lemma offset_S (n : nat) :
  offset itemHeight (S n) = offset itemHeight n + getItemHeight itemHeight n.
Proof. exact (offset_step itemHeight n). Qed.

Variable items : list TItem.

Lemma fold_right_Qplus_snoc (l : list Q) (x : Q) :
  fold_right Qplus 0 (l ++ [x]) == fold_right Qplus 0 l + x.
Proof.
  induction l as [| y l IH]; simpl; [lra | rewrite IH; lra].
Qed.

Lemma offset_sum (n : nat) : offset itemHeight n == sum_heights itemHeight n.
Proof.
  induction n as [| n IH]; [reflexivity |].
  rewrite offset_S. unfold sum_heights in *. rewrite seq_S, map_app.
  pose proof (fold_right_Qplus_snoc (map (getItemHeight itemHeight) (seq 0 n))
                (getItemHeight itemHeight n)) as E.
  simpl in *. lra.
Qed.

(** *** Order of the offsets *)

Lemma offset_mono (count i j : nat) :
  nonnegative_heights itemHeight count -> (i <= j)%nat -> (j <= count)%nat ->
  offset itemHeight i <= offset itemHeight j.
Proof.
  intros Hh Hij. induction Hij as [| j Hij IH]; intros Hj; [lra |].
  rewrite offset_S. specialize (Hh j ltac:(lia)). specialize (IH ltac:(lia)). lra.
Qed.

Lemma offset_0 : offset itemHeight 0 = 0.
Proof. reflexivity. Qed.

(** *** The two binary searches on a table whose starts and ends do not
    decrease *)

Lemma mid_between (low high : Z) :
  (low <= high)%Z -> (low <= (low + high) / 2 <= high)%Z.
Proof.
  intros H. split; [apply Z.div_le_lower_bound | apply Z.div_le_upper_bound]; lia.
Qed.

Ltac reflect_comparisons :=
  exact_arithmetic;
  repeat match goal with
         | H : Qltb _ _ = true |- _ => apply Qltb_true in H
         | H : Qltb _ _ = false |- _ => apply Qltb_false in H
         | H : Z_le_dec _ _ = _ |- _ => clear H
         | H : (?low <= ?high)%Z |- _ =>
           lazymatch goal with
           | _ : (low <= (low + high) / 2 <= high)%Z |- _ => fail
           | _ => pose proof (mid_between H)
           end
         end.

(** A loop that goes on with a narrower range: the outcome of the narrower
    search is an outcome of the wider one, given what the probe at [mid]
    showed. *)
Lemma outcome_right (t : list (PositionEntry.t Q)) (x : Q) (low high mid : Z)
  (pos : PositionEntry.t Q) (r : Search) :
  sorted_table t -> (low <= mid <= high)%Z -> at_index t mid = Some pos ->
  PositionEntry.end_ pos < x ->
  search_outcome t x (mid + 1) high r -> search_outcome t x low high r.
Proof.
  intros Hs Hm E Hlt. destruct r as [m | l]; simpl.
  - intros [Hr Hp]. split; [lia | exact Hp].
  - intros (Hr & Hbelow & Habove). split; [lia |]. split; [| exact Habove].
    intros i pi Hi Ei. destruct (Z_le_gt_dec i mid) as [Hi' | Hi'].
    + destruct (Hs i mid pi pos Hi' Ei E) as [_ He]. lra.
    + apply (Hbelow i); [lia | exact Ei].
Qed.

Lemma outcome_left (t : list (PositionEntry.t Q)) (x : Q) (low high mid : Z)
  (pos : PositionEntry.t Q) (r : Search) :
  sorted_table t -> (low <= mid <= high)%Z -> at_index t mid = Some pos ->
  x < PositionEntry.start pos ->
  search_outcome t x low (mid - 1) r -> search_outcome t x low high r.
Proof.
  intros Hs Hm E Hlt. destruct r as [m | l]; simpl.
  - intros [Hr Hp]. split; [lia | exact Hp].
  - intros (Hr & Hbelow & Habove). split; [lia |]. split; [exact Hbelow |].
    intros i pi Hi Ei. destruct (Z_le_gt_dec mid i) as [Hi' | Hi'].
    + destruct (Hs mid i pos pi Hi' E Ei) as [He _]. lra.
    + apply (Habove i); [lia | exact Ei].
Qed.

Lemma outcome_empty (t : list (PositionEntry.t Q)) (x : Q) (low high : Z) :
  (low <= high + 1)%Z -> ~ (low <= high)%Z ->
  search_outcome t x low high (Exhausted low).
Proof. intros H1 H2. simpl. repeat split; intros; lia. Qed.

Lemma probe_defined (t : list (PositionEntry.t Q)) (low high : Z) :
  (0 <= low)%Z -> (high < Z.of_nat (length t))%Z -> (low <= high)%Z ->
  at_index t ((low + high) / 2) <> None.
Proof.
  intros H0 H1 H2. pose proof (mid_between H2).
  destruct (at_index_in_range t (i := (low + high) / 2)) as [pos E];
    [lia | congruence].
Qed.

Lemma findStartIndex_loop_outcome (positions : list (PositionEntry.t Q))
  (scrollTop : Q) (low high : Z) :
  sorted_table positions -> (0 <= low)%Z ->
  (high < Z.of_nat (length positions))%Z -> (low <= high + 1)%Z ->
  search_outcome positions scrollTop low high
    (findStartIndex_loop positions scrollTop low high).
Proof.
  funelim (findStartIndex_loop positions scrollTop low high);
    intros Hs Hlow Hhigh Hle; reflect_comparisons.
  - now apply outcome_empty.
  - now destruct (probe_defined positions Hlow Hhigh).
  - eapply outcome_right; eauto.
    match goal with IH : sorted_table _ -> _ |- _ => apply IH end;
      auto; lia.
  - eapply outcome_left; eauto.
    match goal with IH : sorted_table _ -> _ |- _ => apply IH end;
      auto; lia.
  - simpl. split; [assumption |]. eexists. split; [eassumption |]. now split.
Qed.

Lemma findEndIndex_loop_outcome (positions : list (PositionEntry.t Q))
  (targetEnd : Q) (low high : Z) :
  sorted_table positions -> (0 <= low)%Z ->
  (high < Z.of_nat (length positions))%Z -> (low <= high + 1)%Z ->
  search_outcome positions targetEnd low high
    (findEndIndex_loop positions targetEnd low high).
Proof.
  funelim (findEndIndex_loop positions targetEnd low high);
    intros Hs Hlow Hhigh Hle; reflect_comparisons.
  - now apply outcome_empty.
  - now destruct (probe_defined positions Hlow Hhigh).
  - eapply outcome_left; eauto.
    match goal with IH : sorted_table _ -> _ |- _ => apply IH end;
      auto; lia.
  - eapply outcome_right; eauto.
    match goal with IH : sorted_table _ -> _ |- _ => apply IH end;
      auto; lia.
  - simpl. split; [assumption |]. eexists. split; [eassumption |]. now split.
Qed.

(** *** The searches on the position index of the hook *)

Lemma itemPositions_sorted :
  nonnegative_heights itemHeight (length items) ->
  sorted_table (itemPositions items itemHeight).
Proof.
  intros Hh i j pi pj Hij Ei Ej.
  apply itemPositions_at_Z in Ei as [Hi ->], Ej as [Hj ->].
  rewrite !entry_end. simpl.
  split; apply offset_mono with (count := length items); auto; lia.
Qed.

Lemma offset_le_total (i : nat) :
  nonnegative_heights itemHeight (length items) -> (i <= length items)%nat ->
  offset itemHeight i <= totalHeight items itemHeight.
Proof.
  intros Hh Hi. rewrite totalHeight_offset.
  apply offset_mono with (count := length items); auto.
Qed.

(** On the whole table a search ends on an entry that contains the target,
    or leaves the loop with [low] at one end of the table, the target being
    beyond that end. *)
Lemma outcome_whole_table (x : Q) (r : Search) :
  nonnegative_heights itemHeight (length items) -> items <> [] ->
  search_outcome (itemPositions items itemHeight) x 0
    (Z.of_nat (length (itemPositions items itemHeight)) - 1) r ->
  match r with
  | Found mid =>
    exists pos, at_index (itemPositions items itemHeight) mid = Some pos
                /\ contains pos x
                /\ 0 <= x <= totalHeight items itemHeight
  | Exhausted low =>
    (low = 0%Z /\ x < 0)
    \/ (low = Z.of_nat (length items) /\ totalHeight items itemHeight < x)
  end.
Proof.
  intros Hh Hne. rewrite itemPositions_length.
  assert (0 < length items)%nat as Hn by (destruct items; simpl; [congruence | lia]).
  destruct r as [mid | low]; simpl.
  - intros (Hmid & pos & E & Hc). exists pos. repeat split; try apply Hc; auto.
    + destruct (itemPositions_at_Z _ _ _ E) as [_ ->]. destruct Hc as [Hc _]. simpl in Hc.
      assert (offset itemHeight 0 <= offset itemHeight (Z.to_nat mid)) as H0
          by (apply offset_mono with (count := length items); auto; lia).
      rewrite offset_0 in H0. lra.
    + destruct (itemPositions_at_Z _ _ _ E) as [Hi ->]. destruct Hc as [_ Hc].
      rewrite entry_end in Hc.
      pose proof (@offset_le_total (S (Z.to_nat mid)) Hh ltac:(lia)). lra.
  - intros (Hr & Hbelow & Habove).
    destruct (Z.eq_dec low 0) as [-> | Hlow0].
    + left. split; [reflexivity |].
      specialize (Habove 0%Z (entry itemHeight 0) ltac:(lia)
                         (@itemPositions_at _ _ _ itemHeight items 0 Hn)).
      simpl in Habove. now rewrite offset_0 in Habove.
    + destruct (Z.eq_dec low (Z.of_nat (length items))) as [-> | HlowN].
      * right. split; [reflexivity |].
        specialize (Hbelow (Z.of_nat (length items - 1))
                           (entry itemHeight (length items - 1)) ltac:(lia)
                           (@itemPositions_at _ _ _ itemHeight items (length items - 1) ltac:(lia))).
        rewrite entry_end in Hbelow. rewrite totalHeight_offset.
        now replace (S (length items - 1)) with (length items) in Hbelow by lia.
      * exfalso.
        specialize (Hbelow (Z.of_nat (Z.to_nat low - 1))
                           (entry itemHeight (Z.to_nat low - 1)) ltac:(lia)
                           (@itemPositions_at _ _ _ itemHeight items (Z.to_nat low - 1) ltac:(lia))).
        specialize (Habove (Z.of_nat (Z.to_nat low))
                           (entry itemHeight (Z.to_nat low)) ltac:(lia)
                           (@itemPositions_at _ _ _ itemHeight items (Z.to_nat low) ltac:(lia))).
        rewrite entry_end in Hbelow.
        replace (S (Z.to_nat low - 1)) with (Z.to_nat low) in Hbelow by lia.
        simpl in Habove. lra.
Qed.

Lemma whole_table_range :
  (0 <= 0)%Z
  /\ (Z.of_nat (length (itemPositions items itemHeight)) - 1
      < Z.of_nat (length (itemPositions items itemHeight)))%Z
  /\ (0 <= Z.of_nat (length (itemPositions items itemHeight)) - 1 + 1)%Z.
Proof. lia. Qed.

(** [findStartIndex]: where the index it returns lies, by where the offset
    lies. *)
Lemma findStartIndex_cases (scrollTop : Q) :
  nonnegative_heights itemHeight (length items) -> items <> [] ->
  (scrollTop < 0 /\ findStartIndex items itemHeight scrollTop = 0%Z)
  \/ (totalHeight items itemHeight < scrollTop
      /\ findStartIndex items itemHeight scrollTop = Z.of_nat (length items))
  \/ (0 <= scrollTop <= totalHeight items itemHeight
      /\ exists pos,
          at_index (itemPositions items itemHeight)
                   (findStartIndex items itemHeight scrollTop) = Some pos
          /\ contains pos scrollTop).
Proof.
  intros Hh Hne. unfold findStartIndex. exact_arithmetic.
  destruct whole_table_range as (H0 & H1 & H2).
  pose proof (@findStartIndex_loop_outcome _ scrollTop _ _
                (itemPositions_sorted Hh) H0 H1 H2) as H.
  apply outcome_whole_table in H; auto.
  destruct (findStartIndex_loop _ _ _ _) as [mid | low].
  - destruct H as (pos & E & Hc & Hx). right. right. eauto.
  - destruct H as [[-> Hx] | [-> Hx]]; [left | right; left];
      (split; [exact Hx | lia]).
Qed.

(** [findEndIndex]: likewise, by where [scrollTop + containerHeight] lies. *)
Lemma findEndIndex_cases (scrollTop containerHeight : Q) :
  nonnegative_heights itemHeight (length items) -> items <> [] ->
  (scrollTop + containerHeight < 0
   /\ findEndIndex items itemHeight scrollTop containerHeight = 0%Z)
  \/ (totalHeight items itemHeight < scrollTop + containerHeight
      /\ findEndIndex items itemHeight scrollTop containerHeight
         = (Z.of_nat (length items) - 1)%Z)
  \/ (0 <= scrollTop + containerHeight <= totalHeight items itemHeight
      /\ exists pos,
          at_index (itemPositions items itemHeight)
                   (findEndIndex items itemHeight scrollTop containerHeight)
          = Some pos
          /\ contains pos (scrollTop + containerHeight)).
Proof.
  intros Hh Hne. unfold findEndIndex. exact_arithmetic.
  assert (0 < length items)%nat as Hn by (destruct items; simpl; [congruence | lia]).
  destruct whole_table_range as (H0 & H1 & H2).
  pose proof (@findEndIndex_loop_outcome _ (scrollTop + containerHeight) _ _
                (itemPositions_sorted Hh) H0 H1 H2) as H.
  apply outcome_whole_table in H; auto.
  destruct (findEndIndex_loop _ _ _ _) as [mid | low].
  - destruct H as (pos & E & Hc & Hx). right. right. eauto.
  - rewrite itemPositions_length.
    destruct H as [[-> Hx] | [-> Hx]]; [left | right; left];
      (split; [exact Hx | lia]).
Qed.

End PositionIndex.

(** *** The table and a viewport over the whole list, whatever the
    arithmetic *)

Section FullTable.

Context {TItem : Type} {number : Type} {arithmetic : Arithmetic number}.
Variable itemHeight : ItemHeight number.

(** [currentOffset] is the sum of the heights so far, added from the
    left. *)
Lemma offset_running_sum (n : nat) :
  offset itemHeight n = running_sum itemHeight n.
Proof.
  induction n as [| n IH]; [reflexivity |].
  rewrite offset_step, IH. unfold running_sum.
  now rewrite seq_S, map_app, fold_left_app.
Qed.

(** A search for an offset that lies on the first entry, as the hook
    compares, ends on index 0: every probe above it sends the search to the
    left. *)
Lemma findStartIndex_loop_first (positions : list (PositionEntry.t number))
  (x : number) (low high : Z) :
  lies_on_first positions x ->
  low = 0%Z -> (0 <= high < Z.of_nat (length positions))%Z ->
  findStartIndex_loop positions x low high = Found 0.
Proof.
  funelim (findStartIndex_loop positions x low high); intros Hp -> Hhigh;
    try match goal with
        | E : at_index positions _ = Some _ |- _ =>
          destruct (Hp _ _ E) as [Hend Hstart]
        end;
    pose proof (@mid_between 0 high ltac:(lia)) as Hmid.
  - lia.
  - destruct (at_index_in_range positions (i := (0 + high) / 2)) as [pos E];
      [lia | congruence].
  - congruence.
  - destruct (Z.eqb_spec ((0 + high) / 2) 0) as [E0 | Hne]; [simpl in *; congruence |].
    match goal with IH : _ -> _ -> _ -> _ = Found 0 |- _ => apply IH end;
      [assumption | reflexivity | lia].
  - destruct (Z.eqb_spec ((0 + high) / 2) 0) as [E0 | Hne]; [| simpl in *; congruence].
    now rewrite E0.
Qed.

(** A search for an offset that lies on the last entry ends on the last
    index: every probe below it sends the search to the right. *)
Lemma findEndIndex_loop_last (positions : list (PositionEntry.t number))
  (x : number) (low high : Z) :
  lies_on_last positions x ->
  high = (Z.of_nat (length positions) - 1)%Z -> (0 <= low <= high)%Z ->
  findEndIndex_loop positions x low high = Found high.
Proof.
  funelim (findEndIndex_loop positions x low high); intros Hp Ehigh Hlow;
    try match goal with
        | E : at_index positions _ = Some _ |- _ =>
          destruct (Hp _ _ E) as [Hstart Hend]
        end;
    pose proof (@mid_between low high ltac:(lia)) as Hmid.
  - lia.
  - destruct (at_index_in_range positions (i := (low + high) / 2)) as [pos E];
      [lia | congruence].
  - congruence.
  - destruct (Z.eqb_spec ((low + high) / 2) (Z.of_nat (length positions) - 1))
      as [E0 | Hne]; [simpl in *; congruence |].
    match goal with IH : _ -> _ -> _ -> _ = Found _ |- _ => apply IH end;
      [assumption | assumption | lia].
  - destruct (Z.eqb_spec ((low + high) / 2) (Z.of_nat (length positions) - 1))
      as [E0 | Hne]; [| simpl in *; congruence].
    f_equal. lia.
Qed.

Variable items : list TItem.

Lemma full_window (scrollTop containerHeight : number) :
  items <> [] ->
  eqb containerHeight zero = false ->
  lies_on_first (itemPositions items itemHeight) scrollTop ->
  lies_on_last (itemPositions items itemHeight) (add scrollTop containerHeight) ->
  map VirtualItem.index
      (virtualItems items itemHeight 0 scrollTop containerHeight)
  = map Z.of_nat (seq 0 (length items)).
Proof.
  intros Hne Htotal Htop Hbottom.
  assert (0 < length items)%nat as Hn
      by (destruct items; simpl; [congruence | lia]).
  unfold virtualItems, findStartIndex, findEndIndex.
  replace (length items =? 0)%nat with false by (symmetry; apply Nat.eqb_neq; lia).
  rewrite Htotal. simpl orb. cbv zeta.
  rewrite findStartIndex_loop_first; auto;
    [| rewrite itemPositions_length; lia].
  rewrite findEndIndex_loop_last; auto;
    [| rewrite itemPositions_length; lia].
  rewrite itemPositions_length.
  replace (Z.max 0 (0 - 0)) with (Z.of_nat 0) by lia.
  replace (Z.to_nat _) with (length items) by lia.
  apply window_loop_indices. lia.
Qed.

(** A property of every entry of a table, from the same property of every
    index below its length. *)
Lemma every_entry (positions : list (PositionEntry.t number))
  (P : Z -> PositionEntry.t number -> Prop) :
  (forall k pos, nth_error positions k = Some pos -> P (Z.of_nat k) pos) ->
  forall i pos, at_index positions i = Some pos -> P i pos.
Proof.
  intros H i pos E. unfold at_index in E.
  destruct (Z.ltb_spec i 0); [discriminate |].
  rewrite <- (Z2Nat.id i) by lia. now apply H.
Qed.

End FullTable.

(** C6, as the code has it.  Whatever the arithmetic, the position index
    has one entry per item; entry [i] starts at the running sum of the
    heights of the items before it (added from the left, one addition of the
    arithmetic per item), ends at that start plus its height, which is the
    running sum one item further, and has its height as its size; the total
    extent is the running sum of all heights, is the [end] of the last
    entry, and is 0 when there are no items.  In exact arithmetic the
    running sum is the sum, the size is [end - start] and is not negative
    when the height is not, and an entry of height zero has [end = start]. *)
Theorem position_index_prefix_sums {TItem : Type} (items : list TItem) :
  (forall (number : Type) (arithmetic : Arithmetic number)
          (itemHeight : ItemHeight number),
      let positions := itemPositions items itemHeight in
      let height := getItemHeight itemHeight in
      length positions = length items
      /\ (forall i, (i < length items)%nat ->
            exists pos,
              at_index positions (Z.of_nat i) = Some pos
              /\ PositionEntry.start pos = running_sum itemHeight i
              /\ PositionEntry.end_ pos = add (PositionEntry.start pos) (height i)
              /\ PositionEntry.end_ pos = running_sum itemHeight (S i)
              /\ PositionEntry.size pos = height i)
      /\ totalHeight items itemHeight = running_sum itemHeight (length items)
      /\ (forall pos,
            at_index positions (Z.of_nat (length items) - 1) = Some pos ->
            totalHeight items itemHeight = PositionEntry.end_ pos)
      /\ (items = [] -> totalHeight items itemHeight = zero))
  /\ (forall itemHeight : ItemHeight Q,
      let positions := itemPositions items itemHeight in
      let height := getItemHeight itemHeight in
      length positions = length items
      /\ (forall i, (i < length items)%nat ->
            exists pos,
              at_index positions (Z.of_nat i) = Some pos
              /\ PositionEntry.start pos == sum_heights itemHeight i
              /\ PositionEntry.end_ pos = PositionEntry.start pos + height i
              /\ PositionEntry.size pos = height i
              /\ PositionEntry.size pos
                 == PositionEntry.end_ pos - PositionEntry.start pos
              /\ (0 <= height i -> 0 <= PositionEntry.size pos)
              /\ (height i == 0 -> PositionEntry.end_ pos == PositionEntry.start pos))
      /\ totalHeight items itemHeight == sum_heights itemHeight (length items)
      /\ (forall pos,
            at_index positions (Z.of_nat (length items) - 1) = Some pos ->
            totalHeight items itemHeight = PositionEntry.end_ pos)
      /\ (items = [] -> totalHeight items itemHeight = 0)).
Proof.
  split.
  - intros number arithmetic itemHeight positions height.
    split; [apply itemPositions_length |]. split; [| split; [| split]].
    + intros i Hi. exists (entry itemHeight i).
      split; [now apply itemPositions_at |].
      rewrite entry_end. simpl. rewrite !offset_running_sum.
      repeat split. rewrite <- !offset_running_sum. apply offset_step.
    + rewrite totalHeight_offset. apply offset_running_sum.
    + intros pos E. apply itemPositions_at_Z in E as [Hi ->].
      rewrite entry_end, totalHeight_offset. f_equal. lia.
    + intros ->. reflexivity.
  - intros itemHeight positions height. split; [apply itemPositions_length |].
    split; [| split; [| split]].
    + intros i Hi. exists (entry itemHeight i).
      split; [now apply itemPositions_at |]. simpl.
      split; [apply offset_sum |]. repeat split; try reflexivity.
      * fold (height i). lra.
      * auto.
      * fold (height i). intros E. lra.
    + rewrite totalHeight_offset. apply offset_sum.
    + intros pos E. apply itemPositions_at_Z in E as [Hi ->].
      rewrite entry_end, totalHeight_offset. f_equal. lia.
    + intros ->. reflexivity.
Qed.

Lemma position_index_prefix_sums_witness :
  (exists pos,
      at_index (itemPositions [tt; tt; tt] (PerIndex (fun i => inject_Z (Z.of_nat i))))
               (Z.of_nat 2) = Some pos
      /\ PositionEntry.start pos == 1
      /\ PositionEntry.end_ pos == 3
      /\ PositionEntry.size pos == 2)
  /\ (exists pos,
         at_index (itemPositions [tt; tt; tt] (Fixed 48.6%float)) (Z.of_nat 2)
         = Some pos
         /\ PositionEntry.start pos = 97.200000000000003%float
         /\ PositionEntry.end_ pos = 145.80000000000001%float
         /\ PositionEntry.size pos = 48.6%float).
Proof.
  split.
  - destruct (position_index_prefix_sums [tt; tt; tt]) as [_ H].
    destruct (H (PerIndex (fun i => inject_Z (Z.of_nat i)))) as (_ & H2 & _).
    destruct (H2 2%nat ltac:(simpl; lia)) as (pos & E & Hs & He & Hz & _).
    exists pos. split; [exact E |]. split; [exact Hs |].
    rewrite He, Hz, Hs. split; reflexivity.
  - destruct (position_index_prefix_sums [tt; tt; tt]) as [H _].
    destruct (H _ double (Fixed 48.6%float)) as (_ & H2 & _).
    destruct (H2 2%nat ltac:(simpl; lia)) as (pos & E & Hs & _ & He & Hz).
    exists pos. split; [exact E |]. rewrite Hs, He, Hz.
    repeat split; vm_compute; reflexivity.
Defined.

(** C6, as the specification has it, fails in the arithmetic of the engine:
    the sums are rounded, so [end - start] need not give back the size.
    With six items of height 48.6 it does so for the first two entries only;
    with heights 0.1 and 0.2 the second entry ends at 0.30000000000000004
    and [end - start] is 0.20000000000000004. *)
Lemma rounded_sums_break_the_size_invariant :
  let positions := itemPositions [tt; tt; tt; tt; tt; tt] (Fixed 48.6%float) in
  map (fun pos =>
         eqb (sub (PositionEntry.end_ pos) (PositionEntry.start pos))
             (PositionEntry.size pos))
      positions
  = [true; true; false; false; false; false]
  /\ at_index positions 2
     = Some {| PositionEntry.start := 97.200000000000003%float;
               PositionEntry.end_ := 145.80000000000001%float;
               PositionEntry.size := 48.6%float |}
  /\ sub 145.80000000000001%float 97.200000000000003%float
     = 48.600000000000009%float
  /\ eqb 48.600000000000009%float 48.6%float = false
  /\ itemPositions [tt; tt]
       (PerIndex (fun i => match i with O => 0.1 | S _ => 0.2 end)%float)
     = [{| PositionEntry.start := 0%float;
           PositionEntry.end_ := 0.1%float;
           PositionEntry.size := 0.1%float |};
        {| PositionEntry.start := 0.1%float;
           PositionEntry.end_ := 0.30000000000000004%float;
           PositionEntry.size := 0.2%float |}]
  /\ sub 0.30000000000000004%float 0.1%float = 0.20000000000000004%float
  /\ eqb 0.20000000000000004%float 0.2%float = false.
Proof. vm_compute. repeat split; reflexivity. Qed.

(** C2, as the code has it.  The window holds no index outside
    [[startIndex - overscan, endIndex + overscan]], nor outside the table.
    On the index of a non-empty list with heights that are not negative:
    [findStartIndex] never returns a negative index, and returns an index of
    the table when the offset is not beyond the total extent; [findEndIndex]
    always returns an index of the table; and when the viewport
    [[offset, offset + extent]], of an extent that is not negative, meets
    the span [[0, totalHeight]] of the table, the entries at both indices
    meet the viewport. *)
Theorem visible_range_search {TItem : Type} (items : list TItem)
  (itemHeight : ItemHeight Q) (overscan : Z) (scrollTop containerHeight : Q) :
  let positions := itemPositions items itemHeight in
  let lastIndex := (Z.of_nat (length items) - 1)%Z in
  let startIndex := findStartIndex items itemHeight scrollTop in
  let endIndex := findEndIndex items itemHeight scrollTop containerHeight in
  (forall v,
      In v (virtualItems items itemHeight overscan scrollTop containerHeight) ->
      (startIndex - overscan <= VirtualItem.index v <= endIndex + overscan)%Z
      /\ (0 <= VirtualItem.index v <= lastIndex)%Z)
  /\ (nonnegative_heights itemHeight (length items) -> items <> [] ->
      (0 <= startIndex)%Z
      /\ (scrollTop <= totalHeight items itemHeight -> (startIndex <= lastIndex)%Z)
      /\ (0 <= endIndex <= lastIndex)%Z
      /\ (0 <= containerHeight ->
          scrollTop <= totalHeight items itemHeight ->
          0 <= scrollTop + containerHeight ->
          exists first last,
            at_index positions startIndex = Some first
            /\ at_index positions endIndex = Some last
            /\ overlaps first scrollTop (scrollTop + containerHeight)
            /\ overlaps last scrollTop (scrollTop + containerHeight))).
Proof.
  intros positions lastIndex startIndex endIndex. split.
  - intros v. unfold virtualItems. exact_arithmetic.
    destruct ((length items =? 0)%nat || Qeq_bool containerHeight 0); [intros [] |].
    fold startIndex endIndex lastIndex. intros Hin.
    apply window_loop_In in Hin as [Hr (pos & E & _)].
    apply itemPositions_at_Z in E as [Hi _]. lia.
  - intros Hh Hne.
    assert (0 < length items)%nat as Hn
        by (destruct items; simpl; [congruence | lia]).
    pose proof (@findStartIndex_cases _ itemHeight items scrollTop Hh Hne) as Hstart.
    pose proof (@findEndIndex_cases _ itemHeight items scrollTop containerHeight
                  Hh Hne) as Hend.
    fold startIndex in Hstart. fold endIndex in Hend. fold positions in Hstart, Hend.
    repeat split.
    + destruct Hstart as [[_ ->] | [[_ ->] | [_ (pos & E & _)]]]; try lia.
      apply itemPositions_at_Z in E. lia.
    + intros Hs. destruct Hstart as [[_ ->] | [[Hgt _] | [_ (pos & E & _)]]].
      * lia.
      * lra.
      * apply itemPositions_at_Z in E. lia.
    + destruct Hend as [[_ ->] | [[_ ->] | [_ (pos & E & _)]]]; try lia.
      apply itemPositions_at_Z in E. lia.
    + destruct Hend as [[_ ->] | [[_ ->] | [_ (pos & E & _)]]]; try lia.
      apply itemPositions_at_Z in E. lia.
    + intros Hc Hs Hs'.
      assert (exists first,
                 at_index positions startIndex = Some first
                 /\ overlaps first scrollTop (scrollTop + containerHeight))
        as (first & Efirst & Hfirst).
      { destruct Hstart as [[Hlt ->] | [[Hgt _] | [_ (first & Efirst & Hfirst)]]];
          [| lra |].
        - exists (entry itemHeight 0). split.
          + unfold positions. apply (@itemPositions_at _ _ _ itemHeight items 0%nat Hn).
          + unfold overlaps. rewrite entry_end. simpl.
            assert (offset itemHeight 0 <= offset itemHeight 1) as H01
                by (apply offset_mono with (count := length items); auto; lia).
            rewrite offset_0 in *. split; lra.
        - exists first. unfold overlaps, contains in *.
          split; [exact Efirst |]. split; lra. }
      assert (exists last,
                 at_index positions endIndex = Some last
                 /\ overlaps last scrollTop (scrollTop + containerHeight))
        as (last & Elast & Hlast).
      { destruct Hend as [[Hlt _] | [[Hgt Elast] | [_ (last & Elast & Hlast)]]];
          [lra | |].
        - exists (entry itemHeight (length items - 1)). split.
          + rewrite Elast. unfold lastIndex, positions.
            replace (Z.of_nat (length items) - 1)%Z
              with (Z.of_nat (length items - 1)) by lia.
            apply itemPositions_at. lia.
          + unfold overlaps. rewrite entry_end.
            replace (S (length items - 1)) with (length items) by lia.
            rewrite <- totalHeight_offset with (items := items). simpl.
            pose proof (@offset_le_total _ itemHeight items (length items - 1) Hh
                          ltac:(lia)).
            split; lra.
        - exists last. unfold overlaps, contains in *.
          split; [exact Elast |]. split; lra. }
      exists first, last. auto.
Qed.

Lemma visible_range_search_witness :
  exists first last,
    at_index (itemPositions [tt; tt; tt] (Fixed 50))
             (findStartIndex [tt; tt; tt] (Fixed 50) 40) = Some first
    /\ at_index (itemPositions [tt; tt; tt] (Fixed 50))
                (findEndIndex [tt; tt; tt] (Fixed 50) 40 60) = Some last
    /\ overlaps first 40 (40 + 60)
    /\ overlaps last 40 (40 + 60).
Proof.
  destruct (visible_range_search [tt; tt; tt] (Fixed 50) 3 40 60) as [_ H].
  destruct H as (_ & _ & _ & H).
  - intros i _. simpl. lra.
  - discriminate.
  - apply H.
    + lra.
    + vm_compute. discriminate.
    + lra.
Defined.

(** C2, as the specification has it, fails.  Scrolled beyond the last item,
    [findStartIndex] returns the length of the table, which is no index of
    it, so no entry is there to meet the viewport; and a viewport that ends
    above the first item gets the first item from [findEndIndex], whose
    entry does not meet it. *)
Lemma start_search_beyond_the_table :
  findStartIndex [tt; tt; tt] (Fixed 50) 200 = 3%Z
  /\ at_index (itemPositions [tt; tt; tt] (Fixed 50)) 3 = None
  /\ ~ (0 <= findStartIndex [tt; tt; tt] (Fixed 50%Q) 200%Q
        <= Z.of_nat (length [tt; tt; tt]) - 1)%Z
  /\ at_index (itemPositions [tt; tt; tt] (Fixed 50))
              (findEndIndex [tt; tt; tt] (Fixed 50) (-100) 10)
     = Some {| PositionEntry.start := 0; PositionEntry.end_ := 50;
               PositionEntry.size := 50 |}
  /\ ~ overlaps {| PositionEntry.start := 0; PositionEntry.end_ := 50;
                   PositionEntry.size := 50 |} (-100) (-100 + 10).
Proof.
  split; [reflexivity |]. split; [reflexivity |]. split.
  - vm_compute. intros [_ H]. now apply H.
  - split; [reflexivity |]. unfold overlaps. simpl. lra.
Qed.

(** C7, as the code has it.  On a list that is not empty a window taken
    with no overscan holds every index from 0 to [itemCount - 1], in order,
    - in exact arithmetic, at offset 0 through a viewport as high as the
      whole list, when no height is negative and the first and the last
      item have a positive height (heights of zero in between are
      permitted);
    - in any arithmetic, through a viewport whose height is not [=== 0],
      when, as the hook compares, the offset lies on the first entry of the
      table (no entry ends before it, every entry but the first starts after
      it) and the end of the viewport on the last (no entry starts after it,
      every entry but the last ends before it). *)
Theorem full_viewport_window {TItem : Type} (items : list TItem) :
  items <> [] ->
  (forall (itemHeight : ItemHeight Q) (scrollTop containerHeight : Q),
      nonnegative_heights itemHeight (length items) ->
      0 < getItemHeight itemHeight 0 ->
      0 < getItemHeight itemHeight (length items - 1) ->
      scrollTop == 0 -> containerHeight == totalHeight items itemHeight ->
      map VirtualItem.index
          (virtualItems items itemHeight 0 scrollTop containerHeight)
      = map Z.of_nat (seq 0 (length items)))
  /\ (forall (number : Type) (arithmetic : Arithmetic number)
             (itemHeight : ItemHeight number) (scrollTop containerHeight : number),
         eqb containerHeight zero = false ->
         lies_on_first (itemPositions items itemHeight) scrollTop ->
         lies_on_last (itemPositions items itemHeight)
                      (add scrollTop containerHeight) ->
         map VirtualItem.index
             (virtualItems items itemHeight 0 scrollTop containerHeight)
         = map Z.of_nat (seq 0 (length items))).
Proof.
  intros Hne. split.
  2:{ intros number arithmetic itemHeight scrollTop containerHeight.
      now apply full_window. }
  intros itemHeight scrollTop containerHeight Hh Hfirst Hlast Hs Hc.
  assert (0 < length items)%nat as Hn
      by (destruct items; simpl; [congruence | lia]).
  assert (0 < offset itemHeight 1) as Hone.
  { rewrite offset_S, offset_0. lra. }
  assert (offset itemHeight (length items - 1) < totalHeight items itemHeight)
    as Hbefore.
  { rewrite totalHeight_offset.
    replace (length items) with (S (length items - 1)) at 2 by lia.
    rewrite offset_S. lra. }
  assert (0 < totalHeight items itemHeight) as Htotal.
  { pose proof (@offset_le_total _ itemHeight items 1%nat Hh ltac:(lia)). lra. }
  assert (findStartIndex items itemHeight scrollTop = 0%Z) as Estart.
  { destruct (@findStartIndex_cases _ itemHeight items scrollTop Hh Hne)
      as [[_ E] | [[Hgt _] | [_ (pos & E & Hlo & _)]]]; [exact E | lra |].
    apply itemPositions_at_Z in E as [Hi ->]. simpl in Hlo.
    destruct (Z.to_nat (findStartIndex items itemHeight scrollTop)) as [| k] eqn:Ek;
      [lia |].
    assert (offset itemHeight 1 <= offset itemHeight (S k)) as Hle
        by (apply offset_mono with (count := length items); auto; lia).
    lra. }
  assert (findEndIndex items itemHeight scrollTop containerHeight
          = (Z.of_nat (length items) - 1)%Z) as Eend.
  { destruct (@findEndIndex_cases _ itemHeight items scrollTop containerHeight Hh Hne)
      as [[Hlt _] | [[_ E] | [_ (pos & E & _ & Hhi)]]]; [lra | exact E |].
    apply itemPositions_at_Z in E as [Hi ->]. rewrite entry_end in Hhi.
    destruct (Nat.eq_dec
                (S (Z.to_nat (findEndIndex items itemHeight scrollTop containerHeight)))
                (length items)) as [El | Hl]; [lia |].
    assert (offset itemHeight
                   (S (Z.to_nat (findEndIndex items itemHeight scrollTop
                                              containerHeight)))
            <= offset itemHeight (length items - 1)) as Hle
        by (apply offset_mono with (count := length items); auto; lia).
    lra. }
  unfold virtualItems. exact_arithmetic.
  replace (length items =? 0)%nat with false by (symmetry; apply Nat.eqb_neq; lia).
  replace (Qeq_bool containerHeight 0) with false.
  2:{ symmetry. apply not_true_iff_false. rewrite Qeq_bool_iff. lra. }
  simpl orb. cbv zeta. rewrite Estart, Eend.
  replace (Z.max 0 (0 - 0)) with (Z.of_nat 0) by lia.
  replace (Z.to_nat _) with (length items) by lia.
  apply window_loop_indices. lia.
Qed.

Lemma full_viewport_window_witness :
  map VirtualItem.index
      (virtualItems [tt; tt; tt]
                    (PerIndex (fun i => match i with 1%nat => 0 | _ => 50 end))
                    0 0 100)
  = [0; 1; 2]%Z
  /\ map VirtualItem.index
         (virtualItems [tt; tt; tt; tt; tt; tt] (Fixed 48.6%float)
                       0 0%float 291.60000000000002%float)
     = [0; 1; 2; 3; 4; 5]%Z.
Proof.
  split.
  - destruct (@full_viewport_window unit [tt; tt; tt] ltac:(discriminate))
      as [H _].
    apply (H (PerIndex (fun i => match i with 1%nat => 0 | _ => 50 end)) 0 100).
    + intros [| [| i]] _; simpl; lra.
    + simpl. lra.
    + simpl. lra.
    + reflexivity.
    + reflexivity.
  - destruct (@full_viewport_window unit [tt; tt; tt; tt; tt; tt]
                ltac:(discriminate)) as [_ H].
    apply (H _ double (Fixed 48.6%float) 0%float 291.60000000000002%float).
    + reflexivity.
    + unfold lies_on_first, lies_on_last. apply every_entry. intros k pos E.
      do 6 (destruct k as [| k]; [injection E as <-; split; reflexivity |]).
      destruct k; discriminate E.
    + unfold lies_on_first, lies_on_last. apply every_entry. intros k pos E.
      do 6 (destruct k as [| k]; [injection E as <-; split; reflexivity |]).
      destruct k; discriminate E.
Defined.

(** C7, as the specification has it, fails: with a last item of height 0 the
    search for the end stops on the item before it, whose entry already
    reaches the total extent, and the window misses the last index. *)
Lemma full_viewport_misses_zero_height_item :
  let items := [tt; tt] in
  let itemHeight := PerIndex (fun i => match i with O => 50 | S _ => 0 end) in
  totalHeight items itemHeight == 50
  /\ map VirtualItem.index (virtualItems items itemHeight 0 0 50) = [0%Z]
  /\ map VirtualItem.index (virtualItems items itemHeight 0 0 50)
     <> map Z.of_nat (seq 0 (length items)).
Proof.
  split; [reflexivity |]. split; [reflexivity | discriminate].
Qed.

(** In the arithmetic of the engine positive heights are not enough: an item
    of height 1 after one of height 1e17 leaves the running sum where it is,
    the first entry already reaches the total extent, and the window misses
    the second item. *)
Lemma tall_item_absorbs_short_one :
  let items := [tt; tt] in
  let itemHeight := PerIndex (fun i => match i with O => 1e17 | S _ => 1 end)%float in
  itemPositions items itemHeight
  = [{| PositionEntry.start := 0%float; PositionEntry.end_ := 1e17%float;
        PositionEntry.size := 1e17%float |};
     {| PositionEntry.start := 1e17%float; PositionEntry.end_ := 1e17%float;
        PositionEntry.size := 1%float |}]
  /\ totalHeight items itemHeight = 1e17%float
  /\ map VirtualItem.index (virtualItems items itemHeight 0 0%float 1e17%float)
     = [0%Z].
Proof. vm_compute. repeat split; reflexivity. Qed.

(** C8.  [scrollToIndex] does nothing for an index below 0 or not below the
    item count.  For any other index, on a mounted container scrolled
    locally, it sets the scroll offset to the target of the alignment,
    [entry.start], [entry.start - viewport/2 + entry.size/2] or
    [entry.end - viewport], raised to 0 when negative; and two instances
    with the same position index and viewport extent set the same offset for
    the same index and alignment. *)
Theorem scrollToIndex_target {TItem TItem' : Type}
  (items : list TItem) (items' : list TItem') (itemHeight itemHeight' : ItemHeight Q)
  (useWindowScroll : bool) (containerHeight scrollY scrollY' : Q)
  (container : option (Container Q)) (mounted mounted' : Container Q)
  (index : Z) (align : Align) :
  ((index < 0)%Z \/ (Z.of_nat (length items) <= index)%Z ->
   scrollToIndex items itemHeight useWindowScroll containerHeight
                 container scrollY index align = None)
  /\ ((0 <= index < Z.of_nat (length items))%Z ->
      exists pos target,
        at_index (itemPositions items itemHeight) index = Some pos
        /\ target = match align with
                    | AlignStart => PositionEntry.start pos
                    | AlignCenter =>
                      PositionEntry.start pos - containerHeight / 2
                      + PositionEntry.size pos / 2
                    | AlignEnd => PositionEntry.end_ pos - containerHeight
                    end
        /\ scrollToIndex items itemHeight false containerHeight
                         (Some mounted) scrollY index align
           = Some (SetScrollTop (Qmax 0 target))
        /\ 0 <= Qmax 0 target
        /\ (0 <= target -> Qmax 0 target == target))
  /\ (itemPositions items itemHeight = itemPositions items' itemHeight' ->
      scrollToIndex items itemHeight false containerHeight
                    (Some mounted) scrollY index align
      = scrollToIndex items' itemHeight' false containerHeight
                      (Some mounted') scrollY' index align).
Proof.
  split; [| split].
  - intros Hi. unfold scrollToIndex. exact_arithmetic. destruct container; [| reflexivity].
    replace ((index <? 0)%Z || (Z.of_nat (length items) <=? index)%Z) with true;
      [reflexivity |].
    symmetry. apply orb_true_iff. rewrite Z.ltb_lt, Z.leb_le. exact Hi.
  - intros Hi.
    destruct (at_index_in_range (itemPositions items itemHeight) (i := index))
      as [pos E]; [now rewrite itemPositions_length |].
    exists pos. eexists. split; [exact E |]. split; [reflexivity |].
    split; [| split].
    + unfold scrollToIndex. exact_arithmetic.
      replace ((index <? 0)%Z || (Z.of_nat (length items) <=? index)%Z) with false.
      * now rewrite E.
      * symmetry. apply orb_false_iff. rewrite Z.ltb_ge, Z.leb_gt. lia.
    + apply Q.le_max_l.
    + intros H. now apply Q.max_r.
  - intros E. unfold scrollToIndex. exact_arithmetic.
    rewrite <- (itemPositions_length itemHeight items).
    rewrite <- (itemPositions_length itemHeight' items').
    now rewrite E.
Qed.

Lemma scrollToIndex_target_witness :
  scrollToIndex [tt; tt; tt] (Fixed 50) true 100 None 0 3 AlignEnd = None
  /\ scrollToIndex [tt; tt; tt] (Fixed 50) false 25
                   (Some {| rect_top := 7 |}) 0 1 AlignCenter
     = scrollToIndex [1%nat; 2%nat; 3%nat] (PerIndex (fun _ => 50)) false 25
                     (Some {| rect_top := 9 |}) 11 1 AlignCenter
  /\ exists pos target,
      at_index (itemPositions [tt; tt; tt] (Fixed 50)) 1 = Some pos
      /\ target = PositionEntry.start pos - 25 / 2 + PositionEntry.size pos / 2
      /\ scrollToIndex [tt; tt; tt] (Fixed 50) false 25
                       (Some {| rect_top := 7 |}) 0 1 AlignCenter
         = Some (SetScrollTop (Qmax 0 target)).
Proof.
  destruct (scrollToIndex_target [tt; tt; tt] [1%nat; 2%nat; 3%nat]
              (Fixed 50) (PerIndex (fun _ => 50)) true 100 0 0 None
              {| rect_top := 7 |} {| rect_top := 9 |} 3 AlignEnd) as (H1 & _ & _).
  destruct (scrollToIndex_target [tt; tt; tt] [1%nat; 2%nat; 3%nat]
              (Fixed 50) (PerIndex (fun _ => 50)) false 25 0 11 None
              {| rect_top := 7 |} {| rect_top := 9 |} 1 AlignCenter)
    as (_ & H2 & H3).
  split; [apply H1; right; simpl; lia |].
  split; [apply H3; reflexivity |].
  destruct H2 as (pos & target & E & Et & Es & _); [simpl; lia |].
  exists pos, target. auto.
Defined.

End VirtualListFacts.

(* ===================================================================== *)
(** ** More properties of the pagination fetch controller *)
(* ===================================================================== *)

Module InfiniteListMore.
Import InfiniteList InfiniteListSpec InfiniteListFacts ControllerSpec.

Ltac unfold_fetch :=
  unfold fetchData_settle, fetchData_try, fetchData_catch, fetchData_finally,
    checkHasMore, bind, call, ret, get, modify in *.

Ltac case_split :=
  repeat match goal with
         | |- context [match ?x with _ => _ end] =>
           lazymatch x with
           | context [match _ with _ => _ end] => fail
           | _ => destruct x eqn:?; simpl
           end
         end.

Section Invariants.

Context {TData TItem : Type}.
Variable options : UseInfiniteListOptions TData TItem.

Lemma settle_coherent (isLoadMore : bool) (settled : completion TData)
  (s : State TData TItem) :
  coherent s -> coherent (fst (fetchData_settle options isLoadMore settled s)).
Proof.
  intros [Hi Hh]. unfold coherent. unfold_fetch.
  case_split; simpl; auto.
Qed.

Lemma settle_flags_guarded (isLoadMore : bool) (settled : completion TData)
  (s : State TData TItem) :
  flags_guarded (fst (fetchData_settle options isLoadMore settled s)).
Proof.
  destruct (fetchData_settle_flags options isLoadMore settled s) as (Hl & Hm & _).
  unfold flags_guarded. rewrite Hl, Hm. auto.
Qed.

Lemma start_coherent (isLoadMore : bool) (s s' : State TData TItem)
  (request : FetcherParams) :
  fetchData_start options isLoadMore s = Awaiting request s' ->
  coherent s -> coherent s'.
Proof.
  intros E [Hi Hh].
  apply fetchData_start_awaiting in E
    as (_ & _ & _ & Ei & Eir & _ & _ & Eh & Ehr & _).
  split; congruence.
Qed.

Lemma start_flags_guarded (isLoadMore : bool) (s s' : State TData TItem)
  (request : FetcherParams) :
  fetchData_start options isLoadMore s = Awaiting request s' ->
  flags_guarded s ->
  flags_guarded s'
  /\ isLoadingMore s' = isLoadMore /\ isLoading s' = negb isLoadMore.
Proof.
  unfold fetchData_start. destruct (isFetchingRef s) eqn:Ef; [discriminate |].
  destruct (isLoadMore && negb (hasMoreRef s)); [discriminate |].
  intros E [Hdown _]. destruct (Hdown Ef) as [Hl Hm].
  injection E as _ <-. unfold flags_guarded.
  destruct isLoadMore; simpl; rewrite ?Hl, ?Hm; repeat split; auto; discriminate.
Qed.

Lemma started_sound (o : Origin) (isLoadMore : bool) (w : World TData TItem) :
  sound w ->
  sound (started o isLoadMore (fetchData_start options isLoadMore (instance w)) w).
Proof.
  intros [Hc Hf].
  destruct (fetchData_start options isLoadMore (instance w))
    as [res | request s] eqn:E; [split; assumption |].
  split; simpl.
  - eapply start_coherent; eauto.
  - eapply start_flags_guarded; eauto.
Qed.

Lemma step_sound (w : World TData TItem) (e : Event TData) :
  sound w -> sound (step options w e).
Proof.
  intros Hw. destruct e as [enabled | a b | | | | id settled]; simpl.
  - unfold initialFetchEffect.
    destruct (enabled && negb (isInitializedRef (instance w))); [| exact Hw].
    assert (sound (with_instance (set_isInitializedRef true (instance w)) w)) as Hw'
        by exact Hw.
    pose proof (@started_sound FromEffect false _ Hw') as H. simpl in H.
    destruct (fetchData_start options false
                (set_isInitializedRef true (instance w))); [exact Hw' | exact H].
  - destruct (loadMore_cases options a b (instance w)) as [-> | ->];
      [exact Hw | now apply started_sound].
  - now apply started_sound.
  - split; [split; reflexivity |]. split; [intros _; split; reflexivity | reflexivity].
  - now apply started_sound.
  - destruct (existsb (Nat.eqb id) (inFlight w)); [| exact Hw].
    destruct (nth_error (sent w) id) as [request |]; [| exact Hw].
    destruct Hw as [Hc _]. split; simpl.
    + now apply settle_coherent.
    + apply settle_flags_guarded.
Qed.

Lemma reachable_sound (w : World TData TItem) : reachable options w -> sound w.
Proof.
  intros [trace ->]. unfold run.
  assert (sound (initialWorld options)) as H0.
  { split; [split; reflexivity |].
    split; [intros _; split; reflexivity | reflexivity]. }
  revert H0. generalize (initialWorld options).
  induction trace as [| e trace IH]; intros w H; [exact H |].
  simpl. apply IH. now apply step_sound.
Qed.

Lemma started_flags_name_request (o : Origin) (isLoadMore : bool)
  (w : World TData TItem) :
  single_flight w -> flags_guarded (instance w) -> flags_name_request w ->
  flags_name_request
    (started o isLoadMore (fetchData_start options isLoadMore (instance w)) w).
Proof.
  intros Hs Hf Hn.
  destruct (fetchData_start options isLoadMore (instance w))
    as [res | request s] eqn:E; [exact Hn |].
  pose proof (fetchData_start_awaiting options _ _ E) as (Hidle & _).
  destruct (@start_flags_guarded isLoadMore _ _ _ E Hf) as (_ & Hm & Hl).
  destruct Hs as [[Hin _] | (id' & _ & _ & Hb & _)]; [| congruence].
  intros id Hid. simpl in *. rewrite Hin in Hid. injection Hid as <-.
  eexists. split.
  - rewrite nth_error_app2 by lia. rewrite Nat.sub_diag. reflexivity.
  - simpl. auto.
Qed.

Lemma step_flags_name_request (w : World TData TItem) (e : Event TData) :
  (e = EvReset -> inFlight w = []) ->
  single_flight w -> flags_guarded (instance w) -> flags_name_request w ->
  flags_name_request (step options w e).
Proof.
  intros Hreset Hs Hf Hn.
  pose proof (@step_single_flight _ _ options w e Hreset Hs) as Hs'.
  destruct e as [enabled | a b | | | | id settled]; simpl in *.
  - unfold initialFetchEffect in *.
    destruct (enabled && negb (isInitializedRef (instance w))); [| exact Hn].
    pose proof (@started_flags_name_request FromEffect false
                  (with_instance (set_isInitializedRef true (instance w)) w)
                  (with_instance_single_flight _ eq_refl eq_refl Hs) Hf Hn) as H.
    simpl in H.
    destruct (fetchData_start options false
                (set_isInitializedRef true (instance w))); exact H.
  - destruct (loadMore_cases options a b (instance w)) as [-> | ->];
      [exact Hn | now apply started_flags_name_request].
  - now apply started_flags_name_request.
  - intros id Hid. simpl in Hid. rewrite Hreset in Hid by reflexivity. discriminate.
  - now apply started_flags_name_request.
  - destruct (existsb (Nat.eqb id) (inFlight w)) eqn:Ein; [| exact Hn].
    destruct (nth_error (sent w) id) as [request |]; [| exact Hn].
    destruct Hs as [[Hin _] | (id' & Hin & _)];
      [rewrite Hin in Ein; discriminate |].
    rewrite Hin in Ein. simpl in Ein. rewrite orb_false_r in Ein.
    apply Nat.eqb_eq in Ein as ->.
    intros id Hid. simpl in Hid. rewrite Hin in Hid. simpl in Hid.
    destruct (Nat.eq_dec id' id'); [discriminate | congruence].
Qed.

Lemma run_flags_name_request (trace : list (Event TData)) (w : World TData TItem) :
  resets_when_idle options w trace ->
  single_flight w -> sound w -> flags_name_request w ->
  flags_name_request (run options w trace).
Proof.
  revert w. induction trace as [| e trace IH]; intros w Hr Hs Hw Hn; [exact Hn |].
  destruct Hr as [Hreset Hr]. simpl. apply IH; auto.
  - now apply step_single_flight.
  - now apply step_sound.
  - apply step_flags_name_request; auto. apply Hw.
Qed.

Lemma start_mirrors (isLoadMore : bool) (s s' : State TData TItem)
  (request : FetcherParams) :
  fetchData_start options isLoadMore s = Awaiting request s' ->
  guard_mirrors_flags s'.
Proof.
  unfold fetchData_start. destruct (isFetchingRef s); [discriminate |].
  destruct (isLoadMore && negb (hasMoreRef s)); [discriminate |].
  intros E. injection E as _ <-. unfold guard_mirrors_flags.
  destruct isLoadMore; simpl; [now rewrite orb_true_r | reflexivity].
Qed.

Lemma started_mirrors (o : Origin) (isLoadMore : bool) (w : World TData TItem) :
  guard_mirrors_flags (instance w) ->
  guard_mirrors_flags
    (instance (started o isLoadMore
                 (fetchData_start options isLoadMore (instance w)) w)).
Proof.
  intros Hw.
  destruct (fetchData_start options isLoadMore (instance w))
    as [res | request s] eqn:E; [exact Hw |].
  simpl. eapply start_mirrors; eauto.
Qed.

Lemma step_mirrors (w : World TData TItem) (e : Event TData) :
  guard_mirrors_flags (instance w) ->
  guard_mirrors_flags (instance (step options w e)).
Proof.
  intros Hw. destruct e as [enabled | a b | | | | id settled]; simpl.
  - unfold initialFetchEffect.
    destruct (enabled && negb (isInitializedRef (instance w))); [| exact Hw].
    destruct (fetchData_start options false
                (set_isInitializedRef true (instance w)))
      as [res | request s] eqn:E; [exact Hw |].
    simpl. eapply start_mirrors; eauto.
  - destruct (loadMore_cases options a b (instance w)) as [-> | ->];
      [exact Hw | now apply started_mirrors].
  - now apply started_mirrors.
  - reflexivity.
  - now apply started_mirrors.
  - destruct (existsb (Nat.eqb id) (inFlight w)); [| exact Hw].
    destruct (nth_error (sent w) id) as [request |]; [| exact Hw].
    simpl.
    destruct (fetchData_settle_flags options (isLoadMore request) settled
                                     (instance w)) as (Hl & Hm & Hf & _).
    unfold guard_mirrors_flags. now rewrite Hl, Hm, Hf.
Qed.

Lemma run_mirrors (trace : list (Event TData)) (w : World TData TItem) :
  guard_mirrors_flags (instance w) ->
  guard_mirrors_flags (instance (run options w trace)).
Proof.
  revert w. induction trace as [| e trace IH]; intros w H; [exact H |].
  simpl. apply IH. now apply step_mirrors.
Qed.

Lemma settle_appends (settled : completion TData) (s : State TData TItem) :
  coherent s ->
  exists more,
    items (fst (fetchData_settle options true settled s)) = items s ++ more.
Proof.
  intros [Hi _]. unfold_fetch. case_split; simpl; rewrite <- ?Hi;
    solve [eexists; reflexivity | exists []; now rewrite app_nil_r].
Qed.

End Invariants.

Section Loop.

Context {TData TItem : Type}.
Variable options : UseInfiniteListOptions TData TItem.
Variable fetcher : nat -> FetcherParams -> completion TData.

Lemma loop_condition_true (targetCount maxAttempts attempts : Z)
  (s : State TData TItem) :
  loop_condition targetCount maxAttempts attempts s = true ->
  (Z.of_nat (length (itemsRef s)) < targetCount)%Z
  /\ hasMoreRef s = true /\ (attempts < maxAttempts)%Z.
Proof.
  unfold loop_condition. intros H.
  apply andb_true_iff in H as [H Hlt]. apply andb_true_iff in H as [Hc Hm].
  apply Z.ltb_lt in Hc, Hlt. auto.
Qed.

Lemma fetchData_start_sends (s : State TData TItem) :
  isFetchingRef s = false -> hasMoreRef s = true ->
  exists s1,
    fetchData_start options true s = Awaiting (params_of options s) s1.
Proof.
  intros Hf Hm. unfold fetchData_start, params_of. rewrite Hf, Hm. simpl.
  eexists. reflexivity.
Qed.

(** A continuation fetch whose request is rejected. *)
Lemma fetchData_rejected (r : Run TData TItem) (thrown : Thrown) :
  isFetchingRef (state r) = false -> hasMoreRef (state r) = true ->
  fetcher (length (requests r)) (params_of options (state r)) = Throw thrown ->
  let out := fetchData options fetcher true r in
  requests (fst out) = requests r ++ [params_of options (state r)]
  /\ (onError_returns options -> snd out = Normal (snapshot (state r)))
  /\ items (state (fst out)) = items (state r)
  /\ itemsRef (state (fst out)) = itemsRef (state r)
  /\ pageRef (state (fst out)) = pageRef (state r)
  /\ cursorRef (state (fst out)) = cursorRef (state r)
  /\ hasMoreRef (state (fst out)) = hasMoreRef (state r)
  /\ isFetchingRef (state (fst out)) = false
  /\ error (state (fst out)) = Some (normalizeError thrown).
Proof.
  intros Hf Hm Et. unfold fetchData, fetchData_start. rewrite Hf, Hm. simpl.
  unfold params_of in Et. simpl. rewrite Et. unfold_fetch.
  destruct (onError options) as [handler |] eqn:Eh; simpl.
  - assert (onError_returns options -> handler (normalizeError thrown) = Normal tt)
      as Hret by (intros H; now apply H).
    destruct (handler (normalizeError thrown)); simpl; repeat split;
      try exact Hm; intros H; specialize (Hret H); congruence.
  - repeat split; exact Hm.
Qed.

(** A continuation fetch called while another is outstanding. *)
Lemma fetchData_busy (r : Run TData TItem) :
  isFetchingRef (state r) = true ->
  fetchData options fetcher true r = (r, Normal (snapshot (state r))).
Proof.
  intros Hf. unfold fetchData.
  now rewrite (fetchData_start_busy options true (state r) Hf).
Qed.

(** A continuation fetch in page mode that is answered. *)
Lemma fetchData_page_answered (r : Run TData TItem) :
  isPagePagination options = true ->
  isFetchingRef (state r) = false -> hasMoreRef (state r) = true ->
  always_answers options fetcher ->
  let out := fetchData options fetcher true r in
  requests (fst out)
  = requests r ++ [PageFetcherParams (pageRef (state r)) (limit options)]
  /\ pageRef (state (fst out)) = (pageRef (state r) + 1)%Z
  /\ isFetchingRef (state (fst out)) = false.
Proof.
  intros Hp Hf Hm Ha. unfold fetchData, fetchData_start. rewrite Hf, Hm, Hp. simpl.
  destruct (Ha (length (requests r))
               (PageFetcherParams
                  (pageRef (setError None
                              (setIsLoadingMore true
                                 (set_isFetchingRef true (state r)))))
                  (limit options)))
    as (response & newItems & Ef & Eg).
  simpl in Ef. rewrite Ef. unfold_fetch. rewrite Hp, Eg.
  case_split; simpl; repeat split.
Qed.

(** The loop makes no pass exactly when its condition fails on entry. *)
Lemma loop_no_pass (targetCount maxAttempts attempts0 : Z) (r : Run TData TItem) :
  let out := loadUntilCount_loop options fetcher targetCount maxAttempts attempts0 r in
  (loop_condition targetCount maxAttempts attempts0 (state r) = false ->
   out = (r, [], Normal tt))
  /\ (loop_condition targetCount maxAttempts attempts0 (state r) = true ->
      snd (fst out) <> []).
Proof.
  funelim (loadUntilCount_loop options fetcher targetCount maxAttempts attempts0 r);
    cbv zeta; simpl fst; simpl snd; split; intros Hc;
    solve [reflexivity | congruence | discriminate].
Qed.

Lemma loop_rejected (targetCount maxAttempts attempts0 : Z) (r : Run TData TItem) :
  always_rejects fetcher -> onError_returns options ->
  isFetchingRef (state r) = false -> hasMoreRef (state r) = true ->
  (Z.of_nat (length (itemsRef (state r))) < targetCount)%Z ->
  let out := loadUntilCount_loop options fetcher targetCount maxAttempts attempts0 r in
  length (snd (fst out)) = Z.to_nat (maxAttempts - attempts0)
  /\ requests (fst (fst out))
     = requests r ++ repeat (params_of options (state r)) (length (snd (fst out)))
  /\ items (state (fst (fst out))) = items (state r)
  /\ itemsRef (state (fst (fst out))) = itemsRef (state r)
  /\ pageRef (state (fst (fst out))) = pageRef (state r)
  /\ cursorRef (state (fst (fst out))) = cursorRef (state r)
  /\ hasMoreRef (state (fst (fst out))) = true
  /\ (snd (fst out) <> [] -> error (state (fst (fst out))) <> None)
  /\ snd out = Normal tt.
Proof.
  funelim (loadUntilCount_loop options fetcher targetCount maxAttempts attempts0 r);
    intros Hrej Hret Hf Hm Hc; cbv zeta; simpl fst; simpl snd;
    try (destruct (Hrej (length (requests r)) (params_of options (state r)))
          as [rejection Et];
         pose proof (fetchData_rejected r Hf Hm Et)
           as (Hreq & Hres & Hi & Hir & Hp & Hcu & Hh & Hf' & He);
         specialize (Hres Hret);
         match goal with
         | Ef : fetchData options fetcher true r = _ |- _ =>
           rewrite Ef in *; simpl in *
         end).
  - (* the loop condition fails: no attempt is left *)
    match goal with
    | E : loop_condition _ _ _ _ = false |- _ =>
      pose proof E as Hexit; unfold loop_condition in Hexit;
        rewrite Hm in Hexit; apply Z.ltb_lt in Hc; rewrite Hc in Hexit;
        simpl in Hexit; apply Z.ltb_ge in Hexit
    end.
    replace (Z.to_nat (maxAttempts - attempts0)) with 0%nat by lia. simpl.
    rewrite app_nil_r. repeat split; auto.
  - (* the catch block leaves the rejection behind *)
    discriminate.
  - (* the fetch is rejected and the loop goes round *)
    destruct (loop_condition_true _ _ _ _ Hcond) as (_ & _ & Hlt).
    match goal with
    | IH : always_rejects _ -> _ |- _ =>
      destruct IH as (Hlen & Hreq' & Hi' & Hir' & Hp' & Hcu' & Hh' & He' & Hdone);
        [exact Hrej | exact Hret | exact Hf' | congruence
        | rewrite Hir; exact Hc |]
    end.
    assert (params_of options (state r') = params_of options (state r)) as Epar
        by (unfold params_of; now rewrite Hp, Hcu).
    split; [rewrite Hlen; lia |].
    split; [rewrite Hreq', Hreq, Epar, <- app_assoc; reflexivity |].
    repeat split; try congruence.
    intros _.
    destruct (loop_condition targetCount maxAttempts (attempts0 + 1) (state r'))
      eqn:Enext.
    + apply He'. now apply loop_no_pass.
    + rewrite (proj1 (loop_no_pass targetCount maxAttempts (attempts0 + 1) r')
                     Enext).
      simpl. congruence.
  - (* a rejected fetch cannot report that nothing is left *)
    exfalso. injection Hres as ->. simpl in *. congruence.
Qed.

Lemma loop_busy (targetCount maxAttempts attempts0 : Z) (r : Run TData TItem) :
  isFetchingRef (state r) = true -> hasMoreRef (state r) = true ->
  (Z.of_nat (length (itemsRef (state r))) < targetCount)%Z ->
  let out := loadUntilCount_loop options fetcher targetCount maxAttempts attempts0 r in
  fst (fst out) = r
  /\ length (snd (fst out)) = Z.to_nat (maxAttempts - attempts0)
  /\ Forall (fun p => entered p = r /\ returned p = Normal (snapshot (state r)))
            (snd (fst out))
  /\ snd out = Normal tt.
Proof.
  funelim (loadUntilCount_loop options fetcher targetCount maxAttempts attempts0 r);
    intros Hf Hm Hc; cbv zeta; simpl fst; simpl snd;
    try match goal with
        | Ef : fetchData options fetcher true r = _ |- _ =>
          rewrite (fetchData_busy r Hf) in Ef
        end.
  - match goal with
    | E : loop_condition _ _ _ _ = false |- _ =>
      pose proof E as Hexit; unfold loop_condition in Hexit;
        rewrite Hm in Hexit; apply Z.ltb_lt in Hc; rewrite Hc in Hexit;
        simpl in Hexit; apply Z.ltb_ge in Hexit
    end.
    replace (Z.to_nat (maxAttempts - attempts0)) with 0%nat by lia. auto.
  - discriminate.
  - destruct (loop_condition_true _ _ _ _ Hcond) as (_ & _ & Hlt).
    match goal with
    | Ef : (_, _) = (_, _) |- _ => injection Ef as <- <-
    end.
    match goal with
    | IH : isFetchingRef _ = true -> _ |- _ =>
      destruct (IH Hf Hm Hc) as (Hr & Hlen & Hall & Hdone)
    end.
    split; [exact Hr |]. split; [simpl length; rewrite Hlen; lia |].
    split; [| exact Hdone].
    constructor; [split; reflexivity | exact Hall].
  - exfalso.
    match goal with
    | Ef : (_, _) = (_, _) |- _ => injection Ef as <- <-
    end.
    simpl in *. congruence.
Qed.

Lemma loop_pages (targetCount maxAttempts attempts0 : Z) (r : Run TData TItem) :
  isPagePagination options = true ->
  always_answers options fetcher ->
  isFetchingRef (state r) = false ->
  let out := loadUntilCount_loop options fetcher targetCount maxAttempts attempts0 r in
  requests (fst (fst out))
  = requests r
    ++ map (fun k => PageFetcherParams (pageRef (state r) + Z.of_nat k)
                                       (limit options))
           (seq 0 (length (snd (fst out))))
  /\ pageRef (state (fst (fst out)))
     = (pageRef (state r) + Z.of_nat (length (snd (fst out))))%Z
  /\ isFetchingRef (state (fst (fst out))) = false.
Proof.
  funelim (loadUntilCount_loop options fetcher targetCount maxAttempts attempts0 r);
    intros Hp Ha Hf; cbv zeta; simpl fst; simpl snd;
    try (destruct (loop_condition_true _ _ _ _ Hcond) as (_ & Hm & _);
         pose proof (fetchData_page_answered r Hp Hf Hm Ha)
           as (Hreq & Hpage & Hf');
         match goal with
         | Ef : fetchData options fetcher true r = _ |- _ =>
           rewrite Ef in *; simpl in *
         end).
  - simpl. rewrite app_nil_r, Z.add_0_r. auto.
  - rewrite Z.add_0_r. auto.
  - match goal with
    | IH : _ -> _ -> _ -> _ /\ _ |- _ =>
      destruct IH as (Hreq' & Hpage' & Hf''); [assumption .. |]
    end.
    split; [| split; [rewrite Hpage', Hpage; lia | exact Hf'']].
    rewrite Hreq', Hreq, <- app_assoc. simpl. rewrite Z.add_0_r.
    do 2 f_equal. rewrite <- seq_shift, map_map. apply map_ext. intros k.
    rewrite Hpage. f_equal. lia.
  - rewrite Z.add_0_r. auto.
Qed.

End Loop.

(** X1.  Whatever has happened to an instance, resets and overlapping
    fetches included, the rendered [items] and [hasMore] are the ones the
    refs hold, so the snapshot a load operation returns describes what is
    rendered. *)
Theorem state_agrees_with_refs {TData TItem : Type}
  (options : UseInfiniteListOptions TData TItem) (trace : list (Event TData)) :
  let s := instance (run options (initialWorld options) trace) in
  items s = itemsRef s
  /\ hasMore s = hasMoreRef s
  /\ snapshot s = {| LoadResult.itemsCount := length (items s);
                     LoadResult.hasMore := hasMore s |}.
Proof.
  intros s.
  destruct (@reachable_sound _ _ options _ (ex_intro _ trace eq_refl))
    as [[Hi Hh] _].
  fold s in Hi, Hh. unfold snapshot. rewrite Hi, Hh. auto.
Qed.

(** X2.  [isLoading] and [isLoadingMore] are never both up, and both are
    down whenever the in-flight guard is down, whatever has happened to the
    instance.  When [reset] is only called while nothing is outstanding, the
    flags name the outstanding request: [isLoadingMore] for a continuation
    fetch, [isLoading] for an initial one, neither when there is none. *)
Theorem loading_flags_exclusive {TData TItem : Type}
  (options : UseInfiniteListOptions TData TItem) (trace : list (Event TData)) :
  let w := run options (initialWorld options) trace in
  isLoading (instance w) && isLoadingMore (instance w) = false
  /\ (isFetchingRef (instance w) = false ->
      isLoading (instance w) = false /\ isLoadingMore (instance w) = false)
  /\ (resets_when_idle options (initialWorld options) trace ->
      (inFlight w = [] ->
       isLoading (instance w) = false /\ isLoadingMore (instance w) = false)
      /\ forall id,
          In id (inFlight w) ->
          exists request,
            nth_error (sent w) id = Some request
            /\ isLoadingMore (instance w) = isLoadMore request
            /\ isLoading (instance w) = negb (isLoadMore request)).
Proof.
  intros w.
  destruct (@reachable_sound _ _ options _ (ex_intro _ trace eq_refl))
    as [_ [Hdown Hboth]].
  fold w in Hdown, Hboth. split; [exact Hboth |]. split; [exact Hdown |].
  intros Hr.
  pose proof (@run_single_flight _ _ options trace _ Hr
                (initialWorld_single_flight options)) as Hs.
  assert (flags_name_request w) as Hn.
  { apply run_flags_name_request; auto.
    - apply initialWorld_single_flight.
    - apply (@reachable_sound _ _ options). now exists [].
    - intros id Hid. discriminate. }
  fold w in Hs. destruct Hs as [[Hin Hidle] | (id' & Hin & _)].
  - split; [intros _; now apply Hdown |]. intros id Hid. rewrite Hin in Hid.
    destruct Hid.
  - split; [rewrite Hin; discriminate |]. intros id Hid. rewrite Hin in Hid.
    destruct Hid as [<- | []]. now apply Hn.
Qed.

Lemma loading_flags_exclusive_witness :
  let w := run sample_pages (initialWorld sample_pages)
               [EvEffect true; EvSettle 0 (Normal [1; 2; 3]%nat);
                EvReset; EvLoadMore false false] in
  exists request,
    nth_error (sent w) 1 = Some request
    /\ isLoadingMore (instance w) = isLoadMore request
    /\ isLoading (instance w) = negb (isLoadMore request).
Proof.
  destruct (@loading_flags_exclusive (list nat) nat sample_pages
              [EvEffect true; EvSettle 0 (Normal [1; 2; 3]%nat);
               EvReset; EvLoadMore false false]) as (_ & _ & H).
  destruct H as [_ H].
  - vm_compute. repeat split; intros E; try discriminate E; reflexivity.
  - apply H. vm_compute. now left.
Defined.

(** X3.  Short of a [reset], nothing but the settlement of an initial
    ([isLoadMore = false]) fetch removes or reorders loaded items: every
    other event, the settlement of a continuation fetch included (whether it
    succeeds or fails), leaves the items already loaded as a prefix of the
    items. *)
Theorem continuation_keeps_loaded_items {TData TItem : Type}
  (options : UseInfiniteListOptions TData TItem) (trace : list (Event TData))
  (e : Event TData) :
  let w := run options (initialWorld options) trace in
  e <> EvReset ->
  (forall id settled request,
      e = EvSettle id settled -> nth_error (sent w) id = Some request ->
      isLoadMore request = true) ->
  exists more,
    items (instance (step options w e)) = items (instance w) ++ more.
Proof.
  intros w Hr Hcont.
  destruct (@reachable_sound _ _ options _ (ex_intro _ trace eq_refl))
    as [Hc _].
  fold w in Hc.
  assert (forall o isLoadMore,
             exists more,
               items (instance (started o isLoadMore
                                  (fetchData_start options isLoadMore (instance w)) w))
               = items (instance w) ++ more) as Hstart.
  { intros o isLoadMore.
    destruct (fetchData_start options isLoadMore (instance w))
      as [res | request s] eqn:E; exists []; rewrite app_nil_r; [reflexivity |].
    now apply fetchData_start_awaiting in E as (_ & _ & _ & E & _). }
  destruct e as [enabled | a b | | | | id settled]; simpl.
  - unfold initialFetchEffect.
    destruct (enabled && negb (isInitializedRef (instance w)));
      [| exists []; now rewrite app_nil_r].
    exists []. rewrite app_nil_r.
    destruct (fetchData_start options false
                (set_isInitializedRef true (instance w)))
      as [res | request s] eqn:E; [reflexivity |].
    now apply fetchData_start_awaiting in E as (_ & _ & _ & E & _).
  - destruct (loadMore_cases options a b (instance w)) as [-> | ->];
      [exists []; now rewrite app_nil_r | apply Hstart].
  - apply Hstart.
  - congruence.
  - apply Hstart.
  - destruct (existsb (Nat.eqb id) (inFlight w)); [| exists []; now rewrite app_nil_r].
    destruct (nth_error (sent w) id) as [request |] eqn:En;
      [| exists []; now rewrite app_nil_r].
    rewrite (Hcont id settled request eq_refl En). simpl.
    now apply settle_appends.
Qed.

Lemma continuation_keeps_loaded_items_witness :
  let w := run sample_always_more (initialWorld sample_always_more)
               [EvEffect true; EvSettle 0 (Normal [1; 2; 3]%nat);
                EvLoadMore false false] in
  let w' := step sample_always_more w (EvSettle 1 (Normal [4; 5]%nat)) in
  inFlight w = [1%nat]
  /\ nth_error (sent w) 1
     = Some {| origin := FromLoadMore; isLoadMore := true;
               params := PageFetcherParams 2 20 |}
  /\ items (instance w) = [1; 2; 3]%nat
  /\ items (instance w') = [1; 2; 3; 4; 5]%nat
  /\ exists more, items (instance w') = items (instance w) ++ more.
Proof.
  intros w w'.
  split; [reflexivity |]. split; [reflexivity |]. split; [reflexivity |].
  split; [reflexivity |].
  apply (@continuation_keeps_loaded_items (list nat) nat sample_always_more
           [EvEffect true; EvSettle 0 (Normal [1; 2; 3]%nat);
            EvLoadMore false false]
           (EvSettle 1 (Normal [4; 5]%nat))).
  - discriminate.
  - intros id settled request E. inversion E; subst. vm_compute.
    intros E'. now inversion E'.
Defined.

(** X4.  What a settled fetch does to the page and to the cursor.  In page
    mode the cursor is never written, and the page moves on by exactly one
    when the fetcher answered and [getData] returned, even if a later
    extractor throws, and stays when the fetcher failed or [getData] threw.
    In cursor mode the page is never written, and the cursor becomes what
    [getNextCursor] returns on the response, and stays when there is no such
    extractor or anything up to it threw. *)
Theorem page_and_cursor_progress {TData TItem : Type}
  (options : UseInfiniteListOptions TData TItem)
  (isLoadMore : bool) (settled : completion TData) (s : State TData TItem) :
  let s' := fst (fetchData_settle options isLoadMore settled s) in
  (isPagePagination options = true ->
   cursorRef s' = cursorRef s
   /\ (forall response newItems,
          settled = Normal response ->
          getData options response = Normal newItems ->
          pageRef s' = (pageRef s + 1)%Z)
   /\ ((exists thrown,
           settled = Throw thrown
           \/ exists response,
               settled = Normal response
               /\ getData options response = Throw thrown) ->
       pageRef s' = pageRef s))
  /\ (isPagePagination options = false ->
      pageRef s' = pageRef s
      /\ (forall response newItems extractor nextCursor,
             settled = Normal response ->
             getData options response = Normal newItems ->
             getNextCursor options = Some extractor ->
             extractor response = Normal nextCursor ->
             cursorRef s' = nextCursor)
      /\ (getNextCursor options = None
          \/ (exists thrown,
                 settled = Throw thrown
                 \/ exists response,
                     settled = Normal response
                     /\ (getData options response = Throw thrown
                         \/ exists extractor,
                             getNextCursor options = Some extractor
                             /\ extractor response = Throw thrown)) ->
          cursorRef s' = cursorRef s)).
Proof.
  intros s'. subst s'. split; intros Hmode.
  - split; [| split].
    + unfold_fetch. rewrite Hmode. case_split; reflexivity.
    + intros response newItems -> Eg. unfold_fetch. rewrite Hmode, Eg.
      case_split; reflexivity.
    + intros (thrown & [-> | (response & -> & Eg)]); unfold_fetch;
        rewrite ?Eg; case_split; reflexivity.
  - split; [| split].
    + unfold_fetch. rewrite Hmode. case_split; reflexivity.
    + intros response newItems extractor nextCursor -> Eg Ec En.
      unfold_fetch. rewrite Hmode, Eg, Ec, En. case_split; reflexivity.
    + intros [Ec | (thrown & [-> | (response & -> & [Eg | (extractor & Ec & En)])])];
        unfold_fetch; rewrite ?Hmode, ?Ec, ?Eg, ?En; case_split; reflexivity.
Qed.

Lemma page_and_cursor_progress_witness :
  pageRef (fst (fetchData_settle sample_total_throwing false
                  (Normal [1; 2; 3]%nat) (initialState sample_total_throwing)))
  = (pageRef (initialState sample_total_throwing) + 1)%Z.
Proof.
  destruct (@page_and_cursor_progress (list nat) nat sample_total_throwing false
              (Normal [1; 2; 3]%nat) (initialState sample_total_throwing))
    as [H _].
  destruct (H eq_refl) as (_ & H1 & _).
  apply (H1 [1; 2; 3]%nat [1; 2; 3]%nat); reflexivity.
Defined.

(** X5.  A fetch made right after [reset], as [refresh] makes it, is a first
    fetch: from whatever state, it sends the request a new instance sends,
    returns what a new instance returns for the same answer, and leaves the
    state a new instance is left in; only the record of earlier callback
    calls tells them apart. *)
Theorem refresh_is_a_first_fetch {TData TItem : Type}
  (options : UseInfiniteListOptions TData TItem)
  (fetcher : nat -> FetcherParams -> completion TData)
  (s : State TData TItem) (asked : list FetcherParams) :
  let refreshed :=
    fetchData options fetcher false
              {| state := reset options s; requests := asked |} in
  let first :=
    fetchData options fetcher false
              {| state := initialState options; requests := asked |} in
  snd refreshed = snd first
  /\ requests (fst refreshed) = requests (fst first)
  /\ agree_but_calls (state (fst refreshed)) (state (fst first))
  /\ calls (state (fst refreshed)) = calls s ++ calls (state (fst first)).
Proof.
  unfold fetchData, fetchData_start, reset, initialState. simpl.
  set (settled := fetcher (length asked) _).
  unfold agree_but_calls. unfold_fetch. simpl.
  case_split; simpl; rewrite ?app_nil_r, <- ?app_assoc; repeat split;
    reflexivity.
Qed.

(** X6.  [loadUntilCount] goes through its loop at least once exactly when,
    on entry, fewer than [targetCount] items are loaded, [hasMoreRef] is up
    and [maxAttempts] is positive.  Otherwise it calls [fetchData] not at
    all, leaves the instance and the request log as they are and returns the
    current snapshot. *)
Theorem loadUntilCount_nothing_to_do {TData TItem : Type}
  (options : UseInfiniteListOptions TData TItem)
  (fetcher : nat -> FetcherParams -> completion TData)
  (targetCount maxAttempts : Z) (r : Run TData TItem) :
  let '(r', passes, result) :=
    loadUntilCount options fetcher targetCount maxAttempts r in
  (passes = []
   <-> (targetCount <= Z.of_nat (length (itemsRef (state r)))
        \/ hasMoreRef (state r) = false \/ maxAttempts <= 0)%Z)
  /\ (passes = [] -> r' = r /\ result = Normal (snapshot (state r))).
Proof.
  unfold loadUntilCount.
  pose proof (@loop_no_pass _ _ options fetcher targetCount maxAttempts 0%Z r)
    as [Hnone Hsome].
  cbv zeta in Hnone, Hsome.
  assert (loop_condition targetCount maxAttempts 0 (state r) = false
          <-> (targetCount <= Z.of_nat (length (itemsRef (state r)))
               \/ hasMoreRef (state r) = false \/ maxAttempts <= 0)%Z) as Hcond.
  { unfold loop_condition. rewrite !andb_false_iff, !Z.ltb_ge. tauto. }
  destruct (loop_condition targetCount maxAttempts 0 (state r)) eqn:Ec.
  - specialize (Hsome eq_refl).
    destruct (loadUntilCount_loop options fetcher targetCount maxAttempts 0 r)
      as [[r' passes] completed].
    simpl in Hsome. split; [| intros E; contradiction].
    split; [intros E; contradiction |].
    intros H. apply Hcond in H. discriminate.
  - rewrite (Hnone eq_refl). split; [| auto].
    split; [intros _; now apply Hcond | reflexivity].
Qed.

(** X7.  When the fetcher rejects every request and [onError], if there is
    one, returns, [loadUntilCount] called on an idle instance that has more
    to load and fewer than [targetCount] items does not stop at the first
    failure: it goes through the loop [max(0, maxAttempts)] times, sends the
    same request each time (the page and the cursor do not move), keeps the
    items, and returns the snapshot it started from; if it made any attempt
    an error is stored. *)
Theorem loadUntilCount_retries_rejected_request {TData TItem : Type}
  (options : UseInfiniteListOptions TData TItem)
  (fetcher : nat -> FetcherParams -> completion TData)
  (targetCount maxAttempts : Z) (r : Run TData TItem) :
  always_rejects fetcher -> onError_returns options ->
  isFetchingRef (state r) = false -> hasMoreRef (state r) = true ->
  (Z.of_nat (length (itemsRef (state r))) < targetCount)%Z ->
  let '(r', passes, result) :=
    loadUntilCount options fetcher targetCount maxAttempts r in
  length passes = Z.to_nat maxAttempts
  /\ requests r'
     = requests r ++ repeat (params_of options (state r)) (Z.to_nat maxAttempts)
  /\ items (state r') = items (state r)
  /\ itemsRef (state r') = itemsRef (state r)
  /\ pageRef (state r') = pageRef (state r)
  /\ cursorRef (state r') = cursorRef (state r)
  /\ result = Normal (snapshot (state r))
  /\ ((0 < maxAttempts)%Z -> error (state r') <> None).
Proof.
  intros Hrej Hret Hf Hm Hc. unfold loadUntilCount.
  pose proof (@loop_rejected _ _ options fetcher targetCount maxAttempts 0%Z r
                Hrej Hret Hf Hm Hc)
    as (Hlen & Hreq & Hi & Hir & Hp & Hcu & Hh & He & Hdone).
  cbv zeta in *.
  destruct (loadUntilCount_loop options fetcher targetCount maxAttempts 0 r)
    as [[r' passes] completed].
  simpl in *. rewrite Z.sub_0_r in Hlen. rewrite Hlen in Hreq. subst completed.
  repeat (split; [assumption |]).
  split; [unfold snapshot; now rewrite Hir, Hh, Hm |].
  intros Hpos. apply He. intros E. rewrite E in Hlen. simpl in Hlen. lia.
Qed.

Lemma loadUntilCount_retries_rejected_request_witness :
  let fetcher := fun (k : nat) (request : FetcherParams) =>
                   @Throw (list nat) (ThrownValue "offline") in
  let '(r', passes, result) :=
    loadUntilCount sample_cursors fetcher 50 3
                   {| state := initialState sample_cursors; requests := [] |} in
  length passes = Z.to_nat 3
  /\ requests r'
     = [] ++ repeat (params_of sample_cursors (initialState sample_cursors))
                    (Z.to_nat 3)
  /\ items (state r') = []
  /\ itemsRef (state r') = []
  /\ pageRef (state r') = 1%Z
  /\ cursorRef (state r') = Null
  /\ result = Normal (snapshot (initialState sample_cursors))
  /\ ((0 < 3)%Z -> error (state r') <> None).
Proof.
  intros fetcher.
  refine (@loadUntilCount_retries_rejected_request _ _ sample_cursors fetcher 50 3
            {| state := initialState sample_cursors; requests := [] |} _ _ _ _ _).
  - intros k request. now exists (ThrownValue "offline").
  - intros handler error E. injection E as <-. reflexivity.
  - reflexivity.
  - reflexivity.
  - vm_compute. reflexivity.
Defined.

(** X8.  [loadUntilCount] called while another fetch is outstanding, and not
    settling meanwhile, on an instance that has more to load and fewer than
    [targetCount] items: every pass finds the guard up, so [fetchData]
    returns at once; the loop uses up all [max(0, maxAttempts)] attempts,
    sends nothing, changes nothing and returns the snapshot it started
    from. *)
Theorem loadUntilCount_while_fetching {TData TItem : Type}
  (options : UseInfiniteListOptions TData TItem)
  (fetcher : nat -> FetcherParams -> completion TData)
  (targetCount maxAttempts : Z) (r : Run TData TItem) :
  isFetchingRef (state r) = true -> hasMoreRef (state r) = true ->
  (Z.of_nat (length (itemsRef (state r))) < targetCount)%Z ->
  let '(r', passes, result) :=
    loadUntilCount options fetcher targetCount maxAttempts r in
  r' = r
  /\ length passes = Z.to_nat maxAttempts
  /\ Forall (fun p => entered p = r /\ returned p = Normal (snapshot (state r)))
            passes
  /\ result = Normal (snapshot (state r)).
Proof.
  intros Hf Hm Hc. unfold loadUntilCount.
  pose proof (@loop_busy _ _ options fetcher targetCount maxAttempts 0%Z r
                Hf Hm Hc)
    as (Hr & Hlen & Hall & Hdone).
  cbv zeta in *.
  destruct (loadUntilCount_loop options fetcher targetCount maxAttempts 0 r)
    as [[r' passes] completed].
  simpl in *. rewrite Z.sub_0_r in Hlen. subst r' completed. auto.
Qed.

Lemma loadUntilCount_while_fetching_witness :
  let r := {| state := set_isFetchingRef true (initialState sample_pages);
              requests := [] |} in
  let '(r', passes, result) := loadUntilCount sample_pages twenty_each 50 4 r in
  r' = r
  /\ length passes = Z.to_nat 4
  /\ Forall (fun p => entered p = r /\ returned p = Normal (snapshot (state r)))
            passes
  /\ result = Normal (snapshot (state r)).
Proof.
  intros r.
  refine (@loadUntilCount_while_fetching _ _ sample_pages twenty_each 50 4 r _ _ _).
  - reflexivity.
  - reflexivity.
  - vm_compute. reflexivity.
Defined.

(** X9.  In page mode, with a fetcher that answers every request and a
    [getData] that returns, [loadUntilCount] called on an idle instance asks
    for consecutive pages, one per pass, starting at the current page, each
    with the configured limit; afterwards the page counter has advanced by
    the number of passes and the guard is down. *)
Theorem loadUntilCount_consecutive_pages {TData TItem : Type}
  (options : UseInfiniteListOptions TData TItem)
  (fetcher : nat -> FetcherParams -> completion TData)
  (targetCount maxAttempts : Z) (r : Run TData TItem) :
  isPagePagination options = true ->
  always_answers options fetcher ->
  isFetchingRef (state r) = false ->
  let '(r', passes, result) :=
    loadUntilCount options fetcher targetCount maxAttempts r in
  requests r'
  = requests r
    ++ map (fun k => PageFetcherParams (pageRef (state r) + Z.of_nat k)
                                       (limit options))
           (seq 0 (length passes))
  /\ pageRef (state r') = (pageRef (state r) + Z.of_nat (length passes))%Z
  /\ isFetchingRef (state r') = false.
Proof.
  intros Hp Ha Hf. unfold loadUntilCount.
  pose proof (@loop_pages _ _ options fetcher targetCount maxAttempts 0%Z r
                Hp Ha Hf) as H.
  cbv zeta in H.
  destruct (loadUntilCount_loop options fetcher targetCount maxAttempts 0 r)
    as [[r' passes] completed].
  exact H.
Qed.

Lemma loadUntilCount_consecutive_pages_witness :
  let r := {| state := initialState sample_pages; requests := [] |} in
  let '(r', passes, result) := loadUntilCount sample_pages twenty_each 50 10 r in
  requests r'
  = [] ++ map (fun k => PageFetcherParams (1 + Z.of_nat k) 20)
              (seq 0 (length passes))
  /\ pageRef (state r') = (1 + Z.of_nat (length passes))%Z
  /\ isFetchingRef (state r') = false.
Proof.
  intros r.
  refine (@loadUntilCount_consecutive_pages _ _ sample_pages twenty_each 50 10 r
            _ _ _).
  - reflexivity.
  - intros k request. exists (repeat k 20), (repeat k 20). split; reflexivity.
  - reflexivity.
Defined.

(** X10.  How a fetch that has sent its request reports its outcome.  When
    the [try] block runs to its end, [onSuccess] (if there is one) has been
    called once, with the response and the items as stored, and [onError] is
    not called.  When the [try] block throws, [onError] (if there is one) is
    called once, with the error as stored.  Both callbacks are called for
    one fetch exactly when it is [onSuccess] that throws: then [onSuccess]
    was called first, after the items were stored, and [onError] gets what
    it threw. *)
Theorem fetch_reports_its_outcome {TData TItem : Type}
  (options : UseInfiniteListOptions TData TItem) (isLoadMore : bool)
  (settled : completion TData) (s : State TData TItem) :
  let s' := fst (fetchData_settle options isLoadMore settled s) in
  let reports_error thrown :=
    match onError options with
    | Some _ => [OnError (normalizeError thrown)]
    | None => []
    end in
  match fetchData_try options isLoadMore settled s, settled with
  | (_, Normal _), Normal response =>
    calls s'
    = calls s ++ match onSuccess options with
                 | Some _ => [OnSuccess response (items s')]
                 | None => []
                 end
  | (_, Normal _), Throw _ => False
  | (s1, Throw thrown), _ =>
    error s' = Some (normalizeError thrown)
    /\ ((calls s1 = calls s /\ calls s' = calls s ++ reports_error thrown)
        \/ exists response handler,
            settled = Normal response
            /\ onSuccess options = Some handler
            /\ handler response (items s') = Throw thrown
            /\ calls s'
               = calls s ++ OnSuccess response (items s') :: reports_error thrown)
  end.
Proof.
  unfold_fetch. destruct settled as [response | thrown]; simpl.
  - case_split; simpl; rewrite ?app_nil_r, <- ?app_assoc; auto;
      try (split; [reflexivity |]); try (now left);
      right; eexists _, _; repeat split; eauto.
  - destruct (onError options) as [handler |]; simpl;
      [destruct (handler (normalizeError thrown)) |]; simpl;
      rewrite ?app_nil_r; auto.
Qed.

Lemma fetch_reports_its_outcome_witness :
  let s := fst (fetchData_settle sample_success_throwing false
                  (Normal [1; 2; 3]%nat)
                  (initialState sample_success_throwing)) in
  calls s = [OnSuccess [1; 2; 3]%nat [1; 2; 3]%nat;
             OnError {| message := "Unknown error" |}]
  /\ error s = Some {| message := "Unknown error" |}
  /\ items s = [1; 2; 3]%nat.
Proof.
  pose proof (@fetch_reports_its_outcome (list nat) nat sample_success_throwing
                false (Normal [1; 2; 3]%nat)
                (initialState sample_success_throwing)) as H.
  cbv zeta in H. simpl fetchData_try in H.
  destruct H as [He [[Hc _] | (response & handler & Er & _ & _ & Hc)]].
  - vm_compute in Hc. discriminate Hc.
  - split; [| split; [exact He | reflexivity]].
    injection Er as <-. exact Hc.
Defined.

End InfiniteListMore.

(* ===================================================================== *)
(** ** More properties of the position index and the render window *)
(* ===================================================================== *)

Module VirtualListMore.
Import VirtualList VirtualListSpec VirtualListFacts ScrollHandlers WindowSpec.
Open Scope Q_scope.

Section Window.

Context {TItem : Type}.
Variable itemHeight : ItemHeight Q.

Lemma positions_entries (n : nat) :
  snd (positions_loop itemHeight n 0 0 []) = map (entry itemHeight) (seq 0 n).
Proof. exact (positions_map itemHeight n). Qed.

Variable items : list TItem.

Lemma window_loop_run (todo k : nat) :
  (k + todo <= length items)%nat ->
  window_loop items itemHeight todo (Z.of_nat k) []
  = map (item_at itemHeight) (seq k todo).
Proof.
  revert k. induction todo as [| todo IH]; intros k Hk; [reflexivity |].
  simpl. rewrite window_loop_acc, itemPositions_at by lia. simpl. f_equal.
  replace (Z.of_nat k + 1)%Z with (Z.of_nat (S k)) by lia. apply IH. lia.
Qed.

Lemma virtualItems_run (overscan : Z) (scrollTop containerHeight : Q) :
  items <> [] -> ~ containerHeight == 0 ->
  let startIndex :=
    Z.max 0 (findStartIndex items itemHeight scrollTop - overscan) in
  let endIndex :=
    Z.min (Z.of_nat (length items) - 1)
          (findEndIndex items itemHeight scrollTop containerHeight + overscan) in
  virtualItems items itemHeight overscan scrollTop containerHeight
  = map (item_at itemHeight)
        (seq (Z.to_nat startIndex) (Z.to_nat (endIndex - startIndex + 1))).
Proof.
  intros Hne Hc startIndex endIndex. unfold virtualItems. exact_arithmetic.
  assert ((length items =? 0)%nat = false) as ->
      by (apply Nat.eqb_neq; destruct items; simpl; congruence).
  assert (Qeq_bool containerHeight 0 = false) as ->
      by (apply not_true_iff_false; now rewrite Qeq_bool_iff).
  simpl. fold startIndex endIndex.
  destruct (Z_le_gt_dec startIndex endIndex) as [Hle | Hgt].
  - rewrite <- (Z2Nat.id startIndex) at 2 by (unfold startIndex; lia).
    apply window_loop_run. unfold startIndex, endIndex in *. lia.
  - now replace (Z.to_nat (endIndex - startIndex + 1)) with 0%nat by lia.
Qed.

(** *** Where the searches land, by one comparison with an item *)

Hypothesis heights : nonnegative_heights itemHeight (length items).

Lemma offset_nonnegative (i : nat) :
  (i <= length items)%nat -> 0 <= offset itemHeight i.
Proof using heights.
  intros Hi. rewrite <- (offset_0 itemHeight).
  apply offset_mono with (count := length items); auto; lia.
Qed.

Lemma nonempty_of_index (i : nat) : (i < length items)%nat -> items <> [].
Proof.
  intros Hi E. apply (f_equal (@length _)) in E. simpl in E. lia.
Qed.

Lemma found_entry (k : Z) (pos : PositionEntry.t Q) (x : Q) :
  at_index (itemPositions items itemHeight) k = Some pos -> contains pos x ->
  (0 <= k < Z.of_nat (length items))%Z
  /\ offset itemHeight (Z.to_nat k) <= x <= offset itemHeight (S (Z.to_nat k)).
Proof.
  intros E [Hs He]. apply itemPositions_at_Z in E as [Hk ->].
  rewrite entry_end in He. simpl in Hs. auto.
Qed.

Lemma findStartIndex_le (x : Q) (i : nat) :
  (i < length items)%nat -> x < offset itemHeight (S i) ->
  (findStartIndex items itemHeight x <= Z.of_nat i)%Z.
Proof using heights.
  intros Hi Hx.
  destruct (findStartIndex_cases x heights (nonempty_of_index Hi))
    as [[_ ->] | [[Ht _] | (_ & pos & E & Hc)]].
  - lia.
  - pose proof (@offset_le_total _ itemHeight items (S i) heights ltac:(lia)). lra.
  - destruct (@found_entry _ _ _ E Hc) as [Hk [Hlo _]].
    destruct (Z_le_gt_dec (findStartIndex items itemHeight x) (Z.of_nat i));
      [assumption |].
    assert (offset itemHeight (S i)
            <= offset itemHeight (Z.to_nat (findStartIndex items itemHeight x)))
      by (apply offset_mono with (count := length items); auto; lia).
    lra.
Qed.

Lemma findStartIndex_ge (x : Q) (i : nat) :
  (i < length items)%nat -> offset itemHeight i < x ->
  (Z.of_nat i <= findStartIndex items itemHeight x)%Z.
Proof using heights.
  intros Hi Hx.
  destruct (findStartIndex_cases x heights (nonempty_of_index Hi))
    as [[Hneg _] | [[_ ->] | (_ & pos & E & Hc)]].
  - pose proof (@offset_nonnegative i ltac:(lia)). lra.
  - lia.
  - destruct (@found_entry _ _ _ E Hc) as [Hk [_ Hhi]].
    destruct (Z_le_gt_dec (Z.of_nat i) (findStartIndex items itemHeight x));
      [assumption |].
    assert (offset itemHeight (S (Z.to_nat (findStartIndex items itemHeight x)))
            <= offset itemHeight i)
      by (apply offset_mono with (count := length items); auto; lia).
    lra.
Qed.

Lemma findEndIndex_ge (s c : Q) (i : nat) :
  (i < length items)%nat -> offset itemHeight i < s + c ->
  (Z.of_nat i <= findEndIndex items itemHeight s c)%Z.
Proof using heights.
  intros Hi Hx.
  destruct (findEndIndex_cases s c heights (nonempty_of_index Hi))
    as [[Hneg _] | [[_ ->] | (_ & pos & E & Hc)]].
  - pose proof (@offset_nonnegative i ltac:(lia)). lra.
  - lia.
  - destruct (@found_entry _ _ _ E Hc) as [Hk [_ Hhi]].
    destruct (Z_le_gt_dec (Z.of_nat i) (findEndIndex items itemHeight s c));
      [assumption |].
    assert (offset itemHeight (S (Z.to_nat (findEndIndex items itemHeight s c)))
            <= offset itemHeight i)
      by (apply offset_mono with (count := length items); auto; lia).
    lra.
Qed.

Lemma findEndIndex_le (s c : Q) (i : nat) :
  (i < length items)%nat -> s + c < offset itemHeight (S i) ->
  (findEndIndex items itemHeight s c <= Z.of_nat i)%Z.
Proof using heights.
  intros Hi Hx.
  destruct (findEndIndex_cases s c heights (nonempty_of_index Hi))
    as [[_ ->] | [[Ht _] | (_ & pos & E & Hc)]].
  - lia.
  - pose proof (@offset_le_total _ itemHeight items (S i) heights ltac:(lia)). lra.
  - destruct (@found_entry _ _ _ E Hc) as [Hk [Hlo _]].
    destruct (Z_le_gt_dec (findEndIndex items itemHeight s c) (Z.of_nat i));
      [assumption |].
    assert (offset itemHeight (S i)
            <= offset itemHeight (Z.to_nat (findEndIndex items itemHeight s c)))
      by (apply offset_mono with (count := length items); auto; lia).
    lra.
Qed.

Lemma search_range (s c : Q) :
  items <> [] ->
  (0 <= findStartIndex items itemHeight s <= Z.of_nat (length items))%Z
  /\ (0 <= findEndIndex items itemHeight s c <= Z.of_nat (length items) - 1)%Z.
Proof using heights.
  intros Hne.
  assert (0 < length items)%nat as Hn
      by (destruct (length items) eqn:E;
          [apply length_zero_iff_nil in E; contradiction | lia]).
  split.
  - destruct (findStartIndex_cases s heights Hne)
      as [[_ ->] | [[_ ->] | (_ & pos & E & Hc)]]; try lia.
    destruct (@found_entry _ _ _ E Hc) as [Hk _]. lia.
  - destruct (findEndIndex_cases s c heights Hne)
      as [[_ ->] | [[_ ->] | (_ & pos & E & Hc)]]; try lia.
    destruct (@found_entry _ _ _ E Hc) as [Hk _]. lia.
Qed.

(** An item that shares more than a boundary point with the viewport is in
    the window. *)
Lemma window_covers (overscan : Z) (s c : Q) (i : nat) :
  (0 <= overscan)%Z -> ~ c == 0 -> (i < length items)%nat ->
  in_view itemHeight i s c ->
  In (item_at itemHeight i) (virtualItems items itemHeight overscan s c).
Proof using heights.
  intros Ho Hc Hi [Hlo Hhi].
  rewrite (@virtualItems_run overscan s c (nonempty_of_index Hi) Hc).
  apply in_map, in_seq.
  pose proof (@findStartIndex_le s i Hi Hhi).
  pose proof (@findEndIndex_ge s c i Hi Hlo).
  lia.
Qed.

(** The offset [scrollToIndex] assigns puts the item in view. *)
Lemma target_in_view (c : Q) (i : nat) (align : Align) (s : Q) :
  (i < length items)%nat -> 0 < getItemHeight itemHeight i -> 0 < c ->
  s == Qmax 0 (target itemHeight c i align) ->
  in_view itemHeight i s c.
Proof using heights.
  intros Hi Hh Hc Hs. unfold in_view.
  pose proof (@offset_nonnegative i ltac:(lia)) as H0.
  pose proof (offset_S itemHeight i) as HS.
  assert (offset itemHeight (S i)
          == offset itemHeight i + getItemHeight itemHeight i) as HS'
      by (now rewrite HS).
  destruct (Q.max_spec 0 (target itemHeight c i align)) as [[Hlt E] | [Hle E]];
    rewrite E in Hs; clear E; destruct align; simpl in *;
      split; try lra.
  all: try (assert (c / 2 == c * (1 # 2)) by field;
            assert (getItemHeight itemHeight i / 2
                    == getItemHeight itemHeight i * (1 # 2)) by field; lra).
Qed.

(** *** How far apart the two searches can land *)



(** What [scrollToIndex] does for a loaded item on a mounted container. *)
Lemma scrollToIndex_loaded (useWindowScroll : bool) (containerHeight : Q)
  (container : Container Q) (scrollY0 : Q) (index : Z) (align : Align) :
  (0 <= index < Z.of_nat (length items))%Z ->
  scrollToIndex items itemHeight useWindowScroll containerHeight
                (Some container) scrollY0 index align
  = Some (if useWindowScroll
          then WindowScrollTo
                 (scrollY0 + rect_top container
                  + Qmax 0 (target itemHeight containerHeight (Z.to_nat index) align))
          else SetScrollTop
                 (Qmax 0 (target itemHeight containerHeight (Z.to_nat index) align))).
Proof.
  intros Hi. unfold scrollToIndex. exact_arithmetic.
  destruct (Z.ltb_spec index 0); [lia |].
  destruct (Z.leb_spec (Z.of_nat (length items)) index); [lia |]. simpl.
  rewrite <- (Z2Nat.id index) at 1 by lia.
  rewrite itemPositions_at by lia.
  destruct useWindowScroll, align; reflexivity.
Qed.

Lemma positions_append (more : list TItem) :
  itemPositions (items ++ more) itemHeight
  = itemPositions items itemHeight
    ++ map (entry itemHeight) (seq (length items) (length more)).
Proof.
  unfold itemPositions. rewrite !positions_entries, length_app, seq_app, map_app.
  reflexivity.
Qed.

End Window.

(** X11.  The window is a run of consecutive indices in ascending order,
    from [max(0, findStartIndex - overscan)] to
    [min(length - 1, findEndIndex + overscan)], each with the entry of its
    item in the position index: the test [if (pos)] of the loop never
    fails.  Every index of the window is the index of a loaded item, and the
    window is no longer than the list.  This holds for any heights, any
    overscan and any scroll offset. *)
Theorem window_is_a_run_of_loaded_items {TItem : Type} (items : list TItem)
  (itemHeight : ItemHeight Q) (overscan : Z) (scrollTop containerHeight : Q) :
  let startIndex :=
    Z.max 0 (findStartIndex items itemHeight scrollTop - overscan) in
  let endIndex :=
    Z.min (Z.of_nat (length items) - 1)
          (findEndIndex items itemHeight scrollTop containerHeight + overscan) in
  let window := virtualItems items itemHeight overscan scrollTop containerHeight in
  window
  = (if (length items =? 0)%nat || Qeq_bool containerHeight 0 then []
     else map (item_at itemHeight)
              (seq (Z.to_nat startIndex) (Z.to_nat (endIndex - startIndex + 1))))
  /\ Forall (fun v => exists item, at_index items (VirtualItem.index v) = Some item)
            window
  /\ (length window <= length items)%nat.
Proof.
  intros startIndex endIndex window.
  assert (window
          = (if (length items =? 0)%nat || Qeq_bool containerHeight 0 then []
             else map (item_at itemHeight)
                      (seq (Z.to_nat startIndex)
                           (Z.to_nat (endIndex - startIndex + 1))))) as E.
  { destruct ((length items =? 0)%nat || Qeq_bool containerHeight 0) eqn:Eb.
    - unfold window, virtualItems. exact_arithmetic. now rewrite Eb.
    - apply orb_false_iff in Eb as [En Ec].
      apply virtualItems_run.
      + intros ->. discriminate.
      + intros Hc. apply Qeq_bool_iff in Hc. congruence. }
  split; [exact E |]. rewrite E.
  destruct ((length items =? 0)%nat || Qeq_bool containerHeight 0).
  { split; [constructor | simpl; lia]. }
  split.
  - apply Forall_forall. intros v Hv. apply in_map_iff in Hv as (k & <- & Hk).
    apply in_seq in Hk. simpl. apply at_index_in_range.
    unfold startIndex, endIndex in *. lia.
  - rewrite length_map, length_seq. unfold startIndex, endIndex. lia.
Qed.

(** X12.  No visible item is left out: with heights that are not negative,
    an overscan that is not negative and a container height other than 0,
    every loaded item that shares more than a boundary point with the
    viewport [[scrollTop, scrollTop + containerHeight]] is in the window,
    with its entry. *)
Theorem visible_item_is_in_window {TItem : Type} (items : list TItem)
  (itemHeight : ItemHeight Q) (overscan : Z) (scrollTop containerHeight : Q)
  (i : nat) :
  nonnegative_heights itemHeight (length items) ->
  (0 <= overscan)%Z -> ~ containerHeight == 0 -> (i < length items)%nat ->
  offset itemHeight i < scrollTop + containerHeight ->
  scrollTop < offset itemHeight (S i) ->
  In (item_at itemHeight i)
     (virtualItems items itemHeight overscan scrollTop containerHeight).
Proof.
  intros Hh Ho Hc Hi Hlo Hhi. apply window_covers; auto. now split.
Qed.

Lemma visible_item_is_in_window_witness :
  In (item_at (PerIndex (fun i => inject_Z (Z.of_nat i) * 10)) 2)
     (virtualItems [tt; tt; tt; tt] (PerIndex (fun i => inject_Z (Z.of_nat i) * 10))
                   0 25 3).
Proof.
  apply (@visible_item_is_in_window _ [tt; tt; tt; tt]
           (PerIndex (fun i => inject_Z (Z.of_nat i) * 10)) 0 25 3 2).
  - intros i Hi. simpl.
    assert (0 <= inject_Z (Z.of_nat i)) by (unfold Qle; simpl; lia). nra.
  - lia.
  - vm_compute. discriminate.
  - simpl. lia.
  - vm_compute. reflexivity.
  - vm_compute. reflexivity.
Defined.

(** X13.  With heights that are not negative, a binary search whose target
    lies strictly inside the extent of a loaded item returns the index of
    that item: [findStartIndex] for a scroll offset inside it,
    [findEndIndex] for a viewport end inside it. *)
Theorem search_inside_an_item_finds_it {TItem : Type} (items : list TItem)
  (itemHeight : ItemHeight Q) (i : nat) :
  nonnegative_heights itemHeight (length items) -> (i < length items)%nat ->
  (forall scrollTop,
      offset itemHeight i < scrollTop < offset itemHeight (S i) ->
      findStartIndex items itemHeight scrollTop = Z.of_nat i)
  /\ (forall scrollTop containerHeight,
         offset itemHeight i < scrollTop + containerHeight
                             < offset itemHeight (S i) ->
         findEndIndex items itemHeight scrollTop containerHeight = Z.of_nat i).
Proof.
  intros Hh Hi. split.
  - intros x [Hlo Hhi].
    pose proof (@findStartIndex_le _ itemHeight items Hh x i Hi Hhi).
    pose proof (@findStartIndex_ge _ itemHeight items Hh x i Hi Hlo). lia.
  - intros s c [Hlo Hhi].
    pose proof (@findEndIndex_le _ itemHeight items Hh s c i Hi Hhi).
    pose proof (@findEndIndex_ge _ itemHeight items Hh s c i Hi Hlo). lia.
Qed.

Lemma search_inside_an_item_finds_it_witness :
  (forall scrollTop,
      offset (Fixed 50) 1 < scrollTop < offset (Fixed 50) 2 ->
      findStartIndex [tt; tt; tt] (Fixed 50) scrollTop = 1%Z)
  /\ (forall scrollTop containerHeight,
         offset (Fixed 50) 1 < scrollTop + containerHeight < offset (Fixed 50) 2 ->
         findEndIndex [tt; tt; tt] (Fixed 50) scrollTop containerHeight = 1%Z).
Proof.
  apply (@search_inside_an_item_finds_it _ [tt; tt; tt] (Fixed 50) 1).
  - intros i Hi. vm_compute. discriminate.
  - simpl. lia.
Defined.

(** X14.  Scrolling to a loaded item brings it into the window (container
    mode).  With heights that are not negative, a positive height for the
    item, a positive container height and an overscan that is not negative,
    [scrollToIndex] assigns an offset to [container.scrollTop]; once the
    scroll handler has read that offset back, the window contains the item,
    for each of the three alignments. *)
Theorem scrollToIndex_brings_item_into_window {TItem : Type} (items : list TItem)
  (itemHeight : ItemHeight Q) (overscan : Z) (containerHeight : Q)
  (container : Container Q) (scrollY0 : Q) (index : Z) (align : Align) :
  nonnegative_heights itemHeight (length items) ->
  (0 <= overscan)%Z -> 0 < containerHeight ->
  (0 <= index < Z.of_nat (length items))%Z ->
  0 < getItemHeight itemHeight (Z.to_nat index) ->
  exists value,
    scrollToIndex items itemHeight false containerHeight (Some container)
                  scrollY0 index align
    = Some (SetScrollTop value)
    /\ forall onNearEnd nearEndThreshold box,
        box_scrollTop box = value ->
        In (item_at itemHeight (Z.to_nat index))
           (virtualItems items itemHeight overscan
              (scrollTop_set (handleScroll onNearEnd nearEndThreshold box))
              containerHeight).
Proof.
  intros Hh Ho Hc Hi Hpos.
  exists (Qmax 0 (target itemHeight containerHeight (Z.to_nat index) align)).
  split.
  - now rewrite scrollToIndex_loaded.
  - intros onNearEnd nearEndThreshold box E. simpl. rewrite E.
    apply window_covers; auto; [lra | lia |].
    apply (@target_in_view _ itemHeight items Hh) with (align := align); auto;
      [lia | reflexivity].
Qed.

Lemma scrollToIndex_brings_item_into_window_witness :
  exists value,
    scrollToIndex [tt; tt; tt; tt] (Fixed 50) false 60 (Some {| rect_top := 0 |})
                  0 2 AlignCenter
    = Some (SetScrollTop value)
    /\ forall onNearEnd nearEndThreshold box,
        box_scrollTop box = value ->
        In (item_at (Fixed 50) (Z.to_nat 2))
           (virtualItems [tt; tt; tt; tt] (Fixed 50) 0
              (scrollTop_set (handleScroll onNearEnd nearEndThreshold box)) 60).
Proof.
  apply (@scrollToIndex_brings_item_into_window _ [tt; tt; tt; tt] (Fixed 50) 0 60
           {| rect_top := 0 |} 0 2 AlignCenter).
  - intros i Hi. vm_compute. discriminate.
  - lia.
  - reflexivity.
  - simpl. lia.
  - reflexivity.
Defined.





(** X17.  Scrolling down never moves the window up: with heights that are
    not negative, a larger scroll offset gives a start index that is not
    smaller, and a later viewport end gives an end index that is not
    smaller. *)
Theorem scrolling_down_moves_window_down {TItem : Type} (items : list TItem)
  (itemHeight : ItemHeight Q) (scrollTop scrollTop' : Q) :
  nonnegative_heights itemHeight (length items) -> items <> [] ->
  scrollTop < scrollTop' ->
  (findStartIndex items itemHeight scrollTop
   <= findStartIndex items itemHeight scrollTop')%Z
  /\ forall containerHeight containerHeight',
      scrollTop + containerHeight < scrollTop' + containerHeight' ->
      (findEndIndex items itemHeight scrollTop containerHeight
       <= findEndIndex items itemHeight scrollTop' containerHeight')%Z.
Proof.
  intros Hh Hne Hlt.
  assert (0 < length items)%nat as Hn
      by (destruct items; simpl; [congruence | lia]).
  split.
  - destruct (findStartIndex_cases scrollTop' Hh Hne)
      as [[Hs' ->] | [[Hs' ->] | (Hs' & ps' & Es' & Hcs')]].
    + destruct (findStartIndex_cases scrollTop Hh Hne)
        as [[_ ->] | [[Hs _] | (Hs & _)]]; [lia | | lra].
      pose proof (@offset_le_total _ itemHeight items 0 Hh ltac:(lia)) as H0.
      rewrite offset_0 in H0. lra.
    + destruct (@search_range _ itemHeight items Hh scrollTop 0 Hne) as [[_ H] _].
      exact H.
    + destruct (@found_entry _ itemHeight items _ _ _ Es' Hcs') as [Hk' [_ Hhi']].
      rewrite <- (Z2Nat.id (findStartIndex items itemHeight scrollTop')) by lia.
      apply findStartIndex_le; auto; [lia | lra].
  - intros c c' Hlt'.
    destruct (findEndIndex_cases scrollTop' c' Hh Hne)
      as [[Hs' ->] | [[Hs' ->] | (Hs' & ps' & Es' & Hcs')]].
    + destruct (findEndIndex_cases scrollTop c Hh Hne)
        as [[_ ->] | [[Hs _] | (Hs & _)]]; [lia | | lra].
      pose proof (@offset_le_total _ itemHeight items 0 Hh ltac:(lia)) as H0.
      rewrite offset_0 in H0. lra.
    + destruct (@search_range _ itemHeight items Hh scrollTop c Hne) as [_ [_ H]].
      exact H.
    + destruct (@found_entry _ itemHeight items _ _ _ Es' Hcs') as [Hk' [_ Hhi']].
      rewrite <- (Z2Nat.id (findEndIndex items itemHeight scrollTop' c')) by lia.
      apply findEndIndex_le; auto; [lia | lra].
Qed.

Lemma scrolling_down_moves_window_down_witness :
  (findStartIndex [tt; tt; tt] (Fixed 50%Q) 50%Q
   <= findStartIndex [tt; tt; tt] (Fixed 50%Q) 60%Q)%Z
  /\ forall containerHeight containerHeight',
      50 + containerHeight < 60 + containerHeight' ->
      (findEndIndex [tt; tt; tt] (Fixed 50%Q) 50%Q containerHeight
       <= findEndIndex [tt; tt; tt] (Fixed 50%Q) 60%Q containerHeight')%Z.
Proof.
  apply (@scrolling_down_moves_window_down _ [tt; tt; tt] (Fixed 50) 50 60).
  - intros i Hi. vm_compute. discriminate.
  - discriminate.
  - reflexivity.
Defined.

(** X18.  Loading more items does not move the loaded ones: the position
    index of a longer list begins with the position index of the shorter
    one, the entries of the new items follow, and with heights that are not
    negative the total height does not shrink. *)
Theorem loading_more_keeps_positions {TItem : Type} (items more : list TItem)
  (itemHeight : ItemHeight Q) :
  itemPositions (items ++ more) itemHeight
  = itemPositions items itemHeight
    ++ map (entry itemHeight) (seq (length items) (length more))
  /\ (forall i pos,
         at_index (itemPositions items itemHeight) i = Some pos ->
         at_index (itemPositions (items ++ more) itemHeight) i = Some pos)
  /\ (nonnegative_heights itemHeight (length (items ++ more)) ->
      totalHeight items itemHeight <= totalHeight (items ++ more) itemHeight).
Proof.
  split; [apply positions_append |]. split.
  - intros i pos E. pose proof (at_index_Some _ _ E) as Hi.
    rewrite positions_append. unfold at_index in *.
    destruct (Z.ltb_spec i 0); [discriminate |].
    rewrite nth_error_app1 by lia. exact E.
  - intros Hh. rewrite !totalHeight_offset.
    apply offset_mono with (count := length (items ++ more)); auto.
    rewrite length_app. lia.
Qed.

End VirtualListMore.

(* ===================================================================== *)
(** ** Properties of the component *)
(* ===================================================================== *)

Module ComponentFacts.
Import InfiniteList InfiniteListSpec InfiniteListFacts ControllerSpec
       InfiniteListMore VirtualList Component.

Lemma nth_error_map_indexed {A B : Type} (f : A -> nat -> B) (arr : list A)
  (idx k : nat) :
  nth_error (map_indexed f arr idx) k
  = option_map (fun x => f x (idx + k)%nat) (nth_error arr k).
Proof.
  revert idx k. induction arr as [| x arr IH]; intros idx [| k]; simpl;
    try reflexivity.
  - now rewrite Nat.add_0_r.
  - rewrite IH. now replace (S idx + k)%nat with (idx + S k)%nat by lia.
Qed.

Lemma length_map_indexed {A B : Type} (f : A -> nat -> B) (arr : list A)
  (idx : nat) :
  length (map_indexed f arr idx) = length arr.
Proof.
  revert idx. induction arr as [| x arr IH]; intros idx; simpl; [| rewrite IH];
    reflexivity.
Qed.

Lemma nth_error_rendered {TItem : Type} (items : list TItem) (reverse : bool)
  (k : nat) :
  nth_error (rendered items reverse) k
  = if (k <? length items)%nat then
      let i := if reverse then (length items - S k)%nat else k in
      option_map (fun item => (item, Z.of_nat i)) (nth_error items i)
    else None.
Proof.
  unfold rendered. rewrite nth_error_map_indexed. simpl.
  destruct reverse.
  - rewrite nth_error_rev. destruct (Nat.ltb_spec k (length items)); [| reflexivity].
    destruct (nth_error items (length items - S k)); simpl; [| reflexivity].
    do 2 f_equal. lia.
  - destruct (Nat.ltb_spec k (length items)); [reflexivity |].
    assert (nth_error items k = None) as -> by now apply nth_error_None.
    reflexivity.
Qed.

(** X19.  [scrollToIndexWithAutoLoad] scrolls only to an item that is
    loaded in the render whose closure is called.  For an index that is not,
    it waits for [loadUntilCount(index + 1)]; if that rejects, so does it;
    if that leaves too few items it warns; otherwise it sets a timer, and
    the [scrollToIndex] the timer calls is the one of the same render, which
    finds [index >= items.length] and returns without scrolling, although
    the item is loaded by then. *)
Theorem auto_load_scrolls_only_to_rendered_items {TData TItem : Type}
  {number : Type} {arithmetic : Number.Arithmetic number}
  (options : UseInfiniteListOptions TData TItem)
  (fetcher : nat -> FetcherParams -> completion TData)
  (items : list TItem) (itemHeight : ItemHeight number) (useWindowScroll : bool)
  (containerHeight : number) (container : option (Container number))
  (scrollY : number) (container' : option (Container number)) (scrollY' : number)
  (index : Z) (align : Align) (r : Run TData TItem) :
  let '(r', outcome) :=
    scrollToIndexWithAutoLoad options fetcher items itemHeight useWindowScroll
      containerHeight container scrollY container' scrollY' index align r in
  match outcome with
  | ScrolledAtOnce scroll =>
    (index < Z.of_nat (length items))%Z /\ r' = r
    /\ scroll = scrollToIndex items itemHeight useWindowScroll containerHeight
                              container scrollY index align
  | Rejected _ => (Z.of_nat (length items) <= index)%Z
  | Warned itemsCount =>
    (Z.of_nat (length items) <= index)%Z
    /\ itemsCount = length (itemsRef (state r'))
    /\ (Z.of_nat itemsCount <= index)%Z
  | ScrollDeferred scroll =>
    (Z.of_nat (length items) <= index)%Z
    /\ (index < Z.of_nat (length (itemsRef (state r'))))%Z
    /\ scroll = None
  end.
Proof.
  unfold scrollToIndexWithAutoLoad.
  destruct (Z.ltb_spec index (Z.of_nat (length items))) as [Hlt | Hge].
  - auto.
  - unfold loadUntilCount.
    destruct (loadUntilCount_loop options fetcher (index + 1) 100 0 r)
      as [[r' passes] [[] | thrown]]; [| exact Hge].
    simpl.
    destruct (Z.leb_spec (Z.of_nat (length (itemsRef (state r')))) index)
      as [Hfew | Henough].
    + auto.
    + split; [exact Hge |]. split; [exact Henough |].
      unfold scrollToIndex. destruct container' as [c |]; [| reflexivity].
      destruct (Z.leb_spec (Z.of_nat (length items)) index); [| lia].
      now rewrite orb_true_r.
Qed.

(** X20.  Without virtualization every loaded item is rendered once, with
    its own index in [items]: [children(item, i)] is called with
    [items[i] = item], in both orders, and the reversed order renders the
    same calls in the opposite order. *)
Theorem rendered_items_carry_their_index {TItem : Type} (items : list TItem)
  (reverse : bool) :
  length (rendered items reverse) = length items
  /\ Forall (fun call => at_index items (snd call) = Some (fst call))
            (rendered items reverse)
  /\ map snd (rendered items false) = map Z.of_nat (seq 0 (length items))
  /\ rendered items true = rev (rendered items false).
Proof.
  split; [| split; [| split]].
  - unfold rendered. rewrite length_map_indexed.
    destruct reverse; [apply length_rev | reflexivity].
  - apply Forall_forall. intros [item i] Hin.
    apply In_nth_error in Hin as [k Hk]. rewrite nth_error_rendered in Hk.
    destruct (Nat.ltb_spec k (length items)); [| discriminate]. simpl in Hk.
    destruct (nth_error items (if reverse then (length items - S k)%nat else k))
      eqn:E; [| discriminate].
    injection Hk as <- <-. simpl.
    unfold at_index. destruct (Z.ltb_spec (Z.of_nat
      (if reverse then (length items - S k)%nat else k)) 0); [lia |].
    now rewrite Nat2Z.id.
  - apply nth_error_ext. intros k.
    rewrite !nth_error_map, nth_error_rendered, nth_error_seq.
    destruct (Nat.ltb_spec k (length items)); [| reflexivity]. simpl.
    destruct (nth_error items k) eqn:E; [reflexivity |].
    apply nth_error_None in E. lia.
  - apply nth_error_ext. intros k.
    rewrite nth_error_rev.
    assert (length (rendered items false) = length items) as ->.
    { unfold rendered. now rewrite length_map_indexed. }
    rewrite !nth_error_rendered.
    destruct (Nat.ltb_spec k (length items)); [| reflexivity].
    destruct (Nat.ltb_spec (length items - S k) (length items)); [| lia].
    reflexivity.
Qed.

(** X21.  Whatever has happened to an instance, the guard [isFetchingRef] is
    up exactly when one of the flags [isLoading], [isLoadingMore] is.  So a
    call of [handleLoadMore] through the closure of the current render does
    nothing at all, or sends the next request and calls [onLoadMore] if it
    is supplied: [onLoadMore] is never reported for a [loadMore] that
    returned at a guard. *)
Theorem handleLoadMore_reports_only_requests {TData TItem : Type}
  (options : UseInfiniteListOptions TData TItem) (trace : list (Event TData))
  (onLoadMore : bool) :
  let s := instance (run options (initialWorld options) trace) in
  isFetchingRef s = isLoading s || isLoadingMore s
  /\ match handleLoadMore options (isLoading s) (isLoadingMore s) (hasMore s)
                          onLoadMore s with
     | (None, called) =>
       called = false
       /\ negb (isLoading s) && negb (isLoadingMore s) && hasMore s = false
     | (Some (Returned _), _) => False
     | (Some (Awaiting request _), called) =>
       request = params_of options s /\ called = onLoadMore
     end.
Proof.
  intros s.
  assert (guard_mirrors_flags s) as Hm
      by (apply (@run_mirrors _ _ options); reflexivity).
  assert (sound (run options (initialWorld options) trace)) as [[_ Hh] _]
      by (apply (@reachable_sound _ _ options); now exists trace).
  fold s in Hh. split; [exact Hm |].
  unfold handleLoadMore, guard_mirrors_flags in *.
  destruct (isLoading s) eqn:El; simpl; [auto |].
  destruct (isLoadingMore s) eqn:Elm; simpl; [auto |].
  destruct (hasMore s) eqn:Ehm; simpl; [| auto].
  unfold loadMore. rewrite <- Hh. simpl in *.
  destruct (@fetchData_start_sends _ _ options s Hm (eq_sym Hh)) as [s1 ->].
  auto.
Qed.

End ComponentFacts.
